(** * BMENet gradient VAE: the autoencoder and its training loop

    A shallow embedding of [code/models/aekl_no_attention.py] and of the
    training driver [code/train_gradevae.py].

    The numeric substrate (tensor kernels, automatic differentiation, the
    optimizer, the tensorboard writer) is the host framework's; it is taken
    as an interface, the class [Torch] for the model file and the class
    [Trainer] for the driver.  Everything the repository itself writes, the
    module constructors, the forward passes, the training loop with its
    counters, buffers and periodic actions, is defined over that interface
    statement by statement.  One instance of the interface, [ShapeTorch],
    interprets every tensor by its shape, with the framework's documented
    shape rules, and is used for the statements about tensor sizes.

    Of the driver's helper functions, [calculate_psnr_pt] and
    [get_middle_slice] enter through the interface fields [psnr_mean] and
    [slice_grid]; of [log_txt_as_img] the text layout is embedded, its
    drawing is not; [rgb2ycbcr_pt], [setup_noise_inputs] and
    [cond_3d_pretrain_model] are never called by [main] and are not
    embedded. *)

From Stdlib Require Import String Ascii ZArith Lia ZifyNat Bool Arith PeanoNat.
From Stdlib Require Import Decimal DecimalString DecimalN List.
Import ListNotations.
Open Scope string_scope.
Open Scope list_scope.
Open Scope nat_scope.

(** ** Python exceptions and fallible computations *)

Inductive exn : Type :=
| NameError (name : string)
| TypeError (msg : string)
| ValueError (msg : string)
| IndexError (msg : string)
| AttributeError (attr : string)
| ZeroDivisionError
(** the exception with which a framework call rejects its arguments: a
    [RuntimeError] (for [einops.rearrange] an [EinopsError], which is
    one), or the [ValueError] of [F.group_norm]'s check of the batch
    size *)
| TorchError.

Inductive result (A : Type) : Type :=
| Ok (a : A)
| Raise (e : exn).
Arguments Ok {A} a.
Arguments Raise {A} e.

Definition bind {A B : Type} (c : result A) (k : A -> result B) : result B :=
  match c with
  | Ok a => k a
  | Raise e => Raise e
  end.

Declare Scope py_scope.
Delimit Scope py_scope with py.
Notation "x <- c1 ;; c2" := (bind c1 (fun x => c2))
  (at level 61, c1 at next level, right associativity) : py_scope.
Notation "' pat <- c1 ;; c2" := (bind c1 (fun x => match x with pat => c2 end))
  (at level 61, pat pattern, c1 at next level, right associativity) : py_scope.
Open Scope py_scope.

(** [seq[i]] on a Python list or tuple, for a non-negative index. *)
Definition getitem {A : Type} (l : list A) (i : nat) : result A :=
  match nth_error l i with
  | Some a => Ok a
  | None => Raise (IndexError "index out of range")
  end.

(** [seq[-1]]. *)
Definition getitem_last {A : Type} (l : list A) : result A :=
  match rev l with
  | a :: _ => Ok a
  | [] => Raise (IndexError "index out of range")
  end.

(** ** The tensor interface used by the model file

    Each field stands for the framework function named in its comment, with
    the keyword arguments the repository fixes.  The functions are total:
    where the framework would reject a call (with a [RuntimeError] for
    mismatched shapes or a kernel larger than its padded input, with a
    [ValueError] where [F.group_norm] finds one value per channel), the
    result is a tensor that stands for the failed call, [None] in the
    shape interpretation below; [rejected] tells such a tensor from one
    the framework returned.  Inside a forward pass of the model file, which has
    no effect but its result, a rejected call is passed on in its result;
    where a statement of the repository follows that could fail or act
    otherwise, [returned] raises the call's exception at the call.  The
    other exceptions modelled by [Raise] are those of the repository's own
    statements (name lookup, attribute access, indexing, integer modulo)
    and of the module constructors. *)

Class Torch : Type := {
  tensor : Type;
  generator : Type;
  (** a freshly initialised [nn.Parameter] of the given shape *)
  param_init : list nat -> tensor;
  (** [F.conv3d(input, weight, bias, stride, padding)] *)
  conv3d : tensor -> tensor -> tensor -> nat -> nat -> tensor;
  (** [F.group_norm(input, num_groups, weight, bias, eps=1e-6)] *)
  group_norm : tensor -> nat -> tensor -> tensor -> tensor;
  (** [F.silu] and [torch.sigmoid] *)
  silu : tensor -> tensor;
  sigmoid : tensor -> tensor;
  (** [x + y] and [x * y] *)
  add : tensor -> tensor -> tensor;
  mul : tensor -> tensor -> tensor;
  (** [F.pad(x, pad, mode="constant", value=0)] *)
  pad : tensor -> list nat -> tensor;
  (** [F.interpolate(x, scale_factor=s, mode="nearest")] *)
  interpolate : tensor -> nat -> tensor;
  (** [torch.randn_like(x)], drawing from the generator's state *)
  randn_like : generator -> tensor -> tensor * generator;
  (** [F.mse_loss(input, target)] *)
  mse_loss : tensor -> tensor -> tensor;
  (** whether a tensor stands for a call that the framework rejected *)
  rejected : tensor -> bool
}.

(** What Python sees of a framework call: the tensor it returned, or the
    exception it raised. *)
Definition returned `{Torch} (t : tensor) : result tensor :=
  if rejected t then Raise TorchError else Ok t.

(** A Python object at the boundary of [AutoencoderKL]'s methods: a tensor
    or a tuple of objects. *)
#[warnings="-register-all"]
Inductive pyobj `{Torch} : Type :=
| PyTensor (t : tensor)
| PyTuple (items : list pyobj).

(** [returned] for the result of a method of the model file. *)
Definition returned_obj `{Torch} (v : pyobj) : result pyobj :=
  match v with
  | PyTensor t => t <- returned t ;; Ok (PyTensor t)
  | PyTuple _ => Ok v
  end.

Section Model.
Context `{TT : Torch}.

(** *** [nn.Conv3d] and [nn.GroupNorm] *)

Record Conv3d : Type := {
  conv_in_channels : nat;
  conv_out_channels : nat;
  conv_kernel_size : nat;
  conv_stride : nat;
  conv_padding : nat;
  conv_weight : tensor;
  conv_bias : tensor
}.

Definition Conv3d_new (in_channels out_channels kernel_size stride padding : nat)
  : Conv3d :=
  {| conv_in_channels := in_channels;
     conv_out_channels := out_channels;
     conv_kernel_size := kernel_size;
     conv_stride := stride;
     conv_padding := padding;
     conv_weight :=
       param_init [out_channels; in_channels; kernel_size; kernel_size; kernel_size];
     conv_bias := param_init [out_channels] |}.

Definition Conv3d_forward (c : Conv3d) (x : tensor) : tensor :=
  conv3d x (conv_weight c) (conv_bias c) (conv_stride c) (conv_padding c).

Record GroupNorm : Type := {
  gn_num_groups : nat;
  gn_num_channels : nat;
  gn_weight : tensor;
  gn_bias : tensor
}.

(** [nn.GroupNorm.__init__] refuses a channel count its groups do not divide. *)
Definition GroupNorm_new (num_groups num_channels : nat) : result GroupNorm :=
  if negb (num_channels mod num_groups =? 0)
  then Raise (ValueError "num_channels must be divisible by num_groups")
  else Ok {| gn_num_groups := num_groups;
             gn_num_channels := num_channels;
             gn_weight := param_init [num_channels];
             gn_bias := param_init [num_channels] |}.

Definition GroupNorm_forward (g : GroupNorm) (x : tensor) : tensor :=
  group_norm x (gn_num_groups g) (gn_weight g) (gn_bias g).

(** *** [swish], [Normalize] *)

Definition swish (x : tensor) : tensor :=
  mul x (sigmoid x).

Definition Normalize (in_channels : nat) : result GroupNorm :=
  GroupNorm_new 32 in_channels.

(** *** [Upsample] *)

Record Upsample : Type := { up_conv : Conv3d }.

Definition Upsample_init (in_channels : nat) : Upsample :=
  {| up_conv := Conv3d_new in_channels in_channels 3 1 1 |}.

Definition Upsample_forward (u : Upsample) (x : tensor) : tensor :=
  let x := interpolate x 2 in
  let x := Conv3d_forward (up_conv u) x in
  x.

(** *** [Downsample] *)

Record Downsample : Type := { down_conv : Conv3d }.

Definition Downsample_init (in_channels : nat) : Downsample :=
  {| down_conv := Conv3d_new in_channels in_channels 3 2 0 |}.

Definition Downsample_forward (d : Downsample) (x : tensor) : tensor :=
  let pad_ := [0; 1; 0; 1; 0; 1] in
  let x := pad x pad_ in
  let x := Conv3d_forward (down_conv d) x in
  x.

(** *** [ResBlock] *)

Record ResBlock : Type := {
  rb_in_channels : nat;
  rb_out_channels : nat;
  norm1 : GroupNorm;
  conv1 : Conv3d;
  norm2 : GroupNorm;
  conv2 : Conv3d;
  (** the attribute exists only when the constructor assigned it *)
  nin_shortcut : option Conv3d
}.

(** [nn.Conv3d(in_channels, out_channels, ...)] with [out_channels] possibly
    [None]: the constructor's [out_channels % groups] is a [TypeError] then. *)
Definition int_arg (v : option nat) : result nat :=
  match v with
  | Some n => Ok n
  | None => Raise (TypeError "unsupported operand type(s) for %: 'NoneType' and 'int'")
  end.

Definition ResBlock_init (in_channels : nat) (out_channels : option nat)
  : result ResBlock :=
  let self_in_channels := in_channels in
  let self_out_channels :=
    match out_channels with None => in_channels | Some o => o end in
  n1 <- Normalize in_channels ;;
  oc <- int_arg out_channels ;;
  let c1 := Conv3d_new in_channels oc 3 1 1 in
  n2 <- Normalize oc ;;
  let c2 := Conv3d_new oc oc 3 1 1 in
  let nin :=
    if negb (self_in_channels =? self_out_channels)
    then Some (Conv3d_new in_channels oc 1 1 0)
    else None in
  Ok {| rb_in_channels := self_in_channels;
        rb_out_channels := self_out_channels;
        norm1 := n1; conv1 := c1; norm2 := n2; conv2 := c2;
        nin_shortcut := nin |}.

Definition getattr_nin_shortcut (rb : ResBlock) : result Conv3d :=
  match nin_shortcut rb with
  | Some c => Ok c
  | None => Raise (AttributeError "nin_shortcut")
  end.

Definition ResBlock_forward (rb : ResBlock) (x : tensor) : result tensor :=
  let h := x in
  let h := GroupNorm_forward (norm1 rb) h in
  let h := silu h in
  let h := Conv3d_forward (conv1 rb) h in
  let h := GroupNorm_forward (norm2 rb) h in
  let h := silu h in
  let h := Conv3d_forward (conv2 rb) h in
  x <- (if negb (rb_in_channels rb =? rb_out_channels rb)
        then (sc <- getattr_nin_shortcut rb ;; Ok (Conv3d_forward sc x))
        else Ok x) ;;
  Ok (add x h).

(** *** The entries of an [nn.ModuleList] of encoder or decoder blocks *)

Inductive Block : Type :=
| BConv (c : Conv3d)
| BRes (rb : ResBlock)
| BDown (d : Downsample)
| BUp (u : Upsample)
| BNorm (g : GroupNorm).

Definition Block_forward (b : Block) (x : tensor) : result tensor :=
  match b with
  | BConv c => Ok (Conv3d_forward c x)
  | BRes rb => ResBlock_forward rb x
  | BDown d => Ok (Downsample_forward d x)
  | BUp u => Ok (Upsample_forward u x)
  | BNorm g => Ok (GroupNorm_forward g x)
  end.

(** [for block in self.blocks: x = block(x)] *)
Fixpoint blocks_forward (blocks : list Block) (x : tensor) : result tensor :=
  match blocks with
  | [] => Ok x
  | b :: rest => x <- Block_forward b x ;; blocks_forward rest x
  end.

(** [for _ in range(num_res_blocks): blocks.append(ResBlock(block_in_ch,
    block_out_ch)); block_in_ch = block_out_ch], returning the list and the
    final [block_in_ch]. *)
Fixpoint append_res_blocks (n : nat) (block_in_ch block_out_ch : nat)
  (blocks : list Block) : result (list Block * nat) :=
  match n with
  | O => Ok (blocks, block_in_ch)
  | S n' =>
      rb <- ResBlock_init block_in_ch (Some block_out_ch) ;;
      append_res_blocks n' block_out_ch block_out_ch (blocks ++ [BRes rb])
  end.

(** A local that is bound only inside a loop body: reading it before the
    first iteration is an [UnboundLocalError], a [NameError]. *)
Definition read_local (name : string) (v : option nat) : result nat :=
  match v with
  | Some n => Ok n
  | None => Raise (NameError name)
  end.

(** *** [Encoder] *)

Record Encoder : Type := {
  enc_in_channels : nat;
  enc_n_channels : nat;
  enc_num_resolutions : nat;
  enc_num_res_blocks : nat;
  enc_resolution : list nat;
  enc_attn_resolutions : list nat;
  enc_blocks : list Block
}.

(** The body of [for i in range(self.num_resolutions)] of [Encoder.__init__],
    over the loop's live variables [blocks] and [block_in_ch]. The local
    [curr_res] is written there and never read; it is left out. *)
Definition Encoder_level (n_channels : nat) (ch_mult in_ch_mult : list nat)
  (num_resolutions num_res_blocks : nat)
  (st : list Block * option nat) (i : nat) : result (list Block * option nat) :=
  let blocks := fst st in
  m_in <- getitem in_ch_mult i ;;
  let block_in_ch := n_channels * m_in in
  m_out <- getitem ch_mult i ;;
  let block_out_ch := n_channels * m_out in
  '(blocks, block_in_ch) <-
     append_res_blocks num_res_blocks block_in_ch block_out_ch blocks ;;
  let blocks :=
    if negb (i =? num_resolutions - 1)
    then blocks ++ [BDown (Downsample_init block_in_ch)]
    else blocks in
  Ok (blocks, Some block_in_ch).

Fixpoint for_each {St : Type} (body : St -> nat -> result St) (idx : list nat)
  (st : St) : result St :=
  match idx with
  | [] => Ok st
  | i :: rest => st <- body st i ;; for_each body rest st
  end.

Definition Encoder_init (in_channels n_channels z_channels : nat)
  (ch_mult : list nat) (num_res_blocks : nat)
  (resolution attn_resolutions : list nat) : result Encoder :=
  let num_resolutions := length ch_mult in
  let in_ch_mult := 1 :: ch_mult in
  let blocks := [] in
  let blocks := blocks ++ [BConv (Conv3d_new in_channels n_channels 3 1 1)] in
  '(blocks, block_in_ch) <-
     for_each (Encoder_level n_channels ch_mult in_ch_mult
                 num_resolutions num_res_blocks)
       (seq 0 num_resolutions) (blocks, None) ;;
  c <- read_local "block_in_ch" block_in_ch ;;
  g <- Normalize c ;;
  let blocks := blocks ++ [BNorm g] in
  c <- read_local "block_in_ch" block_in_ch ;;
  let blocks := blocks ++ [BConv (Conv3d_new c z_channels 3 1 1)] in
  Ok {| enc_in_channels := in_channels;
        enc_n_channels := n_channels;
        enc_num_resolutions := num_resolutions;
        enc_num_res_blocks := num_res_blocks;
        enc_resolution := resolution;
        enc_attn_resolutions := attn_resolutions;
        enc_blocks := blocks |}.

Definition Encoder_forward (e : Encoder) (x : tensor) : result tensor :=
  blocks_forward (enc_blocks e) x.

(** *** [Decoder] *)

Record Decoder : Type := {
  dec_n_channels : nat;
  dec_z_channels : nat;
  dec_out_channels : nat;
  dec_ch_mult : list nat;
  dec_num_resolutions : nat;
  dec_num_res_blocks : nat;
  dec_resolution : list nat;
  dec_attn_resolutions : list nat;
  dec_blocks : list Block
}.

(** The body of [for i in reversed(range(self.num_resolutions))] of
    [Decoder.__init__], over [blocks] and [block_in_ch]. *)
Definition Decoder_level (n_channels : nat) (ch_mult : list nat)
  (num_res_blocks : nat)
  (st : list Block * nat) (i : nat) : result (list Block * nat) :=
  let '(blocks, block_in_ch) := st in
  m_out <- getitem ch_mult i ;;
  let block_out_ch := n_channels * m_out in
  '(blocks, block_in_ch) <-
     append_res_blocks num_res_blocks block_in_ch block_out_ch blocks ;;
  let blocks :=
    if negb (i =? 0)
    then blocks ++ [BUp (Upsample_init block_in_ch)]
    else blocks in
  Ok (blocks, block_in_ch).

Definition Decoder_init (n_channels z_channels out_channels : nat)
  (ch_mult : list nat) (num_res_blocks : nat)
  (resolution attn_resolutions : list nat) : result Decoder :=
  let num_resolutions := length ch_mult in
  m_last <- getitem_last ch_mult ;;
  let block_in_ch := n_channels * m_last in
  let blocks := [] in
  let blocks := blocks ++ [BConv (Conv3d_new z_channels block_in_ch 3 1 1)] in
  '(blocks, block_in_ch) <-
     for_each (Decoder_level n_channels ch_mult num_res_blocks)
       (rev (seq 0 num_resolutions)) (blocks, block_in_ch) ;;
  g <- Normalize block_in_ch ;;
  let blocks := blocks ++ [BNorm g] in
  let blocks := blocks ++ [BConv (Conv3d_new block_in_ch out_channels 3 1 1)] in
  Ok {| dec_n_channels := n_channels;
        dec_z_channels := z_channels;
        dec_out_channels := out_channels;
        dec_ch_mult := ch_mult;
        dec_num_resolutions := num_resolutions;
        dec_num_res_blocks := num_res_blocks;
        dec_resolution := resolution;
        dec_attn_resolutions := attn_resolutions;
        dec_blocks := blocks |}.

Definition Decoder_forward (d : Decoder) (x : tensor) : result tensor :=
  blocks_forward (dec_blocks d) x.

(** *** [AutoencoderKL] *)

Record AutoencoderKL : Type := {
  encoder : Encoder;
  decoder : Decoder;
  quant_conv_mu : Conv3d;
  quant_conv_log_sigma : Conv3d;
  post_quant_conv : Conv3d;
  embed_dim : nat
}.

Definition AutoencoderKL_init (embed_dim : nat) : result AutoencoderKL :=
  enc <- Encoder_init 1 64 3 [1; 2; 2; 2] 2 [256] [] ;;
  dec <- Decoder_init 64 3 1 [1; 2; 2; 2] 2 [256] [] ;;
  Ok {| encoder := enc;
        decoder := dec;
        quant_conv_mu := Conv3d_new 3 embed_dim 1 1 0;
        quant_conv_log_sigma := Conv3d_new 3 embed_dim 1 1 0;
        post_quant_conv := Conv3d_new embed_dim 3 1 1 0;
        embed_dim := embed_dim |}.

(** Calling an [nn.Conv3d] on a Python object: a tuple is not a tensor. *)
Definition Conv3d_call (c : Conv3d) (z : pyobj) : result tensor :=
  match z with
  | PyTensor t => Ok (Conv3d_forward c t)
  | PyTuple _ =>
      Raise (TypeError "conv3d() received an invalid combination of arguments")
  end.

Definition decode (m : AutoencoderKL) (z : pyobj) : result pyobj :=
  z <- Conv3d_call (post_quant_conv m) z ;;
  dec <- Decoder_forward (decoder m) z ;;
  Ok (PyTensor dec).

Definition encode (m : AutoencoderKL) (x : tensor) : result pyobj :=
  h <- Encoder_forward (encoder m) x ;;
  let z_mu := Conv3d_forward (quant_conv_mu m) h in
  Ok (PyTensor z_mu).

Definition sampling (g : generator) (z_mu z_sigma : tensor) : tensor * generator :=
  let '(eps, g) := randn_like g z_sigma in
  let z_vae := add z_mu (mul eps z_sigma) in
  (z_vae, g).

Definition reconstruct_ldm_outputs (m : AutoencoderKL) (z : pyobj) : result pyobj :=
  x_hat <- decode m z ;;
  Ok x_hat.

(** *** [nn.Module.state_dict]

    The parameters of a module under their dotted names, in registration
    order. *)

Definition Conv3d_state_dict (prefix : string) (c : Conv3d)
  : list (string * tensor) :=
  [ (String.append prefix "weight", conv_weight c);
    (String.append prefix "bias", conv_bias c) ].

Definition GroupNorm_state_dict (prefix : string) (g : GroupNorm)
  : list (string * tensor) :=
  [ (String.append prefix "weight", gn_weight g);
    (String.append prefix "bias", gn_bias g) ].

Definition ResBlock_state_dict (prefix : string) (rb : ResBlock)
  : list (string * tensor) :=
  GroupNorm_state_dict (String.append prefix "norm1.") (norm1 rb)
  ++ Conv3d_state_dict (String.append prefix "conv1.") (conv1 rb)
  ++ GroupNorm_state_dict (String.append prefix "norm2.") (norm2 rb)
  ++ Conv3d_state_dict (String.append prefix "conv2.") (conv2 rb)
  ++ match nin_shortcut rb with
     | Some c => Conv3d_state_dict (String.append prefix "nin_shortcut.") c
     | None => []
     end.

Definition Block_state_dict (prefix : string) (b : Block)
  : list (string * tensor) :=
  match b with
  | BConv c => Conv3d_state_dict prefix c
  | BRes rb => ResBlock_state_dict prefix rb
  | BDown d => Conv3d_state_dict (String.append prefix "conv.") (down_conv d)
  | BUp u => Conv3d_state_dict (String.append prefix "conv.") (up_conv u)
  | BNorm g => GroupNorm_state_dict prefix g
  end.

Definition str_of_nat (n : nat) : string :=
  NilEmpty.string_of_uint (Nat.to_uint n).

Fixpoint blocks_state_dict (prefix : string) (i : nat) (blocks : list Block)
  : list (string * tensor) :=
  match blocks with
  | [] => []
  | b :: rest =>
      Block_state_dict
        (String.append prefix (String.append (str_of_nat i) ".")) b
      ++ blocks_state_dict prefix (S i) rest
  end.

Definition state_dict (prefix : string) (m : AutoencoderKL)
  : list (string * tensor) :=
  blocks_state_dict (String.append prefix "encoder.blocks.") 0
    (enc_blocks (encoder m))
  ++ blocks_state_dict (String.append prefix "decoder.blocks.") 0
       (dec_blocks (decoder m))
  ++ Conv3d_state_dict (String.append prefix "quant_conv_mu.") (quant_conv_mu m)
  ++ Conv3d_state_dict (String.append prefix "quant_conv_log_sigma.")
       (quant_conv_log_sigma m)
  ++ Conv3d_state_dict (String.append prefix "post_quant_conv.")
       (post_quant_conv m).

End Model.

(** ** The shape interpretation of the tensor interface

    A tensor is read as its shape, [None] standing for a call the framework
    rejects with a [RuntimeError].  The rules are the framework's documented
    ones for the batched five-dimensional layout (batch, channel, depth,
    height, width) that the repository feeds its networks with. *)

Definition shape : Type := list nat.

(** Length of one spatial axis after a convolution with kernel [k], stride
    [s] and padding [p]:  floor((n + 2p - k) / s) + 1, refused when the
    padded input is shorter than the kernel. *)
Definition conv_out (n k s p : nat) : option nat :=
  if (n + 2 * p <? k) || (s =? 0) then None
  else Some ((n + 2 * p - k) / s + 1).

(** [conv3d] with one group: the weight has at least one output channel
    and as many input channels as the input, the bias one entry per output
    channel. *)
Definition shape_conv3d (x w b : option shape) (s p : nat) : option shape :=
  match x, w, b with
  | Some [n; c; d; h; wd], Some [o; ci; kd; kh; kw], Some [ob] =>
      if negb (o =? 0) && (c =? ci) && (o =? ob) then
        match conv_out d kd s p, conv_out h kh s p, conv_out wd kw s p with
        | Some d', Some h', Some w' => Some [n; o; d'; h'; w']
        | _, _, _ => None
        end
      else None
  | _, _, _ => None
  end.

(** The number of entries of an array with the given axes. *)
Definition numel (dims : list nat) : nat := fold_right Nat.mul 1 dims.

(** [F.group_norm]: the channels divide into the groups, and the input has
    more than one value per channel, that is, [n * c // g] times the
    number of entries along the other axes is not 1. *)
Definition shape_group_norm (x : option shape) (g : nat) (w b : option shape)
  : option shape :=
  match x, w, b with
  | Some (n :: c :: rest), Some [cw], Some [cb] =>
      if (c =? cw) && (c =? cb) && negb (g =? 0) && (c mod g =? 0)
         && negb ((n * c) / g * numel rest =? 1)
      then Some (n :: c :: rest) else None
  | _, _, _ => None
  end.

(** Broadcasting of two shapes, aligned on their trailing axes; both
    arguments are given last axis first. *)
Fixpoint broadcast_rev (a b : list nat) : option (list nat) :=
  match a, b with
  | [], l => Some l
  | l, [] => Some l
  | x :: a', y :: b' =>
      match broadcast_rev a' b' with
      | Some r =>
          if x =? y then Some (x :: r)
          else if x =? 1 then Some (y :: r)
          else if y =? 1 then Some (x :: r)
          else None
      | None => None
      end
  end.

Definition shape_broadcast (a b : option shape) : option shape :=
  match a, b with
  | Some a, Some b => option_map (@rev nat) (broadcast_rev (rev a) (rev b))
  | _, _ => None
  end.

(** [F.pad]: the pad list gives (left, right) amounts from the last axis
    backwards; the axes are given last first. *)
Fixpoint pad_rev (dims : list nat) (p : list nat) : option (list nat) :=
  match p with
  | [] => Some dims
  | [_] => None
  | l :: r :: p' =>
      match dims with
      | d :: ds => option_map (cons (l + d + r)) (pad_rev ds p')
      | [] => None
      end
  end.

Definition shape_pad (x : option shape) (p : list nat) : option shape :=
  match x with
  | Some dims => option_map (@rev nat) (pad_rev (rev dims) p)
  | None => None
  end.

(** Nearest-neighbour interpolation scales every spatial axis of an input
    with one, two or three of them. *)
Definition shape_interpolate (x : option shape) (s : nat) : option shape :=
  match x with
  | Some [n; c; w] => Some [n; c; w * s]
  | Some [n; c; h; w] => Some [n; c; h * s; w * s]
  | Some [n; c; d; h; w] => Some [n; c; d * s; h * s; w * s]
  | _ => None
  end.

Definition shape_mse_loss (a b : option shape) : option shape :=
  match shape_broadcast a b with
  | Some _ => Some []
  | None => None
  end.

#[export] Instance ShapeTorch : Torch := {|
  tensor := option shape;
  generator := unit;
  param_init := fun s => Some s;
  conv3d := shape_conv3d;
  group_norm := shape_group_norm;
  silu := fun x => x;
  sigmoid := fun x => x;
  add := shape_broadcast;
  mul := shape_broadcast;
  pad := shape_pad;
  interpolate := shape_interpolate;
  randn_like := fun g x => (x, g);
  mse_loss := shape_mse_loss;
  rejected := fun x => match x with Some _ => false | None => true end
|}.

(** ** [OnlyDecoder] and [OnlyEncoder] *)

Section Halves.
Context `{TT : Torch}.

Record OnlyDecoder : Type := {
  od_decoder : option Decoder;
  od_post_quant_conv : option Conv3d
}.

Definition OnlyDecoder_init : OnlyDecoder :=
  {| od_decoder := None; od_post_quant_conv := None |}.

Definition call_attr {M A : Type} (attr : option M) (f : M -> result A) : result A :=
  match attr with
  | Some m => f m
  | None => Raise (TypeError "'NoneType' object is not callable")
  end.

Definition OnlyDecoder_decode (m : OnlyDecoder) (z : pyobj) : result pyobj :=
  z <- call_attr (od_post_quant_conv m) (fun c => Conv3d_call c z) ;;
  z <- returned z ;;
  dec <- call_attr (od_decoder m) (fun d => Decoder_forward d z) ;;
  Ok (PyTensor dec).

(** A Python namespace: the names it binds, each with its value when that
    value is an integer ([None] for any other object). *)
Definition namespace : Type := list (string * option nat).

Fixpoint ns_lookup (ns : namespace) (name : string) : option (option nat) :=
  match ns with
  | [] => None
  | (k, v) :: rest => if String.eqb k name then Some v else ns_lookup rest name
  end.

(** The global names of [models/aekl_no_attention.py]: the module attributes
    the import system sets, then what the file's top-level statements bind,
    in source order. *)
Definition module_globals : namespace :=
  map (fun k => (k, None))
    [ "__name__"; "__doc__"; "__package__"; "__loader__"; "__spec__";
      "__file__"; "__cached__"; "__builtins__";
      "Tuple"; "torch"; "nn"; "F"; "DiagonalGaussianDistribution";
      "swish"; "Normalize"; "Upsample"; "Downsample"; "ResBlock";
      "Encoder"; "Decoder"; "AutoencoderKL"; "OnlyDecoder"; "OnlyEncoder" ].

(** Reading a name that the function body never assigns and no enclosing
    function binds: module globals first, then the builtins. *)
Definition load_global (globals builtins : namespace) (name : string)
  : result (option nat) :=
  match ns_lookup globals name with
  | Some v => Ok v
  | None =>
      match ns_lookup builtins name with
      | Some v => Ok v
      | None => Raise (NameError name)
      end
  end.

Record OnlyEncoder : Type := {
  oe_encoder : Encoder;
  oe_quant_conv_mu : Conv3d
}.

(** [OnlyEncoder.__init__]; its only local is [self]. *)
Definition OnlyEncoder_init (builtins : namespace) : result OnlyEncoder :=
  enc <- Encoder_init 1 64 3 [1; 2; 2; 2] 2 [256] [] ;;
  v <- load_global module_globals builtins "embed_dim" ;;
  oc <- int_arg v ;;
  Ok {| oe_encoder := enc; oe_quant_conv_mu := Conv3d_new 3 oc 1 1 0 |}.

Definition OnlyEncoder_encode (m : OnlyEncoder) (z : tensor) : result tensor :=
  h <- Encoder_forward (oe_encoder m) z ;;
  let z_mu := Conv3d_forward (oe_quant_conv_mu m) h in
  Ok z_mu.

End Halves.

(** ** The interface used by the training driver

    Each field stands for the framework call named in its comment.  The loss
    handed to [accelerator.backward] is a node of the autograd graph; it is
    given here as the function of the model that the graph records, next to
    the model it is evaluated at. *)

Class Trainer `{TT : Torch} : Type := {
  (** a Python float *)
  scalar : Type;
  (** an image summary *)
  picture : Type;
  (** the [.grad] fields of the model's parameters *)
  gradients : Type;
  (** the state of [torch.optim.AdamW]: step counts and moment estimates *)
  optimizer_state : Type;
  (** [torch.load('vae.pth')], the [vae.] prefixes stripped, then
      [vae.load_state_dict(new_state_dict, strict=True)] *)
  load_state_dict : AutoencoderKL -> result AutoencoderKL;
  (** [torch.optim.AdamW(vae.parameters(), lr=lr)] *)
  AdamW : AutoencoderKL -> scalar -> optimizer_state;
  (** [rearrange(x, "b h w z c -> b c h w z").contiguous().float().to(device)] *)
  rearrange : tensor -> tensor;
  (** [x[:, :, :, :, a:b]] *)
  crop_last : tensor -> Z -> Z -> tensor;
  (** [x[:n]] *)
  head_batch : tensor -> nat -> tensor;
  (** [loss.item()] *)
  item : tensor -> scalar;
  (** [accelerator.backward(loss)]: the gradient of the loss with respect to
      the parameters, accumulated into the gradients already there *)
  backward :
    (AutoencoderKL -> result tensor) -> AutoencoderKL -> option gradients
    -> gradients;
  (** [opt_vae.step()] *)
  adamw_step :
    optimizer_state -> option gradients -> AutoencoderKL
    -> AutoencoderKL * optimizer_state;
  (** [accelerator.gather(torch.tensor(l, device=device).unsqueeze(0)).mean().item()] *)
  gather_mean : list scalar -> scalar;
  (** [calculate_psnr_pt(a, b, crop_border=0).mean().item()] *)
  psnr_mean : tensor -> tensor -> scalar;
  (** [make_grid] of the middle slices along one axis of the first volume
      of each of the given batches *)
  slice_grid : nat -> list tensor -> picture
}.

(** [f"{n:07d}"] *)
Definition format_07d (n : Z) : string :=
  let digits := NilEmpty.string_of_uint (N.to_uint (Z.abs_N n)) in
  let sign := if (n <? 0)%Z then "-" else "" in
  let width := String.length sign + String.length digits in
  String.append sign
    (String.append (string_of_list_ascii (repeat "0"%char (7 - width))) digits).

(** [f"{ckpt_dir}/{global_step:07d}_gradvae.pt"] *)
Definition ckpt_path (dir : string) (g : Z) : string :=
  String.append dir (String.append "/" (String.append (format_07d g) "_gradvae.pt")).

Section Training.
Context `{TR : Trainer}.

(** [cfg.train] and the per-process facts the driver reads. *)
Record Config : Type := {
  learning_rate : scalar;
  train_steps : Z;
  log_every : Z;
  ckpt_every : Z;
  image_every : Z;
  val_every : Z;
  is_local_main_process : bool;
  (** whether the run has several processes, in which [accelerator.prepare]
      wraps the model in a [DistributedDataParallel] *)
  distributed : bool;
  ckpt_dir : string
}.

(** What the [SummaryWriter] received. *)
Inductive summary : Type :=
| add_scalar (tag : string) (value : scalar) (step : Z)
| add_image (tag : string) (img : picture) (step : Z).

(** The mutable state of a run: the model with its mode and gradients, the
    optimizer, the driver's counters and buffers, and what has been written
    to the summary writer and to disk, latest first.  [vae] is the model
    itself, in a distributed run the one inside the wrapper that
    [accelerator.prepare] returned. *)
Record TrainState : Type := {
  vae : AutoencoderKL;
  vae_training : bool;
  vae_grad : option gradients;
  opt_vae : optimizer_state;
  global_step : Z;
  step_loss : list scalar;
  epoch : Z;
  epoch_loss : list scalar;
  writer : list summary;
  saved : list (string * list (string * tensor))
}.

Definition set_vae (st : TrainState) (m : AutoencoderKL) (o : optimizer_state)
  : TrainState :=
  {| vae := m; vae_training := vae_training st; vae_grad := vae_grad st;
     opt_vae := o; global_step := global_step st; step_loss := step_loss st;
     epoch := epoch st; epoch_loss := epoch_loss st; writer := writer st;
     saved := saved st |}.

Definition set_training (st : TrainState) (b : bool) : TrainState :=
  {| vae := vae st; vae_training := b; vae_grad := vae_grad st;
     opt_vae := opt_vae st; global_step := global_step st;
     step_loss := step_loss st; epoch := epoch st;
     epoch_loss := epoch_loss st; writer := writer st; saved := saved st |}.

Definition set_grad (st : TrainState) (g : option gradients) : TrainState :=
  {| vae := vae st; vae_training := vae_training st; vae_grad := g;
     opt_vae := opt_vae st; global_step := global_step st;
     step_loss := step_loss st; epoch := epoch st;
     epoch_loss := epoch_loss st; writer := writer st; saved := saved st |}.

Definition set_counters (st : TrainState) (gs : Z) (sl : list scalar) (ep : Z)
  (el : list scalar) : TrainState :=
  {| vae := vae st; vae_training := vae_training st; vae_grad := vae_grad st;
     opt_vae := opt_vae st; global_step := gs; step_loss := sl; epoch := ep;
     epoch_loss := el; writer := writer st; saved := saved st |}.

Definition log (st : TrainState) (s : summary) : TrainState :=
  {| vae := vae st; vae_training := vae_training st; vae_grad := vae_grad st;
     opt_vae := opt_vae st; global_step := global_step st;
     step_loss := step_loss st; epoch := epoch st;
     epoch_loss := epoch_loss st; writer := s :: writer st;
     saved := saved st |}.

Definition torch_save (st : TrainState) (obj : list (string * tensor))
  (path : string) : TrainState :=
  {| vae := vae st; vae_training := vae_training st; vae_grad := vae_grad st;
     opt_vae := opt_vae st; global_step := global_step st;
     step_loss := step_loss st; epoch := epoch st;
     epoch_loss := epoch_loss st; writer := writer st;
     saved := (path, obj) :: saved st |}.

(** Python's [a % b] on integers. *)
Definition py_mod (a b : Z) : result Z :=
  if (b =? 0)%Z then Raise ZeroDivisionError else Ok (a mod b)%Z.

(** A tensor argument of a framework function. *)
Definition tensor_arg (v : pyobj) : result tensor :=
  match v with
  | PyTensor t => Ok t
  | PyTuple _ => Raise (TypeError "expected Tensor, got tuple")
  end.

(** Lines 278 to 285: the reconstruction and its loss, as recorded by the
    autograd graph for the batch [grad]. *)
Definition reconstruction (grad : tensor) (m : AutoencoderKL) : result tensor :=
  z_gt <- encode m grad ;;
  z_pred <- decode m z_gt ;;
  tensor_arg z_pred.

Definition loss_graph (grad : tensor) (m : AutoencoderKL) : result tensor :=
  z_pred <- reconstruction grad m ;;
  Ok (mse_loss grad z_pred).

(** Lines 273 to 277. *)
Definition crop_batch (batch : tensor) (random_start : Z) : tensor :=
  let grad := rearrange batch in
  let relative_end := (random_start + 128)%Z in
  crop_last grad random_start relative_end.

(** [vae.module]: the model inside the wrapper of a distributed run; in a
    run of one process [accelerator.prepare] returns the model itself,
    which has no such attribute. *)
Definition vae_module (cfg : Config) (st : TrainState) : result AutoencoderKL :=
  if distributed cfg then Ok (vae st)
  else Raise (AttributeError "module").

(** Lines 278 to 285, and 376 to 381 for a validation batch: the
    reconstruction and its loss as the statements compute them, each call
    raising what the framework raises when it rejects it. *)
Definition forward_loss (m : AutoencoderKL) (grad : tensor)
  : result (tensor * tensor) :=
  z_gt <- encode m grad ;;
  z_gt <- returned_obj z_gt ;;
  z_pred <- decode m z_gt ;;
  z_pred <- tensor_arg z_pred ;;
  z_pred <- returned z_pred ;;
  loss <- returned (mse_loss grad z_pred) ;;
  Ok (z_pred, loss).

(** Lines 273 to 285. *)
Definition train_forward (cfg : Config) (st : TrainState) (batch : tensor)
  (random_start : Z) : result (tensor * tensor * tensor) :=
  _ <- returned (rearrange batch) ;;
  grad <- returned (crop_batch batch random_start) ;;
  m <- vae_module cfg st ;;
  '(z_pred, loss) <- forward_loss m grad ;;
  Ok (grad, z_pred, loss).

(** Lines 369 to 381. *)
Definition val_forward (cfg : Config) (st : TrainState) (val_grad : tensor)
  : result (tensor * tensor * tensor) :=
  val_gt <- returned (rearrange val_grad) ;;
  val_gt <- returned (crop_last val_gt 16 144) ;;
  m <- vae_module cfg st ;;
  '(z_pred, loss) <- forward_loss m val_gt ;;
  Ok (val_gt, z_pred, loss).

(** Lines 287 to 291: [zero_grad], [backward], [step]. *)
Definition zero_grad (st : TrainState) : TrainState := set_grad st None.

Definition accelerator_backward (grad : tensor) (st : TrainState) : TrainState :=
  set_grad st (Some (backward (loss_graph grad) (vae st) (vae_grad st))).

Definition opt_step (st : TrainState) : TrainState :=
  let '(m, o) := adamw_step (opt_vae st) (vae_grad st) (vae st) in
  set_vae st m o.

(** Lines 295 to 297. *)
Definition count_step (loss : tensor) (st : TrainState) : TrainState :=
  set_counters st (global_step st + 1)%Z
    (step_loss st ++ [item loss]) (epoch st) (epoch_loss st ++ [item loss]).

(** Lines 302 to 307. *)
Definition log_loss (cfg : Config) (st : TrainState) : result TrainState :=
  r <- py_mod (global_step st) (log_every cfg) ;;
  if (r =? 0)%Z && (global_step st >? 0)%Z then
    let avg_loss := gather_mean (step_loss st) in
    let st := set_counters st (global_step st) [] (epoch st) (epoch_loss st) in
    Ok (if is_local_main_process cfg
        then log st (add_scalar "loss/loss_simple_step" avg_loss (global_step st))
        else st)
  else Ok st.

(** Lines 310 to 314.  A step that gets here has gone through line 278, so
    [vae] is the wrapper [accelerator.prepare] returned, the one whose
    [module] the forward passes go through; its state dict names every
    parameter of the model under [module.]. *)
Definition save_checkpoint (cfg : Config) (st : TrainState) : result TrainState :=
  r <- py_mod (global_step st) (ckpt_every cfg) ;;
  if (r =? 0)%Z && (global_step st >? 0)%Z then
    if is_local_main_process cfg then
      let checkpoint := state_dict "module." (vae st) in
      let path := ckpt_path (ckpt_dir cfg) (global_step st) in
      Ok (torch_save st checkpoint path)
    else Ok st
  else Ok st.

(** The three [add_image] calls that close both logging blocks. *)
Definition log_slices (prefix : string) (images : list tensor) (st : TrainState)
  : TrainState :=
  let st := log st (add_image (String.append prefix "/x") (slice_grid 0 images)
                      (global_step st)) in
  let st := log st (add_image (String.append prefix "/y") (slice_grid 1 images)
                      (global_step st)) in
  log st (add_image (String.append prefix "/z") (slice_grid 2 images)
            (global_step st)).

(** Lines 317 to 356. *)
Definition log_images (cfg : Config) (grad z_pred : tensor) (st : TrainState)
  : result TrainState :=
  r <- py_mod (global_step st) (image_every cfg) ;;
  if (r =? 0)%Z || (global_step st =? 1)%Z then
    let N := 1 in
    let log_pred := head_batch z_pred N in
    let log_gt := head_batch grad N in
    let st := set_training st false in
    let st := if is_local_main_process cfg
              then log_slices "slice" [log_pred; log_gt] st
              else st in
    Ok (set_training st true)
  else Ok st.

(** Lines 368 to 429: one pass of [for val_grad in val_loader], over the
    state and the two metric lists. *)
Definition validate_batch (cfg : Config)
  (acc : TrainState * list scalar * list scalar) (val_grad : tensor)
  : result (TrainState * list scalar * list scalar) :=
  let '(st, val_loss, val_psnr) := acc in
  '(val_gt, z_pred, loss) <- val_forward cfg st val_grad ;;
  let val_pred := z_pred in
  let val_loss := val_loss ++ [item loss] in
  let val_psnr := val_psnr ++ [psnr_mean val_pred val_gt] in
  let st := if is_local_main_process cfg
            then log_slices "val" [z_pred; val_gt] st
            else st in
  Ok (set_training st true, val_loss, val_psnr).

Fixpoint validate_batches (cfg : Config) (val_loader : list tensor)
  (acc : TrainState * list scalar * list scalar)
  : result (TrainState * list scalar * list scalar) :=
  match val_loader with
  | [] => Ok acc
  | val_grad :: rest =>
      acc <- validate_batch cfg acc val_grad ;;
      validate_batches cfg rest acc
  end.

(** Lines 359 to 442. *)
Definition validate (cfg : Config) (val_loader : list tensor) (st : TrainState)
  : result TrainState :=
  r <- py_mod (global_step st) (val_every cfg) ;;
  if (r =? 0)%Z && (global_step st >? 0)%Z then
    let st := set_training st false in
    '(st, val_loss, val_psnr) <- validate_batches cfg val_loader (st, [], []) ;;
    let avg_val_loss := gather_mean val_loss in
    let avg_val_psnr := gather_mean val_psnr in
    let st := if is_local_main_process cfg
              then log (log st (add_scalar "val/loss" avg_val_loss (global_step st)))
                     (add_scalar "val/psnr" avg_val_psnr (global_step st))
              else st in
    Ok (set_training st true)
  else Ok st.

(** Lines 273 to 444: the body of [for grad in loader], for one batch and
    the crop offset drawn for it. *)
Definition train_batch (cfg : Config) (val_loader : list tensor)
  (st : TrainState) (batch : tensor) (random_start : Z) : result TrainState :=
  '(grad, z_pred, loss) <- train_forward cfg st batch random_start ;;
  let st := zero_grad st in
  let st := accelerator_backward grad st in
  let st := opt_step st in
  let st := count_step loss st in
  st <- log_loss cfg st ;;
  st <- save_checkpoint cfg st ;;
  st <- log_images cfg grad z_pred st ;;
  validate cfg val_loader st.

(** [for grad in loader: ...; if global_step == max_steps: break] *)
Fixpoint train_epoch (cfg : Config) (val_loader : list tensor)
  (loader : list (tensor * Z)) (st : TrainState) : result TrainState :=
  match loader with
  | [] => Ok st
  | (batch, random_start) :: rest =>
      st <- train_batch cfg val_loader st batch random_start ;;
      if (global_step st =? train_steps cfg)%Z then Ok st
      else train_epoch cfg val_loader rest st
  end.

(** Lines 449 to 454. *)
Definition end_epoch (cfg : Config) (st : TrainState) : TrainState :=
  let st := set_counters st (global_step st) (step_loss st) (epoch st + 1)%Z
              (epoch_loss st) in
  let avg_epoch_loss := gather_mean (epoch_loss st) in
  let st := set_counters st (global_step st) (step_loss st) (epoch st) [] in
  if is_local_main_process cfg
  then log st (add_scalar "loss/loss_simple_epoch" avg_epoch_loss (global_step st))
  else st.

(** [while global_step < max_steps], run for at most [fuel] epochs; [None]
    when the fuel is used up before the loop ends.  [loader e] lists the
    batches the shuffled training loader yields in its pass number [e], each
    with the crop offset drawn for it. *)
Fixpoint train_loop (fuel : nat) (cfg : Config) (val_loader : list tensor)
  (loader : nat -> list (tensor * Z)) (pass : nat) (st : TrainState)
  : option (result TrainState) :=
  if (global_step st <? train_steps cfg)%Z then
    match fuel with
    | O => None
    | S fuel' =>
        match train_epoch cfg val_loader (loader pass) st with
        | Raise e => Some (Raise e)
        | Ok st =>
            train_loop fuel' cfg val_loader loader (S pass) (end_epoch cfg st)
        end
    end
  else Some (Ok st).

(** Lines 213 to 264: the state the loop starts from. *)
Definition initial_state (cfg : Config) : result TrainState :=
  m <- AutoencoderKL_init 3 ;;
  m <- load_state_dict m ;;
  let opt := AdamW m (learning_rate cfg) in
  Ok {| vae := m; vae_training := true; vae_grad := None; opt_vae := opt;
        global_step := 0%Z; step_loss := []; epoch := 0%Z; epoch_loss := [];
        writer := []; saved := [] |}.

Definition main (fuel : nat) (cfg : Config) (val_loader : list tensor)
  (loader : nat -> list (tensor * Z)) : option (result TrainState) :=
  match initial_state cfg with
  | Raise e => Some (Raise e)
  | Ok st => train_loop fuel cfg val_loader loader 0 st
  end.

End Training.

(** ** The shape interpretation of the driver's interface

    Floats, pictures and gradients carry no shape and are not tracked; the
    optimizer state is AdamW's step count; loading a state dict and an
    optimizer step leave every shape as it is. *)

(** Number of elements [a:b] selects on an axis of length [n]. *)
Definition slice_len (a b : Z) (n : nat) : nat :=
  let len := Z.of_nat n in
  let clip (i : Z) : Z :=
    (if i <? 0 then Z.max 0 (i + len) else Z.min i len)%Z in
  Z.to_nat (clip b - clip a)%Z.

Definition shape_rearrange (x : option shape) : option shape :=
  match x with
  | Some [b; h; w; z; c] => Some [b; c; h; w; z]
  | _ => None
  end.

Definition shape_crop_last (x : option shape) (a b : Z) : option shape :=
  match x with
  | Some [n; c; d; h; w] => Some [n; c; d; h; slice_len a b w]
  | _ => None
  end.

Definition shape_head_batch (x : option shape) (n : nat) : option shape :=
  match x with
  | Some (b :: rest) => Some (Nat.min b n :: rest)
  | _ => None
  end.

#[export] Instance ShapeTrainer : Trainer (TT := ShapeTorch) := {|
  scalar := unit;
  picture := unit;
  gradients := unit;
  optimizer_state := nat;
  load_state_dict := fun m => Ok m;
  AdamW := fun _ _ => 0;
  rearrange := shape_rearrange;
  crop_last := shape_crop_last;
  head_batch := shape_head_batch;
  item := fun _ => tt;
  backward := fun _ _ _ => tt;
  adamw_step := fun o _ m => (m, S o);
  gather_mean := fun _ => tt;
  psnr_mean := fun _ _ => tt;
  slice_grid := fun _ _ => tt
|}.

(** ** Well-formed modules

    A residual block whose channel counts differ holds its shortcut
    convolution; this is what its constructor establishes and what its
    forward pass relies on. *)

Section WellFormed.
Context `{TT : Torch}.

Definition ResBlock_wf (rb : ResBlock) : bool :=
  (rb_in_channels rb =? rb_out_channels rb)
  || match nin_shortcut rb with Some _ => true | None => false end.

Definition Block_wf (b : Block) : bool :=
  match b with
  | BRes rb => ResBlock_wf rb
  | _ => true
  end.

Definition AutoencoderKL_wf (m : AutoencoderKL) : bool :=
  forallb Block_wf (enc_blocks (encoder m))
  && forallb Block_wf (dec_blocks (decoder m)).

Definition is_down (b : Block) : bool :=
  match b with BDown _ => true | _ => false end.

Definition is_up (b : Block) : bool :=
  match b with BUp _ => true | _ => false end.

End WellFormed.

(** The steps [g] of [1 .. n] at which [g % every == 0], latest first. *)
Fixpoint due_steps (every : Z) (n : nat) : list Z :=
  match n with
  | O => []
  | S k =>
      let g := Z.of_nat (S k) in
      if (g mod every =? 0)%Z then g :: due_steps every k
      else due_steps every k
  end.

(** ** The modules the constructors build

    The records the constructors return when they succeed, written out, and
    the block lists of the encoder and decoder of [AutoencoderKL]. *)

Section Layout.
Context `{TT : Torch}.

Definition GroupNorm_make (num_groups num_channels : nat) : GroupNorm :=
  {| gn_num_groups := num_groups;
     gn_num_channels := num_channels;
     gn_weight := param_init [num_channels];
     gn_bias := param_init [num_channels] |}.

Definition ResBlock_make (in_channels out_channels : nat) : ResBlock :=
  {| rb_in_channels := in_channels;
     rb_out_channels := out_channels;
     norm1 := GroupNorm_make 32 in_channels;
     conv1 := Conv3d_new in_channels out_channels 3 1 1;
     norm2 := GroupNorm_make 32 out_channels;
     conv2 := Conv3d_new out_channels out_channels 3 1 1;
     nin_shortcut :=
       if negb (in_channels =? out_channels)
       then Some (Conv3d_new in_channels out_channels 1 1 0)
       else None |}.

Definition encoder_layout : list Block :=
  [ BConv (Conv3d_new 1 64 3 1 1);
    BRes (ResBlock_make 64 64); BRes (ResBlock_make 64 64);
    BDown (Downsample_init 64);
    BRes (ResBlock_make 64 128); BRes (ResBlock_make 128 128);
    BDown (Downsample_init 128);
    BRes (ResBlock_make 128 128); BRes (ResBlock_make 128 128);
    BDown (Downsample_init 128);
    BRes (ResBlock_make 128 128); BRes (ResBlock_make 128 128);
    BNorm (GroupNorm_make 32 128);
    BConv (Conv3d_new 128 3 3 1 1) ].

Definition decoder_layout : list Block :=
  [ BConv (Conv3d_new 3 128 3 1 1);
    BRes (ResBlock_make 128 128); BRes (ResBlock_make 128 128);
    BUp (Upsample_init 128);
    BRes (ResBlock_make 128 128); BRes (ResBlock_make 128 128);
    BUp (Upsample_init 128);
    BRes (ResBlock_make 128 128); BRes (ResBlock_make 128 128);
    BUp (Upsample_init 128);
    BRes (ResBlock_make 128 64); BRes (ResBlock_make 64 64);
    BNorm (GroupNorm_make 32 64);
    BConv (Conv3d_new 64 1 3 1 1) ].

End Layout.

(** ** Notions used to state the driver's properties *)

Section DriverNotions.
Context `{TR : Trainer}.

(** What the phases after the optimizer step leave as it is. *)
Definition frame (st st' : TrainState) : Prop :=
  vae st' = vae st /\ vae_grad st' = vae_grad st /\ opt_vae st' = opt_vae st
  /\ global_step st' = global_step st /\ epoch st' = epoch st
  /\ epoch_loss st' = epoch_loss st.

(** The checkpoint phase: when it is due, the local main process writes
    one file, the model's state dict, under the step's name. *)
Definition ckpt_due (cfg : Config) (st : TrainState) : bool :=
  (global_step st mod ckpt_every cfg =? 0)%Z && (global_step st >? 0)%Z
  && is_local_main_process cfg.

(** The state right after [opt_vae.step()] and the counter updates. *)
Definition stepped (st : TrainState) (grad : tensor) (loss : tensor) : TrainState :=
  count_step loss (opt_step (accelerator_backward grad (zero_grad st))).

(** The names of the checkpoint files a process has written by step [n]. *)
Definition expected_paths (cfg : Config) (n : nat) : list string :=
  if is_local_main_process cfg
  then map (ckpt_path (ckpt_dir cfg)) (due_steps (ckpt_every cfg) n)
  else [].

(** A run that no statement of the loop body ends: the intervals are not
    zero, every pass of the loader yields a batch, and there is a set
    [good] of models that holds the model the run starts from and every
    model the optimizer makes of one of its own, and with which lines 273
    to 285 go through for every training batch with the crop drawn for it,
    and lines 369 to 381 for every validation batch. *)
Definition regular_run_with (good : AutoencoderKL -> Prop) (cfg : Config)
  (val_loader : list tensor) (loader : nat -> list (tensor * Z)) : Prop :=
  log_every cfg <> 0%Z /\ ckpt_every cfg <> 0%Z
  /\ image_every cfg <> 0%Z /\ val_every cfg <> 0%Z
  /\ (forall pass, loader pass <> [])
  /\ (forall m0, AutoencoderKL_init 3 = Ok m0 ->
                 exists m, load_state_dict m0 = Ok m /\ good m)
  /\ (forall o g m, good m -> good (fst (adamw_step o g m)))
  /\ (forall st pass batch random_start,
         good (vae st) -> In (batch, random_start) (loader pass) ->
         exists x, train_forward cfg st batch random_start = Ok x)
  /\ (forall st val_grad,
         good (vae st) -> In val_grad val_loader ->
         exists x, val_forward cfg st val_grad = Ok x).

Definition regular_run (cfg : Config) (val_loader : list tensor)
  (loader : nat -> list (tensor * Z)) : Prop :=
  exists good, regular_run_with good cfg val_loader loader.

Definition run_invariant (good : AutoencoderKL -> Prop) (cfg : Config)
  (st : TrainState) : Prop :=
  (0 <= global_step st)%Z
  /\ good (vae st)
  /\ map fst (saved st) = expected_paths cfg (Z.to_nat (global_step st)).

End DriverNotions.

(** The built-in functions of Python 3, none of them an integer. *)
Definition python_builtin_functions : namespace :=
  map (fun k => (k, None))
    [ "abs"; "aiter"; "all"; "anext"; "any"; "ascii"; "bin"; "bool";
      "breakpoint"; "bytearray"; "bytes"; "callable"; "chr"; "classmethod";
      "compile"; "complex"; "delattr"; "dict"; "dir"; "divmod"; "enumerate";
      "eval"; "exec"; "filter"; "float"; "format"; "frozenset"; "getattr";
      "globals"; "hasattr"; "hash"; "help"; "hex"; "id"; "input"; "int";
      "isinstance"; "issubclass"; "iter"; "len"; "list"; "locals"; "map";
      "max"; "memoryview"; "min"; "next"; "object"; "oct"; "open"; "ord";
      "pow"; "print"; "property"; "range"; "repr"; "reversed"; "round";
      "set"; "setattr"; "slice"; "sorted"; "staticmethod"; "str"; "sum";
      "super"; "tuple"; "type"; "vars"; "zip"; "__import__" ].

(** A small run in the shape interpretation: four steps, a checkpoint
    every second one, on the local main process. *)
Definition demo_cfg : Config (TR := ShapeTrainer) :=
  {| learning_rate := tt; train_steps := 4; log_every := 1; ckpt_every := 2;
     image_every := 3; val_every := 2; is_local_main_process := true;
     distributed := true;
     ckpt_dir := "exp/checkpoints" |}.

Definition demo_batch : tensor (Torch := ShapeTorch) := Some [1; 8; 16; 160; 1].

Definition demo_loader (pass : nat) : list (tensor (Torch := ShapeTorch) * Z) :=
  [(demo_batch, 5%Z); (demo_batch, 31%Z); (demo_batch, 0%Z)].

Definition demo_state (m : AutoencoderKL (TT := ShapeTorch)) (opt : nat)
  (losses epoch_losses : list unit) : TrainState (TR := ShapeTrainer) :=
  {| vae := m; vae_training := true; vae_grad := Some tt; opt_vae := opt;
     global_step := 2; step_loss := losses; epoch := 0;
     epoch_loss := epoch_losses; writer := []; saved := [] |}.

(** ** Further notions: constructors in general, axis-wise shapes *)

Section GeneralLayout.
Context `{TT : Torch}.

(** The blocks [for _ in range(num_res_blocks)] appends. *)
Fixpoint res_blocks_make (n : nat) (block_in_ch block_out_ch : nat) : list Block :=
  match n with
  | O => []
  | S k =>
      BRes (ResBlock_make block_in_ch block_out_ch)
      :: res_blocks_make k block_out_ch block_out_ch
  end.

(** [block_in_ch] after that loop. *)
Definition level_out (n : nat) (block_in_ch block_out_ch : nat) : nat :=
  match n with O => block_in_ch | S _ => block_out_ch end.

(** The blocks the resolution loop of [Encoder.__init__] appends for the
    multipliers [mults], the previous multiplier being [prev]. *)
Fixpoint encoder_levels (n_channels num_res_blocks prev : nat) (mults : list nat)
  : list Block :=
  match mults with
  | [] => []
  | m :: rest =>
      res_blocks_make num_res_blocks (n_channels * prev) (n_channels * m)
      ++ match rest with
         | [] => []
         | _ :: _ =>
             [BDown (Downsample_init
                       (level_out num_res_blocks (n_channels * prev)
                          (n_channels * m)))]
         end
      ++ encoder_levels n_channels num_res_blocks m rest
  end.

(** The blocks the resolution loop of [Decoder.__init__] appends, for the
    multipliers in the order the loop visits them (last first). *)
Fixpoint decoder_levels (n_channels num_res_blocks block_in_ch : nat)
  (mults : list nat) : list Block :=
  match mults with
  | [] => []
  | m :: rest =>
      let c := level_out num_res_blocks block_in_ch (n_channels * m) in
      res_blocks_make num_res_blocks block_in_ch (n_channels * m)
      ++ match rest with
         | [] => []
         | _ :: _ => [BUp (Upsample_init c)]
         end
      ++ decoder_levels n_channels num_res_blocks c rest
  end.

End GeneralLayout.

(** One spatial axis through the blocks of the shape interpretation: the
    length a block gives an axis of length [d], [None] when it rejects it. *)
Definition axis_block (b : Block (TT := ShapeTorch)) (d : nat) : option nat :=
  match b with
  | BConv c =>
      conv_out d (conv_kernel_size c) (conv_stride c) (conv_padding c)
  | BRes _ => conv_out d 3 1 1
  | BDown _ => conv_out (0 + d + 1) 3 2 0
  | BUp _ => conv_out (d * 2) 3 1 1
  | BNorm _ => Some d
  end.

Fixpoint axis_blocks (blocks : list (Block (TT := ShapeTorch))) (d : nat)
  : option nat :=
  match blocks with
  | [] => Some d
  | b :: rest =>
      match axis_block b d with
      | Some d' => axis_blocks rest d'
      | None => None
      end
  end.

(** A batch of [n] arrays of [c] channels has more than one value per
    channel in each of the 32 groups of [Normalize], whatever its other
    axes. *)
Definition norm_fits (n c : nat) : Prop := (n * c) / 32 <> 1.

(** A channel count that [ResBlock] and [Normalize] take in batches of
    [n] arrays. *)
Definition channels_fit (n c : nat) : Prop :=
  c mod 32 = 0 /\ 0 < c /\ norm_fits n c.

(** Blocks as the constructors build them, with the channel counts they
    take and give, for batches of [n] arrays. *)
Inductive block_typed (n : nat) : Block (TT := ShapeTorch) -> nat -> nat -> Prop :=
| typed_conv (i o k s p : nat) :
    0 < o -> block_typed n (BConv (Conv3d_new i o k s p)) i o
| typed_res (i o : nat) :
    i mod 32 = 0 -> o mod 32 = 0 -> 0 < o -> norm_fits n i -> norm_fits n o ->
    block_typed n (BRes (ResBlock_make i o)) i o
| typed_down (c : nat) :
    0 < c -> block_typed n (BDown (Downsample_init c)) c c
| typed_up (c : nat) :
    0 < c -> block_typed n (BUp (Upsample_init c)) c c
| typed_norm (c : nat) :
    c mod 32 = 0 -> norm_fits n c ->
    block_typed n (BNorm (GroupNorm_make 32 c)) c c.

Inductive blocks_typed (n : nat)
  : list (Block (TT := ShapeTorch)) -> nat -> nat -> Prop :=
| typed_nil (c : nat) : blocks_typed n [] c c
| typed_cons (b : Block) (rest : list Block) (ci cm co : nat) :
    block_typed n b ci cm -> blocks_typed n rest cm co ->
    blocks_typed n (b :: rest) ci co.

(** A batched volume shape from the lengths of its three spatial axes, when
    no axis was rejected. *)
Definition volume_of (n c : nat) (d h w : option nat) : option shape :=
  match d, h, w with
  | Some d', Some h', Some w' => Some [n; c; d'; h'; w']
  | _, _, _ => None
  end.

(** Two axis lengths broadcast together when they are equal or one is 1. *)
Definition axes_agree (a b : nat) : bool :=
  (a =? b) || (a =? 1) || (b =? 1).

(** ** Lines 216 to 222 of the driver: renaming the keys of [vae.pth]

    A Python [dict] is an association list in insertion order without
    repeated keys; assigning to a key that is present replaces its value in
    place, assigning to a new key appends it. *)

Fixpoint dict_set {V : Type} (d : list (string * V)) (key : string) (value : V)
  : list (string * V) :=
  match d with
  | [] => [(key, value)]
  | (k, v) :: rest =>
      if String.eqb k key then (k, value) :: rest
      else (k, v) :: dict_set rest key value
  end.

(** [key[len('vae.'):]] when [key.startswith('vae.')], else [key]. *)
Definition new_key (key : string) : string :=
  if String.prefix "vae." key
  then String.substring (String.length "vae.")
         (String.length key - String.length "vae.") key
  else key.

(** [for key, value in vae_state_dict.items(): ...], from
    [new_state_dict = {}]. *)
Definition strip_vae_prefix {V : Type} (vae_state_dict : list (string * V))
  : list (string * V) :=
  fold_left
    (fun new_state_dict kv =>
       let '(key, value) := kv in
       if String.prefix "vae." key
       then
         let new_key :=
           String.substring (String.length "vae.")
             (String.length key - String.length "vae.") key in
         dict_set new_state_dict new_key value
       else dict_set new_state_dict key value)
    vae_state_dict [].

(** One pass of the loop body. *)
Definition rename_step {V : Type} (new_state_dict : list (string * V))
  (kv : string * V) : list (string * V) :=
  dict_set new_state_dict (new_key (fst kv)) (snd kv).

(** An entry with its key under a prefix. *)
Definition add_prefix {V : Type} (p : string) (kv : string * V) : string * V :=
  (String.append p (fst kv), snd kv).

(** The parameter names of [AutoencoderKL], in registration order. *)
Definition model_keys : list string :=
  match AutoencoderKL_init (TT := ShapeTorch) 3 with
  | Ok m => map fst (state_dict "" m)
  | Raise _ => []
  end.

(** The run [demo_cfg] as seen by a process that is not the local main
    process. *)
Definition demo_cfg_other : Config (TR := ShapeTrainer) :=
  {| learning_rate := tt; train_steps := 4; log_every := 3; ckpt_every := 2;
     image_every := 3; val_every := 2; is_local_main_process := false;
     distributed := true;
     ckpt_dir := "exp/checkpoints" |}.

(** The run [demo_cfg] with a checkpoint interval of zero. *)
Definition demo_cfg_zero : Config (TR := ShapeTrainer) :=
  {| learning_rate := tt; train_steps := 4; log_every := 1; ckpt_every := 0;
     image_every := 3; val_every := 2; is_local_main_process := true;
     distributed := true;
     ckpt_dir := "exp/checkpoints" |}.

(** A training loader over an empty dataset. *)
Definition empty_loader (pass : nat) : list (tensor (Torch := ShapeTorch) * Z) :=
  [].

(** ** [log_txt_as_img]: the lines of a caption *)

(** [range(0, stop, step)] for a step that is not negative: the multiples
    of [step] below [stop]. *)
Definition py_range_step (stop step : nat) : result (list nat) :=
  if step =? 0 then Raise (ValueError "range() arg 3 must not be zero")
  else Ok (map (fun i => i * step) (seq 0 ((stop + step - 1) / step))).

Definition newline : string := String "010"%char EmptyString.

(** Lines 71 and 72, for a caption [xc[bi]] and an image [wh[0]] pixels
    wide: [nc = int(40 * (wh[0] / 256))], then the caption's slices of [nc]
    characters joined by newlines.  The floating-point quotient and product
    are exact for every width below [2 ** 50], so that [nc] is the integer
    quotient of [40 * wh[0]] by 256.  A caption is the sequence of its
    characters. *)
Definition log_txt_as_img_lines (width : nat) (caption : string) : result string :=
  let nc := (40 * width) / 256 in
  starts <- py_range_step (String.length caption) nc ;;
  Ok (String.concat newline
        (map (fun start => String.substring start nc caption) starts)).

(** * Proofs *)

(** ** Checks on concrete inputs *)

Example format_07d_examples :
  format_07d 2 = "0000002" /\ format_07d 12345678 = "12345678"
  /\ format_07d (-5) = "-000005".
Proof. repeat split. Qed.

Example ckpt_path_example :
  ckpt_path "exp/checkpoints" 2000 = "exp/checkpoints/0002000_gradvae.pt".
Proof. reflexivity. Qed.

Example due_steps_example : due_steps 3 10 = [9; 6; 3]%Z.
Proof. reflexivity. Qed.

Example py_mod_examples :
  py_mod 7 0 = Raise ZeroDivisionError /\ py_mod 7 (-2) = Ok (-1)%Z
  /\ py_mod 6 3 = Ok 0%Z.
Proof. repeat split. Qed.

Example slice_len_examples :
  slice_len 5 133 160 = 128 /\ slice_len 16 144 100 = 84
  /\ slice_len (-3) 200 10 = 3.
Proof. repeat split. Qed.

Example Downsample_forward_example :
  Downsample_forward (TT := ShapeTorch) (Downsample_init 64)
    (Some [2; 64; 160; 224; 128])
  = Some [2; 64; 80; 112; 64].
Proof. reflexivity. Qed.

Example Downsample_forward_empty_axis :
  Downsample_forward (TT := ShapeTorch) (Downsample_init 64)
    (Some [2; 64; 0; 224; 128])
  = None.
Proof. reflexivity. Qed.

Example ResBlock_init_examples :
  (exists rb, ResBlock_init (TT := ShapeTorch) 64 (Some 128) = Ok rb
              /\ nin_shortcut rb = Some (Conv3d_new 64 128 1 1 0))
  /\ (exists msg, ResBlock_init (TT := ShapeTorch) 64 None = Raise (TypeError msg))
  /\ (exists msg, ResBlock_init (TT := ShapeTorch) 48 (Some 64)
                  = Raise (ValueError msg)).
Proof. repeat split; eexists; try split; reflexivity. Qed.

Example module_globals_examples :
  ns_lookup module_globals "Encoder" = Some None
  /\ ns_lookup module_globals "embed_dim" = None.
Proof. split; reflexivity. Qed.

(** ** Shape rules *)

Ltac div_lia := zify; Z.to_euclidean_division_equations; lia.

Lemma conv_out_same (n : nat) : 0 < n -> conv_out n 3 1 1 = Some n.
Proof.
  intros Hn. unfold conv_out.
  replace (n + 2 * 1 <? 3) with false by (symmetry; apply Nat.ltb_ge; lia).
  cbn [orb Nat.eqb]. f_equal. rewrite Nat.div_1_r. lia.
Qed.

Lemma conv_out_pointwise (n : nat) : 0 < n -> conv_out n 1 1 0 = Some n.
Proof.
  intros Hn. unfold conv_out.
  replace (n + 2 * 0 <? 1) with false by (symmetry; apply Nat.ltb_ge; lia).
  cbn [orb Nat.eqb]. f_equal. rewrite Nat.div_1_r. lia.
Qed.

Lemma conv_out_halve (m : nat) : 0 < m -> conv_out (0 + 2 * m + 1) 3 2 0 = Some m.
Proof.
  intros Hm. unfold conv_out.
  replace (0 + 2 * m + 1 + 2 * 0 <? 3) with false by (symmetry; apply Nat.ltb_ge; lia).
  cbn [orb Nat.eqb]. f_equal. div_lia.
Qed.

Lemma shape_conv3d_same (n c o d h w : nat) :
  0 < o -> 0 < d -> 0 < h -> 0 < w ->
  shape_conv3d (Some [n; c; d; h; w]) (Some [o; c; 3; 3; 3]) (Some [o]) 1 1
  = Some [n; o; d; h; w].
Proof.
  intros Ho Hd Hh Hw. unfold shape_conv3d.
  replace (o =? 0) with false by (symmetry; apply Nat.eqb_neq; lia).
  rewrite !Nat.eqb_refl, !conv_out_same by assumption. reflexivity.
Qed.

Lemma shape_conv3d_pointwise (n c o d h w : nat) :
  0 < o -> 0 < d -> 0 < h -> 0 < w ->
  shape_conv3d (Some [n; c; d; h; w]) (Some [o; c; 1; 1; 1]) (Some [o]) 1 0
  = Some [n; o; d; h; w].
Proof.
  intros Ho Hd Hh Hw. unfold shape_conv3d.
  replace (o =? 0) with false by (symmetry; apply Nat.eqb_neq; lia).
  rewrite !Nat.eqb_refl, !conv_out_pointwise by assumption. reflexivity.
Qed.

Lemma shape_downsample (n c d h w : nat) :
  0 < c -> 0 < d -> 0 < h -> 0 < w ->
  shape_conv3d (shape_pad (Some [n; c; 2 * d; 2 * h; 2 * w]) [0; 1; 0; 1; 0; 1])
    (Some [c; c; 3; 3; 3]) (Some [c]) 2 0
  = Some [n; c; d; h; w].
Proof.
  intros Hc Hd Hh Hw. unfold shape_pad. cbn [rev app pad_rev option_map].
  unfold shape_conv3d.
  replace (c =? 0) with false by (symmetry; apply Nat.eqb_neq; lia).
  rewrite !Nat.eqb_refl, !conv_out_halve by assumption. reflexivity.
Qed.

Lemma broadcast_rev_refl (l : list nat) : broadcast_rev l l = Some l.
Proof.
  induction l as [|a l IH]; [reflexivity|].
  cbn [broadcast_rev]. rewrite IH, Nat.eqb_refl. reflexivity.
Qed.

Lemma shape_broadcast_refl (s : shape) :
  shape_broadcast (Some s) (Some s) = Some s.
Proof.
  unfold shape_broadcast. rewrite broadcast_rev_refl. cbn [option_map].
  now rewrite rev_involutive.
Qed.

Lemma shape_group_norm_same (n c : nat) (rest : list nat) :
  c mod 32 = 0 -> (n * c) / 32 <> 1 ->
  shape_group_norm (Some (n :: c :: rest)) 32 (Some [c]) (Some [c])
  = Some (n :: c :: rest).
Proof.
  intros Hc Hn. unfold shape_group_norm. rewrite !Nat.eqb_refl, Hc.
  replace (n * c / 32 * numel rest =? 1) with false; [reflexivity|].
  symmetry. apply Nat.eqb_neq. intros H. apply Hn.
  now apply Nat.mul_eq_1 in H.
Qed.

Lemma shape_upsample (n c d h w : nat) :
  0 < c -> 0 < d -> 0 < h -> 0 < w ->
  shape_conv3d (shape_interpolate (Some [n; c; d; h; w]) 2)
    (Some [c; c; 3; 3; 3]) (Some [c]) 1 1
  = Some [n; c; d * 2; h * 2; w * 2].
Proof.
  intros Hc Hd Hh Hw. unfold shape_interpolate.
  apply shape_conv3d_same; lia.
Qed.


Section LayoutFacts.
Context `{TT : Torch}.

Lemma Encoder_init_layout :
  exists e, Encoder_init 1 64 3 [1; 2; 2; 2] 2 [256] [] = Ok e
            /\ enc_blocks e = encoder_layout.
Proof. eexists. split; reflexivity. Qed.

Lemma Decoder_init_layout :
  exists d, Decoder_init 64 3 1 [1; 2; 2; 2] 2 [256] [] = Ok d
            /\ dec_blocks d = decoder_layout.
Proof. eexists. split; reflexivity. Qed.

Lemma AutoencoderKL_init_layout (e : nat) (m : AutoencoderKL) :
  AutoencoderKL_init e = Ok m ->
  enc_blocks (encoder m) = encoder_layout
  /\ dec_blocks (decoder m) = decoder_layout
  /\ quant_conv_mu m = Conv3d_new 3 e 1 1 0
  /\ quant_conv_log_sigma m = Conv3d_new 3 e 1 1 0
  /\ post_quant_conv m = Conv3d_new e 3 1 1 0.
Proof.
  intros H. cbv in H. injection H as <-. repeat split.
Qed.

End LayoutFacts.

(** Shapes through the blocks *)

Lemma Conv3d_forward_same (n c o d h w : nat) :
  0 < o -> 0 < d -> 0 < h -> 0 < w ->
  Conv3d_forward (TT := ShapeTorch) (Conv3d_new c o 3 1 1) (Some [n; c; d; h; w])
  = Some [n; o; d; h; w].
Proof. intros. now apply shape_conv3d_same. Qed.

Lemma Conv3d_forward_pointwise (n c o d h w : nat) :
  0 < o -> 0 < d -> 0 < h -> 0 < w ->
  Conv3d_forward (TT := ShapeTorch) (Conv3d_new c o 1 1 0) (Some [n; c; d; h; w])
  = Some [n; o; d; h; w].
Proof. intros. now apply shape_conv3d_pointwise. Qed.

Lemma GroupNorm_forward_same (n c : nat) (rest : list nat) :
  c mod 32 = 0 -> (n * c) / 32 <> 1 ->
  GroupNorm_forward (TT := ShapeTorch) (GroupNorm_make 32 c) (Some (n :: c :: rest))
  = Some (n :: c :: rest).
Proof. intros. now apply shape_group_norm_same. Qed.

Lemma Downsample_forward_halves (n c d h w : nat) :
  0 < c -> 0 < d -> 0 < h -> 0 < w ->
  Downsample_forward (TT := ShapeTorch) (Downsample_init c)
    (Some [n; c; 2 * d; 2 * h; 2 * w])
  = Some [n; c; d; h; w].
Proof. intros. now apply shape_downsample. Qed.

Lemma Upsample_forward_doubles (n c d h w : nat) :
  0 < c -> 0 < d -> 0 < h -> 0 < w ->
  Upsample_forward (TT := ShapeTorch) (Upsample_init c) (Some [n; c; d; h; w])
  = Some [n; c; d * 2; h * 2; w * 2].
Proof. intros. now apply shape_upsample. Qed.

Lemma ResBlock_forward_shape (n i o d h w : nat) :
  i mod 32 = 0 -> o mod 32 = 0 -> 0 < o ->
  (n * i) / 32 <> 1 -> (n * o) / 32 <> 1 ->
  0 < d -> 0 < h -> 0 < w ->
  ResBlock_forward (TT := ShapeTorch) (ResBlock_make i o) (Some [n; i; d; h; w])
  = Ok (Some [n; o; d; h; w]).
Proof.
  intros Hi Ho Hpo Hni Hno Hd Hh Hw. unfold ResBlock_forward.
  cbn [norm1 norm2 conv1 conv2 rb_in_channels rb_out_channels ResBlock_make silu
       ShapeTorch].
  rewrite GroupNorm_forward_same, Conv3d_forward_same by assumption.
  rewrite GroupNorm_forward_same, Conv3d_forward_same by assumption.
  unfold getattr_nin_shortcut. cbn [nin_shortcut ResBlock_make].
  destruct (i =? o) eqn:E; cbn [negb bind].
  - apply Nat.eqb_eq in E. subst o. cbn [add]. now rewrite shape_broadcast_refl.
  - rewrite Conv3d_forward_pointwise by assumption. cbn [add].
    now rewrite shape_broadcast_refl.
Qed.

Ltac shape_side := first [reflexivity | assumption | lia | div_lia].

Ltac step_block :=
  cbn [blocks_forward Block_forward];
  first
    [ rewrite ResBlock_forward_shape by shape_side
    | rewrite Conv3d_forward_same by shape_side
    | rewrite Downsample_forward_halves by shape_side
    | rewrite Upsample_forward_doubles by shape_side
    | rewrite GroupNorm_forward_same by shape_side ];
  cbn [bind].

Lemma encoder_layout_shape (n d h w : nat) :
  0 < d -> 0 < h -> 0 < w ->
  blocks_forward (TT := ShapeTorch) encoder_layout
    (Some [n; 1; 2 * (2 * (2 * d)); 2 * (2 * (2 * h)); 2 * (2 * (2 * w))])
  = Ok (Some [n; 3; d; h; w]).
Proof.
  intros Hd Hh Hw. unfold encoder_layout.
  do 14 step_block. reflexivity.
Qed.

Lemma decoder_layout_shape (n d h w : nat) :
  0 < d -> 0 < h -> 0 < w ->
  blocks_forward (TT := ShapeTorch) decoder_layout (Some [n; 3; d; h; w])
  = Ok (Some [n; 1; d * 2 * 2 * 2; h * 2 * 2 * 2; w * 2 * 2 * 2]).
Proof.
  intros Hd Hh Hw. unfold decoder_layout.
  do 14 step_block. reflexivity.
Qed.

(** Forward passes of well-formed modules never raise *)

Section Totality.
Context `{TT : Torch}.

Lemma ResBlock_make_wf (i o : nat) : ResBlock_wf (ResBlock_make i o) = true.
Proof.
  unfold ResBlock_wf, ResBlock_make; cbn. destruct (i =? o); reflexivity.
Qed.

Lemma ResBlock_init_make (i : nat) (o : option nat) (rb : ResBlock) :
  ResBlock_init i o = Ok rb ->
  exists oc, o = Some oc /\ i mod 32 = 0 /\ oc mod 32 = 0 /\ rb = ResBlock_make i oc.
Proof.
  unfold ResBlock_init, Normalize, GroupNorm_new. intros H.
  destruct (i mod 32 =? 0) eqn:Ei; cbn [negb bind] in H; [|discriminate].
  destruct o as [oc|]; cbn [int_arg bind] in H; [|discriminate].
  destruct (oc mod 32 =? 0) eqn:Eo; cbn [negb bind] in H; [|discriminate].
  injection H as <-. exists oc.
  apply Nat.eqb_eq in Ei, Eo. repeat split; assumption.
Qed.

Lemma ResBlock_forward_total (rb : ResBlock) (x : tensor) :
  ResBlock_wf rb = true -> exists y, ResBlock_forward rb x = Ok y.
Proof.
  unfold ResBlock_wf, ResBlock_forward, getattr_nin_shortcut. intros H.
  destruct (rb_in_channels rb =? rb_out_channels rb); cbn [negb bind].
  - eexists; reflexivity.
  - cbn [orb] in H. destruct (nin_shortcut rb); [|discriminate].
    cbn [bind]. eexists; reflexivity.
Qed.

Lemma blocks_forward_total (blocks : list Block) (x : tensor) :
  forallb Block_wf blocks = true -> exists y, blocks_forward blocks x = Ok y.
Proof.
  revert x. induction blocks as [|b rest IH]; intros x H.
  - eexists; reflexivity.
  - cbn [forallb] in H. apply andb_true_iff in H as [Hb Hrest].
    cbn [blocks_forward].
    assert (exists y, Block_forward b x = Ok y) as [y ->].
    { destruct b; cbn [Block_forward]; try (eexists; reflexivity).
      now apply ResBlock_forward_total. }
    cbn [bind]. now apply IH.
Qed.

Lemma AutoencoderKL_init_wf (e : nat) (m : AutoencoderKL) :
  AutoencoderKL_init e = Ok m -> AutoencoderKL_wf m = true.
Proof.
  intros H. apply AutoencoderKL_init_layout in H as (He & Hd & _).
  unfold AutoencoderKL_wf. rewrite He, Hd. reflexivity.
Qed.

Lemma AutoencoderKL_init_ok (e : nat) : exists m, AutoencoderKL_init e = Ok m.
Proof. eexists. reflexivity. Qed.

Lemma encode_total (m : AutoencoderKL) (x : tensor) :
  AutoencoderKL_wf m = true ->
  exists h, Encoder_forward (encoder m) x = Ok h
            /\ encode m x = Ok (PyTensor (Conv3d_forward (quant_conv_mu m) h)).
Proof.
  intros H. apply andb_true_iff in H as [He _].
  destruct (blocks_forward_total _ x He) as [h Hh].
  exists h. unfold encode, Encoder_forward. rewrite Hh. split; reflexivity.
Qed.

Lemma decode_total (m : AutoencoderKL) (z : tensor) :
  AutoencoderKL_wf m = true ->
  exists y, Decoder_forward (decoder m) (Conv3d_forward (post_quant_conv m) z) = Ok y
            /\ decode m (PyTensor z) = Ok (PyTensor y).
Proof.
  intros H. apply andb_true_iff in H as [_ Hd].
  destruct (blocks_forward_total _ (Conv3d_forward (post_quant_conv m) z) Hd)
    as [y Hy].
  exists y. unfold decode, Decoder_forward. cbn [Conv3d_call bind].
  unfold Decoder_forward in Hy. rewrite Hy. split; reflexivity.
Qed.

End Totality.

(** ** The autoencoder *)

(** C1.  The docstring of [encode] promises the latent mean and sigma
    representations, and its annotation a pair of tensors.  On the
    one-voxel-per-latent volume of shape (1, 1, 8, 8, 8) the model built by
    [AutoencoderKL(embed_dim=3)] encodes to a single tensor of shape
    (1, 3, 1, 1, 1): what [encode] returns is not a pair of a mean and a
    sigma tensor. *)
Lemma encode_does_not_return_a_pair :
  exists m : AutoencoderKL (TT := ShapeTorch),
    AutoencoderKL_init 3 = Ok m
    /\ encode m (Some [1; 1; 8; 8; 8]) = Ok (PyTensor (Some [1; 3; 1; 1; 1]))
    /\ ~ (exists z_mu z_sigma,
            encode m (Some [1; 1; 8; 8; 8])
            = Ok (PyTuple [PyTensor z_mu; PyTensor z_sigma])).
Proof.
  eexists. split; [reflexivity|]. split; [reflexivity|].
  intros (z_mu & z_sigma & H). vm_compute in H. discriminate H.
Qed.

(** What [encode] does on every input: for every model the constructor
    builds and every input [x] it returns one tensor, the latent mean
    [quant_conv_mu(encoder(x))]; no sigma is returned with it, and the
    log-sigma head the constructor builds has no part in the result. *)
Lemma encode_returns_latent_mean `{TT : Torch} (e : nat) (m : AutoencoderKL)
  (x : tensor) :
  AutoencoderKL_init e = Ok m ->
  (exists h, Encoder_forward (encoder m) x = Ok h
             /\ encode m x = Ok (PyTensor (Conv3d_forward (quant_conv_mu m) h)))
  /\ (forall head : Conv3d,
        encode {| encoder := encoder m; decoder := decoder m;
                  quant_conv_mu := quant_conv_mu m;
                  quant_conv_log_sigma := head;
                  post_quant_conv := post_quant_conv m;
                  embed_dim := embed_dim m |} x
        = encode m x).
Proof.
  intros H. split; [|reflexivity].
  apply encode_total. now apply AutoencoderKL_init_wf with e.
Qed.

(** The hypothesis of [encode_returns_latent_mean] at the shape model and
    the volume of shape (1, 1, 8, 8, 8). *)
Lemma encode_returns_latent_mean_witness :
  exists m : AutoencoderKL (TT := ShapeTorch),
    AutoencoderKL_init 3 = Ok m
    /\ exists h, Encoder_forward (encoder m) (Some [1; 1; 8; 8; 8]) = Ok h
                 /\ encode m (Some [1; 1; 8; 8; 8])
                    = Ok (PyTensor (Conv3d_forward (quant_conv_mu m) h)).
Proof.
  destruct (AutoencoderKL_init 3) as [m|] eqn:E; [|discriminate E].
  exists m. split; [reflexivity|].
  apply (proj1 (encode_returns_latent_mean 3 m (Some [1; 1; 8; 8; 8]) E)).
Defined.

(** C4.  A residual block the constructor built computes
    [h = conv2(silu(norm2(conv1(silu(norm1(x))))))] and returns [x + h] when
    its channel counts agree, and [nin_shortcut(x) + h] with a 1x1x1
    convolution [nin_shortcut] when they differ. *)
Theorem ResBlock_forward_spec `{TT : Torch} (in_channels : nat)
  (out_channels : option nat) (rb : ResBlock) (x : tensor) :
  ResBlock_init in_channels out_channels = Ok rb ->
  let h :=
    Conv3d_forward (conv2 rb)
      (silu (GroupNorm_forward (norm2 rb)
         (Conv3d_forward (conv1 rb)
            (silu (GroupNorm_forward (norm1 rb) x))))) in
  (rb_in_channels rb = rb_out_channels rb ->
   ResBlock_forward rb x = Ok (add x h))
  /\ (rb_in_channels rb <> rb_out_channels rb ->
      exists shortcut,
        nin_shortcut rb = Some shortcut
        /\ conv_kernel_size shortcut = 1
        /\ conv_in_channels shortcut = rb_in_channels rb
        /\ conv_out_channels shortcut = rb_out_channels rb
        /\ ResBlock_forward rb x = Ok (add (Conv3d_forward shortcut x) h)).
Proof.
  intros H h.
  apply ResBlock_init_make in H as (oc & -> & _ & _ & ->).
  cbn [rb_in_channels rb_out_channels ResBlock_make]. split.
  - intros <-. unfold ResBlock_forward.
    cbn [rb_in_channels rb_out_channels ResBlock_make].
    rewrite Nat.eqb_refl. reflexivity.
  - intros Hne. apply Nat.eqb_neq in Hne.
    exists (Conv3d_new in_channels oc 1 1 0).
    unfold ResBlock_forward, getattr_nin_shortcut.
    cbn [rb_in_channels rb_out_channels nin_shortcut ResBlock_make].
    rewrite Hne. cbn [negb bind]. repeat split.
Qed.

(** [ResBlock_forward_spec] at [ResBlock(64, 128)] in the shape
    interpretation. *)
Lemma ResBlock_forward_spec_witness :
  exists rb : ResBlock (TT := ShapeTorch),
    ResBlock_init 64 (Some 128) = Ok rb
    /\ rb_in_channels rb <> rb_out_channels rb
    /\ ResBlock_forward rb (Some [1; 64; 4; 4; 4]) = Ok (Some [1; 128; 4; 4; 4]).
Proof.
  destruct (ResBlock_init (TT := ShapeTorch) 64 (Some 128)) as [rb|] eqn:E;
    [|discriminate E].
  exists rb.
  pose proof (ResBlock_forward_spec 64 (Some 128) rb (Some [1; 64; 4; 4; 4]) E)
    as [_ Hdiff].
  injection E as <-.
  split; [reflexivity|]. split; [cbn; lia|].
  destruct Hdiff as (sc & Hsc & _ & _ & _ & ->); [cbn; lia|].
  cbn in Hsc. injection Hsc as <-. reflexivity.
Defined.

Lemma eighth (d : nat) :
  0 < d -> Nat.divide 8 d ->
  0 < d / 8 /\ d = 2 * (2 * (2 * (d / 8))).
Proof.
  intros Hd [k ->]. rewrite Nat.div_mul by discriminate. lia.
Qed.

Lemma encoder_latent_shape_aux (m : AutoencoderKL (TT := ShapeTorch))
  (n d h w : nat) :
  AutoencoderKL_init 3 = Ok m ->
  0 < d -> 0 < h -> 0 < w ->
  Nat.divide 8 d -> Nat.divide 8 h -> Nat.divide 8 w ->
  Encoder_forward (encoder m) (Some [n; 1; d; h; w])
  = Ok (Some [n; 3; d / 8; h / 8; w / 8])
  /\ encode m (Some [n; 1; d; h; w])
     = Ok (PyTensor (Some [n; 3; d / 8; h / 8; w / 8])).
Proof.
  intros Hm Hd Hh Hw H8d H8h H8w.
  apply AutoencoderKL_init_layout in Hm as (He & _ & Hmu & _).
  destruct (eighth d Hd H8d) as [Hd' Ed].
  destruct (eighth h Hh H8h) as [Hh' Eh].
  destruct (eighth w Hw H8w) as [Hw' Ew].
  assert (Encoder_forward (encoder m) (Some [n; 1; d; h; w])
          = Ok (Some [n; 3; d / 8; h / 8; w / 8])) as Henc.
  { unfold Encoder_forward. rewrite He.
    rewrite Ed at 1. rewrite Eh at 1. rewrite Ew at 1.
    now apply encoder_layout_shape. }
  split; [exact Henc|].
  unfold encode. rewrite Henc, Hmu. cbn [bind].
  rewrite Conv3d_forward_pointwise by lia. reflexivity.
Qed.

(** C5.  A volume is a batch of single-channel arrays with at least one
    voxel along each axis.  For every volume whose depth, height and width
    are divisible by 8, the encoder of [AutoencoderKL(embed_dim=3)], and
    [encode] after it, return a latent of 3 channels whose spatial axes are
    one eighth of the input's.  The encoder holds exactly three
    [Downsample] blocks; each maps even axes 2d, 2h, 2w to d, h, w; every
    other block of the encoder keeps the spatial axes. *)
Theorem encoder_latent_shape (m : AutoencoderKL (TT := ShapeTorch))
  (n d h w : nat) :
  AutoencoderKL_init 3 = Ok m ->
  0 < d -> 0 < h -> 0 < w ->
  Nat.divide 8 d -> Nat.divide 8 h -> Nat.divide 8 w ->
  Encoder_forward (encoder m) (Some [n; 1; d; h; w])
  = Ok (Some [n; 3; d / 8; h / 8; w / 8])
  /\ encode m (Some [n; 1; d; h; w])
     = Ok (PyTensor (Some [n; 3; d / 8; h / 8; w / 8]))
  /\ length (filter is_down (enc_blocks (encoder m))) = 3
  /\ (forall b, In b (enc_blocks (encoder m)) -> is_down b = true ->
      exists c, forall n' d' h' w', 0 < d' -> 0 < h' -> 0 < w' ->
        Block_forward b (Some [n'; c; 2 * d'; 2 * h'; 2 * w'])
        = Ok (Some [n'; c; d'; h'; w']))
  /\ (forall b, In b (enc_blocks (encoder m)) -> is_down b = false ->
      exists c_in c_out, forall n' d' h' w', 0 < d' -> 0 < h' -> 0 < w' ->
        Block_forward b (Some [n'; c_in; d'; h'; w'])
        = Ok (Some [n'; c_out; d'; h'; w'])).
Proof.
  intros Hm Hd Hh Hw H8d H8h H8w.
  destruct (encoder_latent_shape_aux m n d h w Hm Hd Hh Hw H8d H8h H8w)
    as [Henc Hencode].
  apply AutoencoderKL_init_layout in Hm as (He & _).
  split; [exact Henc|]. split; [exact Hencode|].
  rewrite He. split; [reflexivity|]. split.
  - intros b Hin Hdown. unfold encoder_layout in Hin. cbn [In] in Hin.
    repeat (destruct Hin as [<-|Hin]; try discriminate Hdown);
      try contradiction;
      eexists; intros; cbn [Block_forward];
      rewrite Downsample_forward_halves by shape_side; reflexivity.
  - intros b Hin Hdown. unfold encoder_layout in Hin. cbn [In] in Hin.
    repeat (destruct Hin as [<-|Hin]; try discriminate Hdown);
      try contradiction;
      do 2 eexists; intros; cbn [Block_forward];
      first [ rewrite ResBlock_forward_shape by shape_side; reflexivity
            | rewrite Conv3d_forward_same by shape_side; reflexivity
            | rewrite GroupNorm_forward_same by shape_side; reflexivity ].
Qed.

(** [encoder_latent_shape] at a batch of two volumes of 160 x 224 x 128. *)
Lemma encoder_latent_shape_witness :
  exists m : AutoencoderKL (TT := ShapeTorch),
    AutoencoderKL_init 3 = Ok m
    /\ Encoder_forward (encoder m) (Some [2; 1; 160; 224; 128])
       = Ok (Some [2; 3; 20; 28; 16]).
Proof.
  destruct (AutoencoderKL_init (TT := ShapeTorch) 3) as [m|] eqn:E;
    [|discriminate E].
  exists m. split; [reflexivity|].
  refine (proj1 (encoder_latent_shape m 2 160 224 128 E _ _ _ _ _ _)).
  - lia.
  - lia.
  - lia.
  - exists 20; reflexivity.
  - exists 28; reflexivity.
  - exists 16; reflexivity.
Defined.

(** C6.  For every volume [x] whose depth, height and width are divisible
    by 8, [decode(encode(x))] has the shape of [x].  The decoder holds
    exactly three [Upsample] blocks, each doubling every spatial axis, and
    ends in a convolution to one output channel. *)
Theorem decode_encode_shape (m : AutoencoderKL (TT := ShapeTorch))
  (n d h w : nat) :
  AutoencoderKL_init 3 = Ok m ->
  0 < d -> 0 < h -> 0 < w ->
  Nat.divide 8 d -> Nat.divide 8 h -> Nat.divide 8 w ->
  (z <- encode m (Some [n; 1; d; h; w]) ;; decode m z)
  = Ok (PyTensor (Some [n; 1; d; h; w]))
  /\ length (filter is_up (dec_blocks (decoder m))) = 3
  /\ (forall b, In b (dec_blocks (decoder m)) -> is_up b = true ->
      exists c, forall n' d' h' w', 0 < d' -> 0 < h' -> 0 < w' ->
        Block_forward b (Some [n'; c; d'; h'; w'])
        = Ok (Some [n'; c; d' * 2; h' * 2; w' * 2]))
  /\ (exists front c, dec_blocks (decoder m) = front ++ [BConv c]
                      /\ conv_out_channels c = 1).
Proof.
  intros Hm Hd Hh Hw H8d H8h H8w.
  destruct (encoder_latent_shape_aux m n d h w Hm Hd Hh Hw H8d H8h H8w) as [_ Henc].
  apply AutoencoderKL_init_layout in Hm as (_ & Hdec & _ & _ & Hpost).
  destruct (eighth d Hd H8d) as [Hd' Ed].
  destruct (eighth h Hh H8h) as [Hh' Eh].
  destruct (eighth w Hw H8w) as [Hw' Ew].
  split.
  { rewrite Henc. cbn [bind]. unfold decode. cbn [Conv3d_call bind].
    rewrite Hpost, Conv3d_forward_pointwise by shape_side.
    unfold Decoder_forward. rewrite Hdec.
    rewrite decoder_layout_shape by assumption. cbn [bind].
    replace (d / 8 * 2 * 2 * 2) with d by lia.
    replace (h / 8 * 2 * 2 * 2) with h by lia.
    replace (w / 8 * 2 * 2 * 2) with w by lia.
    reflexivity. }
  rewrite Hdec. split; [reflexivity|]. split.
  - intros b Hin Hup. unfold decoder_layout in Hin. cbn [In] in Hin.
    repeat (destruct Hin as [<-|Hin]; try discriminate Hup);
      try contradiction;
      eexists; intros; cbn [Block_forward];
      rewrite Upsample_forward_doubles by shape_side; reflexivity.
  - exists (removelast decoder_layout), (Conv3d_new 64 1 3 1 1).
    split; reflexivity.
Qed.

(** [decode_encode_shape] at a batch of two volumes of 160 x 224 x 128. *)
Lemma decode_encode_shape_witness :
  exists m : AutoencoderKL (TT := ShapeTorch),
    AutoencoderKL_init 3 = Ok m
    /\ (z <- encode m (Some [2; 1; 160; 224; 128]) ;; decode m z)
       = Ok (PyTensor (Some [2; 1; 160; 224; 128])).
Proof.
  destruct (AutoencoderKL_init (TT := ShapeTorch) 3) as [m|] eqn:E;
    [|discriminate E].
  exists m. split; [reflexivity|].
  refine (proj1 (decode_encode_shape m 2 160 224 128 E _ _ _ _ _ _)).
  - lia.
  - lia.
  - lia.
  - exists 20; reflexivity.
  - exists 28; reflexivity.
  - exists 16; reflexivity.
Defined.

(** C10.  [embed_dim] is neither a local of [OnlyEncoder.__init__] nor a
    global of the module, so, the builtins not binding it either, the
    constructor raises [NameError] on every call, after its encoder has
    been built. *)
Theorem OnlyEncoder_init_raises `{TT : Torch} (builtins : namespace) :
  ns_lookup builtins "embed_dim" = None ->
  (exists enc, Encoder_init 1 64 3 [1; 2; 2; 2] 2 [256] [] = Ok enc)
  /\ ns_lookup module_globals "embed_dim" = None
  /\ OnlyEncoder_init builtins = Raise (NameError "embed_dim").
Proof.
  intros Hb. split; [eexists; reflexivity|]. split; [reflexivity|].
  unfold OnlyEncoder_init.
  destruct Encoder_init_layout as (enc & -> & _). cbn [bind].
  unfold load_global.
  replace (ns_lookup module_globals "embed_dim") with (@None (option nat))
    by reflexivity.
  rewrite Hb. reflexivity.
Qed.

(** [OnlyEncoder_init_raises] with Python's built-in functions as the
    builtins. *)
Lemma OnlyEncoder_init_raises_witness :
  ns_lookup python_builtin_functions "embed_dim" = None
  /\ OnlyEncoder_init (TT := ShapeTorch) python_builtin_functions
     = Raise (NameError "embed_dim").
Proof.
  split; [reflexivity|].
  apply (OnlyEncoder_init_raises (TT := ShapeTorch) python_builtin_functions).
  reflexivity.
Defined.

(** ** Constructors of the model file *)

(** X1.  [ResBlock(in_channels, out_channels)] is built exactly when
    [out_channels] is given and both channel counts are multiples of 32,
    the group count of [Normalize]; with the default [out_channels=None]
    the constructor always raises, a [ValueError] from [Normalize] when
    [in_channels] is no multiple of 32 and a [TypeError] from [nn.Conv3d]
    otherwise. *)
Theorem ResBlock_init_spec `{TT : Torch} (in_channels : nat)
  (out_channels : option nat) :
  (forall rb,
      ResBlock_init in_channels out_channels = Ok rb
      <-> exists oc, out_channels = Some oc
                     /\ in_channels mod 32 = 0 /\ oc mod 32 = 0
                     /\ rb = ResBlock_make in_channels oc)
  /\ (exists msg,
        ResBlock_init in_channels None
        = Raise (if in_channels mod 32 =? 0 then TypeError msg
                 else ValueError msg)).
Proof.
  split.
  - intros rb. split; [apply ResBlock_init_make|].
    intros (oc & -> & Hi & Ho & ->).
    unfold ResBlock_init, Normalize, GroupNorm_new.
    rewrite Hi. cbn [Nat.eqb negb bind int_arg]. rewrite Ho. reflexivity.
  - unfold ResBlock_init, Normalize, GroupNorm_new.
    destruct (in_channels mod 32 =? 0); cbn [negb bind int_arg];
      eexists; reflexivity.
Qed.

Section GeneralLayoutFacts.
Context `{TT : Torch}.

Lemma append_res_blocks_make (n cin cout : nat) (blocks : list Block) :
  cin mod 32 = 0 -> cout mod 32 = 0 ->
  append_res_blocks n cin cout blocks
  = Ok (blocks ++ res_blocks_make n cin cout, level_out n cin cout).
Proof.
  revert cin blocks. induction n as [|k IH]; intros cin blocks Hi Ho.
  - cbn [append_res_blocks res_blocks_make level_out]. now rewrite app_nil_r.
  - cbn [append_res_blocks res_blocks_make level_out].
    assert (ResBlock_init cin (Some cout) = Ok (ResBlock_make cin cout)) as ->.
    { unfold ResBlock_init, Normalize, GroupNorm_new. rewrite Hi.
      cbn [Nat.eqb negb bind int_arg]. rewrite Ho. reflexivity. }
    cbn [bind]. rewrite IH by assumption.
    rewrite <- app_assoc. cbn [app].
    destruct k; reflexivity.
Qed.

Lemma level_out_divisible (n cin cout : nat) :
  cin mod 32 = 0 -> cout mod 32 = 0 -> level_out n cin cout mod 32 = 0.
Proof. destruct n; intros; assumption. Qed.

Lemma last_cons_default {A : Type} (a : A) (l : list A) (d d' : A) :
  last (a :: l) d = last (a :: l) d'.
Proof.
  revert a. induction l as [|b l IH]; intros a; [reflexivity|].
  change (last (a :: b :: l) d) with (last (b :: l) d).
  change (last (a :: b :: l) d') with (last (b :: l) d'). apply IH.
Qed.

Lemma Encoder_levels_run (n_channels k : nat) (ch_mult : list nat) :
  forall (rest done : list nat) (prev : nat) (blocks : list Block)
         (bic : option nat),
    ch_mult = done ++ rest ->
    nth_error (1 :: ch_mult) (length done) = Some prev ->
    (n_channels * prev) mod 32 = 0 ->
    Forall (fun m => (n_channels * m) mod 32 = 0) rest ->
    for_each (Encoder_level n_channels ch_mult (1 :: ch_mult)
                (length ch_mult) (S k))
      (seq (length done) (length rest)) (blocks, bic)
    = Ok (blocks ++ encoder_levels n_channels (S k) prev rest,
          match rest with
          | [] => bic
          | _ :: _ => Some (n_channels * last rest prev)
          end).
Proof.
  induction rest as [|m rest IH]; intros done prev blocks bic Hsplit Hprev Hp Hall.
  - cbn [length seq for_each encoder_levels]. now rewrite app_nil_r.
  - inversion Hall as [|? ? Hm Hrest]; subst.
    cbn [length seq for_each].
    unfold Encoder_level at 1. cbn [fst].
    unfold getitem. rewrite Hprev. cbn [bind].
    rewrite nth_error_app2 by lia. rewrite Nat.sub_diag. cbn [nth_error bind].
    rewrite append_res_blocks_make by assumption.
    cbn [bind level_out].
    replace (S (length done)) with (length (done ++ [m]))
      by (rewrite length_app; cbn [length]; lia).
    rewrite (IH (done ++ [m]) m); try assumption.
    + cbn [encoder_levels level_out].
      replace (length (done ++ m :: rest) - 1) with (length done + length rest)
        by (rewrite length_app; cbn [length]; lia).
      destruct rest as [|m' rest'].
      * cbn [length]. rewrite Nat.add_0_r, Nat.eqb_refl.
        cbn [negb encoder_levels app last]. now rewrite !app_nil_r.
      * replace (length done =? length done + length (m' :: rest')) with false
          by (symmetry; apply Nat.eqb_neq; cbn [length]; lia).
        cbn [negb]. rewrite <- !app_assoc. cbn [app].
        change (last (m :: m' :: rest') prev) with (last (m' :: rest') prev).
        now rewrite (last_cons_default m' rest' m prev).
    + now rewrite <- app_assoc.
    + rewrite length_app. cbn [length]. rewrite Nat.add_1_r.
      cbn [nth_error]. rewrite nth_error_app2 by lia.
      now rewrite Nat.sub_diag.
Qed.

Lemma Forall_last_divisible (n_channels : nat) (l : list nat) (d : nat) :
  l <> [] -> Forall (fun m => (n_channels * m) mod 32 = 0) l ->
  (n_channels * last l d) mod 32 = 0.
Proof.
  intros Hne Hall. destruct l as [|a l]; [contradiction|].
  pose proof (proj1 (Forall_forall _ _) Hall) as H. apply H.
  clear. revert a. induction l as [|b l IH]; intros a; [now left|].
  right. apply IH.
Qed.

Lemma Encoder_init_general (in_channels n_channels z_channels k : nat)
  (ch_mult resolution attn_resolutions : list nat) :
  ch_mult <> [] -> n_channels mod 32 = 0 ->
  Forall (fun m => (n_channels * m) mod 32 = 0) ch_mult ->
  exists e,
    Encoder_init in_channels n_channels z_channels ch_mult (S k)
      resolution attn_resolutions = Ok e
    /\ enc_blocks e
       = BConv (Conv3d_new in_channels n_channels 3 1 1)
         :: encoder_levels n_channels (S k) 1 ch_mult
         ++ [ BNorm (GroupNorm_make 32 (n_channels * last ch_mult 1));
              BConv (Conv3d_new (n_channels * last ch_mult 1) z_channels 3 1 1) ].
Proof.
  intros Hne Hn Hall. unfold Encoder_init.
  rewrite (Encoder_levels_run n_channels k ch_mult ch_mult [] 1);
    [|reflexivity|reflexivity|now rewrite Nat.mul_1_r|assumption].
  cbn [bind].
  destruct ch_mult as [|m rest]; [contradiction|].
  cbn [read_local bind]. unfold Normalize, GroupNorm_new.
  rewrite (Forall_last_divisible n_channels (m :: rest) 1) by assumption.
  cbn [Nat.eqb negb bind]. eexists. split; [reflexivity|].
  cbn [enc_blocks app]. rewrite <- !app_assoc. reflexivity.
Qed.

Lemma Decoder_levels_run (n_channels k : nat) (ch_mult : list nat) :
  forall (rf back : list nat) (cin : nat) (blocks : list Block),
    ch_mult = rev rf ++ back ->
    cin mod 32 = 0 ->
    Forall (fun m => (n_channels * m) mod 32 = 0) rf ->
    for_each (Decoder_level n_channels ch_mult (S k))
      (rev (seq 0 (length rf))) (blocks, cin)
    = Ok (blocks ++ decoder_levels n_channels (S k) cin rf,
          match rf with
          | [] => cin
          | _ :: _ => n_channels * last rf 0
          end).
Proof.
  induction rf as [|m rf IH]; intros back cin blocks Hsplit Hc Hall.
  - cbn [length seq rev for_each decoder_levels]. now rewrite app_nil_r.
  - apply Forall_cons_iff in Hall as [Hm Hrest].
    assert (nth_error ch_mult (length rf) = Some m) as Hnth.
    { rewrite Hsplit. cbn [rev]. rewrite <- app_assoc. cbn [app].
      rewrite nth_error_app2 by (rewrite length_rev; lia).
      now rewrite length_rev, Nat.sub_diag. }
    cbn [length]. rewrite seq_S, rev_app_distr. cbn [rev app Nat.add for_each].
    unfold Decoder_level at 1. unfold getitem. rewrite Hnth. cbn [bind].
    rewrite append_res_blocks_make by assumption.
    cbn [bind level_out].
    rewrite (IH (m :: back) (n_channels * m)); try assumption.
    2:{ rewrite Hsplit. cbn [rev]. now rewrite <- app_assoc. }
    cbn [decoder_levels level_out].
    destruct rf as [|m' rf'].
    + cbn [length Nat.eqb negb decoder_levels app last].
      now rewrite !app_nil_r.
    + cbn [length Nat.eqb negb]. rewrite <- !app_assoc. cbn [app].
      change (last (m :: m' :: rf') 0) with (last (m' :: rf') 0). reflexivity.
Qed.

Lemma Decoder_init_general (n_channels z_channels out_channels k : nat)
  (ch_mult resolution attn_resolutions : list nat) :
  ch_mult <> [] ->
  Forall (fun m => (n_channels * m) mod 32 = 0) ch_mult ->
  exists d,
    Decoder_init n_channels z_channels out_channels ch_mult (S k)
      resolution attn_resolutions = Ok d
    /\ dec_blocks d
       = BConv (Conv3d_new z_channels (n_channels * last ch_mult 0) 3 1 1)
         :: decoder_levels n_channels (S k) (n_channels * last ch_mult 0)
              (rev ch_mult)
         ++ [ BNorm (GroupNorm_make 32 (n_channels * hd 0 ch_mult));
              BConv (Conv3d_new (n_channels * hd 0 ch_mult) out_channels 3 1 1) ].
Proof.
  intros Hne Hall. unfold Decoder_init, getitem_last.
  assert (exists a l, rev ch_mult = a :: l /\ a = last ch_mult 0) as (a & l & Hrev & Ha).
  { destruct (exists_last Hne) as (front & a & ->).
    rewrite rev_app_distr, last_last. cbn [rev app]. now exists a, (rev front). }
  rewrite Hrev. cbn [bind]. rewrite <- Ha.
  assert (length ch_mult = length (rev ch_mult)) as Hlen by now rewrite length_rev.
  rewrite Hlen.
  assert (Forall (fun m => (n_channels * m) mod 32 = 0) (rev ch_mult)) as Hall'.
  { now apply Forall_rev. }
  rewrite (Decoder_levels_run n_channels k ch_mult (rev ch_mult) []);
    [|now rewrite rev_involutive, app_nil_r| |assumption].
  2:{ rewrite Ha. now apply Forall_last_divisible. }
  cbn [bind].
  assert (last (a :: l) 0 = hd 0 ch_mult) as Hlast.
  { rewrite <- Hrev. destruct ch_mult as [|c rest]; [contradiction|].
    cbn [rev hd]. now rewrite last_last. }
  match goal with
  | |- context [Normalize ?c] =>
      assert (c = n_channels * hd 0 ch_mult) as ->
        by (rewrite Hrev, Hlast; reflexivity)
  end.
  unfold Normalize, GroupNorm_new.
  assert ((n_channels * hd 0 ch_mult) mod 32 = 0) as Hhd.
  { destruct ch_mult as [|c rest]; [contradiction|].
    now inversion Hall. }
  rewrite Hhd. cbn [Nat.eqb negb bind]. eexists. split; [reflexivity|].
  cbn [dec_blocks app]. rewrite <- !app_assoc, Hrev. reflexivity.
Qed.

End GeneralLayoutFacts.

(** ** Shapes, axis by axis *)

Lemma conv_out_same_spec (d : nat) :
  conv_out d 3 1 1 = if d =? 0 then None else Some d.
Proof.
  destruct d as [|d]; [reflexivity|]. now rewrite conv_out_same by lia.
Qed.

Lemma volume_of_none_r (n c : nat) (a b : option nat) :
  volume_of n c a b None = None.
Proof. destruct a, b; reflexivity. Qed.

Lemma volume_of_none_m (n c : nat) (a b : option nat) :
  volume_of n c a None b = None.
Proof. destruct a, b; reflexivity. Qed.

Lemma GroupNorm_forward_rejected (g : GroupNorm (TT := ShapeTorch)) :
  GroupNorm_forward g (@None shape) = @None shape.
Proof. reflexivity. Qed.

Lemma shape_conv3d_rejected (w b : option shape) (s p : nat) :
  shape_conv3d None w b s p = None.
Proof. reflexivity. Qed.

Lemma shape_broadcast_none_r (a : option shape) : shape_broadcast a None = None.
Proof. now destruct a. Qed.

Lemma shape_conv3d_axiswise (n c o k s p d h w : nat) :
  0 < o ->
  shape_conv3d (Some [n; c; d; h; w]) (Some [o; c; k; k; k]) (Some [o]) s p
  = volume_of n o (conv_out d k s p) (conv_out h k s p) (conv_out w k s p).
Proof.
  intros Ho. unfold shape_conv3d.
  replace (o =? 0) with false by (symmetry; apply Nat.eqb_neq; lia).
  now rewrite !Nat.eqb_refl.
Qed.

Lemma ResBlock_forward_rejected (i o : nat) :
  ResBlock_forward (TT := ShapeTorch) (ResBlock_make i o) None = Ok None.
Proof.
  unfold ResBlock_forward, getattr_nin_shortcut.
  cbn [rb_in_channels rb_out_channels nin_shortcut ResBlock_make].
  destruct (i =? o); reflexivity.
Qed.

Lemma ResBlock_forward_axiswise (n i o d h w : nat) :
  i mod 32 = 0 -> o mod 32 = 0 -> 0 < o ->
  (n * i) / 32 <> 1 -> (n * o) / 32 <> 1 ->
  ResBlock_forward (TT := ShapeTorch) (ResBlock_make i o) (Some [n; i; d; h; w])
  = Ok (volume_of n o (conv_out d 3 1 1) (conv_out h 3 1 1) (conv_out w 3 1 1)).
Proof.
  intros Hi Ho Hpo Hni Hno.
  destruct (Nat.eq_dec d 0) as [->|Hd];
    [|destruct (Nat.eq_dec h 0) as [->|Hh];
      [|destruct (Nat.eq_dec w 0) as [->|Hw]]].
  4:{ rewrite ResBlock_forward_shape by (assumption || lia).
      now rewrite !conv_out_same by lia. }
  all: unfold ResBlock_forward, getattr_nin_shortcut;
    cbn [norm1 norm2 conv1 conv2 rb_in_channels rb_out_channels nin_shortcut
         ResBlock_make silu ShapeTorch];
    rewrite GroupNorm_forward_same by assumption;
    unfold Conv3d_forward;
    cbn [Conv3d_new conv_weight conv_bias conv_stride conv_padding conv3d
         param_init ShapeTorch];
    rewrite (shape_conv3d_axiswise n i o 3 1 1) by assumption;
    change (conv_out 0 3 1 1) with (@None nat);
    rewrite ?volume_of_none_r, ?volume_of_none_m;
    cbn [volume_of];
    rewrite GroupNorm_forward_rejected, shape_conv3d_rejected;
    destruct (i =? o); cbn [negb bind add ShapeTorch];
    now rewrite shape_broadcast_none_r.
Qed.

Lemma Block_forward_rejected (n : nat) (b : Block) (ci co : nat) :
  block_typed n b ci co -> Block_forward b None = Ok None.
Proof.
  intros H. destruct H; cbn [Block_forward]; try reflexivity.
  apply ResBlock_forward_rejected.
Qed.

Lemma blocks_forward_rejected (n : nat) (blocks : list Block) (ci co : nat) :
  blocks_typed n blocks ci co -> blocks_forward blocks None = Ok None.
Proof.
  induction 1 as [c|b rest ci cm co Hb Hrest IH]; [reflexivity|].
  cbn [blocks_forward]. rewrite (Block_forward_rejected n b ci cm Hb).
  cbn [bind]. exact IH.
Qed.

Lemma Block_forward_axiswise (b : Block) (ci co n d h w : nat) :
  block_typed n b ci co ->
  Block_forward b (Some [n; ci; d; h; w])
  = Ok (volume_of n co (axis_block b d) (axis_block b h) (axis_block b w)).
Proof.
  intros H. destruct H; cbn [Block_forward axis_block].
  - unfold Conv3d_forward.
    cbn [Conv3d_new conv_weight conv_bias conv_stride conv_padding
         conv_kernel_size conv3d param_init ShapeTorch].
    now rewrite shape_conv3d_axiswise.
  - now apply ResBlock_forward_axiswise.
  - unfold Downsample_forward, Conv3d_forward.
    cbn [Downsample_init down_conv Conv3d_new conv_weight conv_bias conv_stride
         conv_padding conv3d pad param_init ShapeTorch].
    unfold shape_pad. cbn [rev app pad_rev option_map].
    now rewrite shape_conv3d_axiswise.
  - unfold Upsample_forward, Conv3d_forward.
    cbn [Upsample_init up_conv Conv3d_new conv_weight conv_bias conv_stride
         conv_padding conv3d interpolate param_init ShapeTorch].
    unfold shape_interpolate. now rewrite shape_conv3d_axiswise.
  - now rewrite GroupNorm_forward_same.
Qed.

Lemma blocks_forward_axiswise (n : nat) (blocks : list Block) (ci co : nat) :
  blocks_typed n blocks ci co ->
  forall d h w,
    blocks_forward blocks (Some [n; ci; d; h; w])
    = Ok (volume_of n co (axis_blocks blocks d) (axis_blocks blocks h)
            (axis_blocks blocks w)).
Proof.
  induction 1 as [c|b rest ci cm co Hb Hrest IH]; intros d h w;
    [reflexivity|].
  cbn [blocks_forward axis_blocks].
  rewrite (Block_forward_axiswise b ci cm n d h w Hb). cbn [bind].
  destruct (axis_block b d) as [d'|];
    [|cbn [volume_of]; now apply blocks_forward_rejected with n cm co].
  destruct (axis_block b h) as [h'|];
    [|cbn [volume_of]; rewrite volume_of_none_m;
      now apply blocks_forward_rejected with n cm co].
  destruct (axis_block b w) as [w'|];
    [|cbn [volume_of]; rewrite volume_of_none_r;
      now apply blocks_forward_rejected with n cm co].
  cbn [volume_of]. apply IH.
Qed.

Lemma blocks_forward_wrong_channels (c : Conv3d) (rest : list Block)
  (ci co n c' d h w : nat) :
  blocks_typed n (BConv c :: rest) ci co -> c' <> ci ->
  blocks_forward (BConv c :: rest) (Some [n; c'; d; h; w]) = Ok None.
Proof.
  intros H Hne. inversion H as [|b r ci' cm co' Hb Hrest]; subst.
  inversion Hb; subst. cbn [blocks_forward Block_forward].
  unfold Conv3d_forward.
  cbn [Conv3d_new conv_weight conv_bias conv_stride conv_padding conv3d
       param_init ShapeTorch].
  unfold shape_conv3d. apply Nat.eqb_neq in Hne. rewrite Hne, andb_false_r.
  cbn [andb bind]. now apply blocks_forward_rejected with n cm co.
Qed.

Ltac typed_side := first [reflexivity | lia | unfold norm_fits; div_lia].

Lemma encoder_layout_typed (n : nat) : blocks_typed n encoder_layout 1 3.
Proof.
  unfold encoder_layout.
  repeat (eapply typed_cons; [constructor; typed_side|]). constructor.
Qed.

Lemma decoder_layout_typed (n : nat) : blocks_typed n decoder_layout 3 1.
Proof.
  unfold decoder_layout.
  repeat (eapply typed_cons; [constructor; typed_side|]). constructor.
Qed.

Lemma conv_out_halve_floor (d : nat) :
  conv_out (0 + d + 1) 3 2 0 = if d <? 2 then None else Some (d / 2).
Proof.
  unfold conv_out. destruct (d <? 2) eqn:E.
  - apply Nat.ltb_lt in E.
    replace (0 + d + 1 + 2 * 0 <? 3) with true by (symmetry; apply Nat.ltb_lt; lia).
    reflexivity.
  - apply Nat.ltb_ge in E.
    replace (0 + d + 1 + 2 * 0 <? 3) with false by (symmetry; apply Nat.ltb_ge; lia).
    cbn [orb Nat.eqb]. f_equal. div_lia.
Qed.

Lemma axis_encoder_layout (d : nat) :
  axis_blocks encoder_layout d = if d <? 8 then None else Some (d / 8).
Proof.
  destruct (d <? 8) eqn:E.
  - apply Nat.ltb_lt in E.
    do 8 (destruct d as [|d]; [reflexivity|]). lia.
  - apply Nat.ltb_ge in E. unfold encoder_layout.
    cbn [axis_blocks axis_block Conv3d_new conv_kernel_size conv_stride
         conv_padding].
    rewrite !conv_out_same by lia. cbn iota.
    rewrite conv_out_halve_floor.
    replace (d <? 2) with false by (symmetry; apply Nat.ltb_ge; lia).
    assert (4 <= d / 2) by div_lia.
    rewrite !conv_out_same by lia. cbn iota.
    rewrite conv_out_halve_floor.
    replace (d / 2 <? 2) with false by (symmetry; apply Nat.ltb_ge; lia).
    assert (2 <= d / 2 / 2) by div_lia.
    rewrite !conv_out_same by lia. cbn iota.
    rewrite conv_out_halve_floor.
    replace (d / 2 / 2 <? 2) with false by (symmetry; apply Nat.ltb_ge; lia).
    assert (1 <= d / 2 / 2 / 2) by div_lia.
    rewrite !conv_out_same by lia. cbn iota.
    f_equal. div_lia.
Qed.

Lemma axis_decoder_layout (d : nat) :
  axis_blocks decoder_layout d = if d =? 0 then None else Some (8 * d).
Proof.
  destruct d as [|d]; [reflexivity|]. cbn [Nat.eqb].
  unfold decoder_layout.
  cbn [axis_blocks axis_block Conv3d_new conv_kernel_size conv_stride
       conv_padding].
  repeat (rewrite conv_out_same by lia; cbn iota).
  f_equal. lia.
Qed.

Lemma conv_out_pointwise_spec (d : nat) :
  conv_out d 1 1 0 = if d =? 0 then None else Some d.
Proof.
  destruct d as [|d]; [reflexivity|]. now rewrite conv_out_pointwise by lia.
Qed.

Lemma Encoder_forward_layout (n c d h w : nat) :
  blocks_forward (TT := ShapeTorch) encoder_layout (Some [n; c; d; h; w])
  = Ok (if (c =? 1) && (8 <=? d) && (8 <=? h) && (8 <=? w)
        then Some [n; 3; d / 8; h / 8; w / 8] else None).
Proof.
  destruct (c =? 1) eqn:Ec.
  - apply Nat.eqb_eq in Ec. subst c.
    rewrite (blocks_forward_axiswise n _ 1 3 (encoder_layout_typed n)).
    rewrite !axis_encoder_layout. cbn [andb].
    rewrite !Nat.leb_antisym.
    destruct (d <? 8), (h <? 8), (w <? 8); reflexivity.
  - apply Nat.eqb_neq in Ec. cbn [andb].
    now apply blocks_forward_wrong_channels with 1 3;
      [apply encoder_layout_typed|].
Qed.

Lemma Decoder_forward_layout (n c d h w : nat) :
  blocks_forward (TT := ShapeTorch) decoder_layout (Some [n; c; d; h; w])
  = Ok (if (c =? 3) && negb (d =? 0) && negb (h =? 0) && negb (w =? 0)
        then Some [n; 1; 8 * d; 8 * h; 8 * w] else None).
Proof.
  destruct (c =? 3) eqn:Ec.
  - apply Nat.eqb_eq in Ec. subst c.
    rewrite (blocks_forward_axiswise n _ 3 1 (decoder_layout_typed n)).
    rewrite !axis_decoder_layout. cbn [andb].
    destruct (d =? 0), (h =? 0), (w =? 0); reflexivity.
  - apply Nat.eqb_neq in Ec. cbn [andb].
    now apply blocks_forward_wrong_channels with 3 1;
      [apply decoder_layout_typed|].
Qed.

Lemma encode_shape (m : AutoencoderKL (TT := ShapeTorch)) (n c d h w : nat) :
  AutoencoderKL_init 3 = Ok m ->
  encode m (Some [n; c; d; h; w])
  = Ok (PyTensor
          (if (c =? 1) && (8 <=? d) && (8 <=? h) && (8 <=? w)
           then Some [n; 3; d / 8; h / 8; w / 8] else None)).
Proof.
  intros Hm. apply AutoencoderKL_init_layout in Hm as (He & _ & Hmu & _).
  unfold encode, Encoder_forward. rewrite He, Encoder_forward_layout, Hmu.
  cbn [bind]. do 2 f_equal.
  destruct ((c =? 1) && (8 <=? d) && (8 <=? h) && (8 <=? w)) eqn:E;
    [|reflexivity].
  apply andb_true_iff in E as [E Hw]. apply andb_true_iff in E as [E Hh].
  apply andb_true_iff in E as [_ Hd].
  apply Nat.leb_le in Hd, Hh, Hw.
  apply Conv3d_forward_pointwise; div_lia.
Qed.

Lemma decode_shape (m : AutoencoderKL (TT := ShapeTorch)) (n c d h w : nat) :
  AutoencoderKL_init 3 = Ok m ->
  decode m (PyTensor (Some [n; c; d; h; w]))
  = Ok (PyTensor
          (if (c =? 3) && negb (d =? 0) && negb (h =? 0) && negb (w =? 0)
           then Some [n; 1; 8 * d; 8 * h; 8 * w] else None)).
Proof.
  intros Hm. apply AutoencoderKL_init_layout in Hm as (_ & Hd & _ & _ & Hpost).
  unfold decode, Decoder_forward. cbn [Conv3d_call bind]. rewrite Hd, Hpost.
  unfold Conv3d_forward.
  cbn [Conv3d_new conv_weight conv_bias conv_stride conv_padding conv3d
       param_init ShapeTorch].
  destruct (c =? 3) eqn:Ec.
  - apply Nat.eqb_eq in Ec. subst c.
    rewrite shape_conv3d_axiswise, !conv_out_pointwise_spec by lia.
    cbn [andb].
    destruct (d =? 0) eqn:Ed;
      [cbn [volume_of negb andb];
       now rewrite (blocks_forward_rejected n _ 3 1 (decoder_layout_typed n))|].
    destruct (h =? 0) eqn:Eh;
      [cbn [volume_of negb andb];
       now rewrite (blocks_forward_rejected n _ 3 1 (decoder_layout_typed n))|].
    destruct (w =? 0) eqn:Ew;
      [cbn [volume_of negb andb];
       now rewrite (blocks_forward_rejected n _ 3 1 (decoder_layout_typed n))|].
    cbn [volume_of negb andb]. rewrite Decoder_forward_layout.
    rewrite Ed, Eh, Ew. reflexivity.
  - unfold shape_conv3d. rewrite Ec. cbn [andb negb Nat.eqb].
    now rewrite (blocks_forward_rejected n _ 3 1 (decoder_layout_typed n)).
Qed.

Lemma shape_mse_loss_volumes (n c d h w d' h' w' : nat) :
  shape_mse_loss (Some [n; c; d; h; w]) (Some [n; c; d'; h'; w'])
  = if axes_agree d d' && axes_agree h h' && axes_agree w w'
    then Some [] else None.
Proof.
  unfold shape_mse_loss, shape_broadcast, axes_agree.
  cbn [rev app broadcast_rev]. rewrite !Nat.eqb_refl.
  destruct (d =? d'), (d =? 1), (d' =? 1), (h =? h'), (h =? 1), (h' =? 1),
    (w =? w'), (w =? 1), (w' =? 1); reflexivity.
Qed.

Lemma shape_mse_loss_rejected (x : option shape) : shape_mse_loss x None = None.
Proof. unfold shape_mse_loss. now rewrite shape_broadcast_none_r. Qed.

Lemma axes_agree_floor (d : nat) :
  8 <= d -> axes_agree d (8 * (d / 8)) = (d mod 8 =? 0).
Proof.
  intros Hd. unfold axes_agree.
  replace (d =? 1) with false by (symmetry; apply Nat.eqb_neq; lia).
  replace (8 * (d / 8) =? 1) with false by (symmetry; apply Nat.eqb_neq; lia).
  rewrite !orb_false_r.
  destruct (d mod 8 =? 0) eqn:E.
  - apply Nat.eqb_eq in E. apply Nat.eqb_eq. div_lia.
  - apply Nat.eqb_neq in E. apply Nat.eqb_neq. div_lia.
Qed.

(** ** The autoencoder on every input shape *)

(** X2.  [AutoencoderKL(embed_dim=3).encode] accepts a five-dimensional
    input exactly when it has one channel and every spatial axis is at
    least 8 long, and then returns a latent of three channels whose axes
    are the floor of an eighth of the input's; every other input is
    rejected by a convolution. *)
Theorem encode_shape_complete (m : AutoencoderKL (TT := ShapeTorch))
  (n c d h w : nat) :
  AutoencoderKL_init 3 = Ok m ->
  encode m (Some [n; c; d; h; w])
  = Ok (PyTensor
          (if (c =? 1) && (8 <=? d) && (8 <=? h) && (8 <=? w)
           then Some [n; 3; d / 8; h / 8; w / 8] else None)).
Proof. apply encode_shape. Qed.

Lemma encode_shape_complete_witness :
  exists m : AutoencoderKL (TT := ShapeTorch),
    AutoencoderKL_init 3 = Ok m
    /\ encode m (Some [1; 1; 20; 29; 7]) = Ok (PyTensor None)
    /\ encode m (Some [1; 1; 20; 29; 9]) = Ok (PyTensor (Some [1; 3; 2; 3; 1])).
Proof.
  destruct (AutoencoderKL_init (TT := ShapeTorch) 3) as [m|] eqn:E;
    [|discriminate E].
  exists m. split; [reflexivity|]. split.
  - exact (encode_shape_complete m 1 1 20 29 7 E).
  - exact (encode_shape_complete m 1 1 20 29 9 E).
Defined.

(** X3.  [AutoencoderKL(embed_dim=3).decode] accepts a five-dimensional
    latent exactly when it has three channels and no empty spatial axis,
    and then returns one channel with every axis eight times as long; a
    tuple in place of the latent is a [TypeError]. *)
Theorem decode_shape_complete (m : AutoencoderKL (TT := ShapeTorch))
  (n c d h w : nat) :
  AutoencoderKL_init 3 = Ok m ->
  decode m (PyTensor (Some [n; c; d; h; w]))
  = Ok (PyTensor
          (if (c =? 3) && negb (d =? 0) && negb (h =? 0) && negb (w =? 0)
           then Some [n; 1; 8 * d; 8 * h; 8 * w] else None))
  /\ (forall items, exists msg, decode m (PyTuple items) = Raise (TypeError msg)).
Proof.
  intros Hm. split; [now apply decode_shape|].
  intros items. eexists. reflexivity.
Qed.

Lemma decode_shape_complete_witness :
  exists m : AutoencoderKL (TT := ShapeTorch),
    AutoencoderKL_init 3 = Ok m
    /\ decode m (PyTensor (Some [2; 3; 20; 28; 20]))
       = Ok (PyTensor (Some [2; 1; 160; 224; 160])).
Proof.
  destruct (AutoencoderKL_init (TT := ShapeTorch) 3) as [m|] eqn:E;
    [|discriminate E].
  exists m. split; [reflexivity|].
  exact (proj1 (decode_shape_complete m 2 3 20 28 20 E)).
Defined.

(** X4.  Decoding a latent and encoding the result gives back the latent's
    shape, for every three-channel latent without an empty axis. *)
Theorem encode_decode_latent_shape (m : AutoencoderKL (TT := ShapeTorch))
  (n d h w : nat) :
  AutoencoderKL_init 3 = Ok m ->
  0 < d -> 0 < h -> 0 < w ->
  (x <- decode m (PyTensor (Some [n; 3; d; h; w])) ;;
   x <- tensor_arg x ;;
   encode m x)
  = Ok (PyTensor (Some [n; 3; d; h; w])).
Proof.
  intros Hm Hd Hh Hw. rewrite (decode_shape m n 3 d h w Hm).
  replace (d =? 0) with false by (symmetry; apply Nat.eqb_neq; lia).
  replace (h =? 0) with false by (symmetry; apply Nat.eqb_neq; lia).
  replace (w =? 0) with false by (symmetry; apply Nat.eqb_neq; lia).
  cbn [Nat.eqb andb negb bind tensor_arg].
  rewrite (encode_shape m n 1 (8 * d) (8 * h) (8 * w) Hm).
  replace (8 <=? 8 * d) with true by (symmetry; apply Nat.leb_le; lia).
  replace (8 <=? 8 * h) with true by (symmetry; apply Nat.leb_le; lia).
  replace (8 <=? 8 * w) with true by (symmetry; apply Nat.leb_le; lia).
  cbn [Nat.eqb andb].
  rewrite !(Nat.mul_comm 8), !Nat.div_mul by discriminate. reflexivity.
Qed.

Lemma encode_decode_latent_shape_witness :
  exists m : AutoencoderKL (TT := ShapeTorch),
    AutoencoderKL_init 3 = Ok m
    /\ (x <- decode m (PyTensor (Some [2; 3; 1; 5; 3])) ;;
        x <- tensor_arg x ;;
        encode m x)
       = Ok (PyTensor (Some [2; 3; 1; 5; 3])).
Proof.
  destruct (AutoencoderKL_init (TT := ShapeTorch) 3) as [m|] eqn:E;
    [|discriminate E].
  exists m. split; [reflexivity|].
  apply (encode_decode_latent_shape m 2 1 5 3 E); lia.
Defined.

Lemma loss_graph_shape (m : AutoencoderKL (TT := ShapeTorch))
  (n d h w : nat) :
  AutoencoderKL_init 3 = Ok m ->
  reconstruction (TT := ShapeTorch) (Some [n; 1; d; h; w]) m
  = Ok (if (8 <=? d) && (8 <=? h) && (8 <=? w)
        then Some [n; 1; 8 * (d / 8); 8 * (h / 8); 8 * (w / 8)] else None)
  /\ loss_graph (TT := ShapeTorch) (Some [n; 1; d; h; w]) m
     = Ok (if (8 <=? d) && (d mod 8 =? 0) && (8 <=? h) && (h mod 8 =? 0)
              && (8 <=? w) && (w mod 8 =? 0)
           then Some [] else None).
Proof.
  intros Hm.
  assert (reconstruction (TT := ShapeTorch) (Some [n; 1; d; h; w]) m
          = Ok (if (8 <=? d) && (8 <=? h) && (8 <=? w)
                then Some [n; 1; 8 * (d / 8); 8 * (h / 8); 8 * (w / 8)]
                else None)) as Hrec.
  { unfold reconstruction. rewrite (encode_shape m n 1 d h w Hm).
    cbn [Nat.eqb andb bind].
    destruct ((8 <=? d) && (8 <=? h) && (8 <=? w)) eqn:E.
    - apply andb_true_iff in E as [E Hw]. apply andb_true_iff in E as [Hd Hh].
      apply Nat.leb_le in Hd, Hh, Hw.
      rewrite (decode_shape m n 3 (d / 8) (h / 8) (w / 8) Hm).
      replace (d / 8 =? 0) with false by (symmetry; apply Nat.eqb_neq; div_lia).
      replace (h / 8 =? 0) with false by (symmetry; apply Nat.eqb_neq; div_lia).
      replace (w / 8 =? 0) with false by (symmetry; apply Nat.eqb_neq; div_lia).
      reflexivity.
    - unfold decode. cbn [Conv3d_call bind].
      apply AutoencoderKL_init_layout in Hm as (_ & Hdec & _).
      unfold Decoder_forward. rewrite Hdec.
      change (Conv3d_forward (post_quant_conv m) None) with (@None shape).
      now rewrite (blocks_forward_rejected n _ 3 1 (decoder_layout_typed n)). }
  split; [exact Hrec|].
  unfold loss_graph. rewrite Hrec. cbn [bind mse_loss ShapeTorch].
  destruct (8 <=? d) eqn:Hd; cbn [andb];
    [|now rewrite shape_mse_loss_rejected].
  destruct (8 <=? h) eqn:Hh; cbn [andb];
    [|rewrite shape_mse_loss_rejected; now destruct (d mod 8 =? 0)].
  destruct (8 <=? w) eqn:Hw; cbn [andb];
    [|rewrite shape_mse_loss_rejected;
      now destruct (d mod 8 =? 0), (h mod 8 =? 0)].
  apply Nat.leb_le in Hd, Hh, Hw.
  rewrite shape_mse_loss_volumes, !axes_agree_floor by assumption.
  rewrite !andb_true_r. reflexivity.
Qed.


(** X5.  The reconstruction loss of lines 278 to 285 is defined (a scalar)
    exactly for single-channel volumes whose three spatial axes are
    positive multiples of 8: on an axis of 8 or more that is no multiple of
    8 the reconstruction is shorter than the input and [mse_loss] rejects
    the pair, and an axis shorter than 8 is rejected by the encoder. *)
Theorem loss_defined_iff_multiples_of_8 (m : AutoencoderKL (TT := ShapeTorch))
  (n d h w : nat) :
  AutoencoderKL_init 3 = Ok m ->
  reconstruction (TT := ShapeTorch) (Some [n; 1; d; h; w]) m
  = Ok (if (8 <=? d) && (8 <=? h) && (8 <=? w)
        then Some [n; 1; 8 * (d / 8); 8 * (h / 8); 8 * (w / 8)] else None)
  /\ loss_graph (TT := ShapeTorch) (Some [n; 1; d; h; w]) m
     = Ok (if (8 <=? d) && (d mod 8 =? 0) && (8 <=? h) && (h mod 8 =? 0)
              && (8 <=? w) && (w mod 8 =? 0)
           then Some [] else None).
Proof. apply loss_graph_shape. Qed.

Lemma loss_defined_iff_multiples_of_8_witness :
  exists m : AutoencoderKL (TT := ShapeTorch),
    AutoencoderKL_init 3 = Ok m
    /\ loss_graph (TT := ShapeTorch) (Some [1; 1; 160; 224; 128]) m
       = Ok (Some [])
    /\ loss_graph (TT := ShapeTorch) (Some [1; 1; 160; 224; 130]) m
       = Ok None.
Proof.
  destruct (AutoencoderKL_init (TT := ShapeTorch) 3) as [m|] eqn:E;
    [|discriminate E].
  exists m. split; [reflexivity|]. split.
  - exact (proj2 (loss_defined_iff_multiples_of_8 m 1 160 224 128 E)).
  - exact (proj2 (loss_defined_iff_multiples_of_8 m 1 160 224 130 E)).
Defined.

(** ** Encoders and decoders of any configuration *)

Lemma blocks_typed_app (n : nat) (a b : list Block) (ci cm co : nat) :
  blocks_typed n a ci cm -> blocks_typed n b cm co ->
  blocks_typed n (a ++ b) ci co.
Proof.
  induction 1 as [c|x rest ci c1 cm Hx Hrest IH]; intros Hb; [exact Hb|].
  cbn [app]. eapply typed_cons; [exact Hx|]. now apply IH.
Qed.

Lemma channels_fit_level (n n_channels m : nat) :
  n <> 1 \/ 32 < n_channels ->
  0 < n_channels -> 0 < m -> (n_channels * m) mod 32 = 0 ->
  channels_fit n (n_channels * m).
Proof.
  intros Hb Hn Hm Hmod. split; [exact Hmod|]. split; [nia|].
  unfold norm_fits.
  apply Nat.Div0.mod_divides in Hmod as [q Hq]. rewrite Hq.
  replace (n * (32 * q)) with (n * q * 32) by lia.
  rewrite Nat.div_mul by discriminate.
  intros H. apply Nat.mul_eq_1 in H as [H1 H2]. nia.
Qed.

Lemma Forall_last_holds {A : Type} (P : A -> Prop) (l : list A) (d : A) :
  l <> [] -> Forall P l -> P (last l d).
Proof.
  intros Hne Hall. destruct l as [|a l]; [contradiction|].
  pose proof (proj1 (Forall_forall _ _) Hall) as H. apply H.
  clear. revert a. induction l as [|b l IH]; intros a; [now left|].
  right. apply IH.
Qed.

Lemma res_blocks_make_typed (n k cin cout : nat) :
  channels_fit n cin -> channels_fit n cout ->
  blocks_typed n (res_blocks_make (S k) cin cout) cin cout.
Proof.
  revert cin. induction k as [|k IH]; intros cin (Hi & _ & Hfi) Ho.
  - cbn [res_blocks_make]. destruct Ho as (Ho & Hpo & Hfo).
    eapply typed_cons; [now constructor|constructor].
  - change (res_blocks_make (S (S k)) cin cout)
      with (BRes (ResBlock_make cin cout) :: res_blocks_make (S k) cout cout).
    eapply typed_cons; [|now apply IH].
    destruct Ho as (Ho & Hpo & Hfo). now constructor.
Qed.

Lemma encoder_levels_typed (n n_channels k : nat) :
  forall (mults : list nat) (prev : nat),
    channels_fit n (n_channels * prev) ->
    Forall (fun m => channels_fit n (n_channels * m)) mults ->
    blocks_typed n (encoder_levels n_channels (S k) prev mults)
      (n_channels * prev) (n_channels * last mults prev).
Proof.
  induction mults as [|m rest IH]; intros prev Hp Hall; [constructor|].
  apply Forall_cons_iff in Hall as [Hm Hrest].
  cbn [encoder_levels level_out].
  apply blocks_typed_app with (n_channels * m);
    [now apply res_blocks_make_typed|].
  destruct rest as [|m' rest'].
  - cbn [app encoder_levels last]. constructor.
  - cbn [app]. eapply typed_cons; [constructor; apply Hm|].
    change (last (m :: m' :: rest') prev) with (last (m' :: rest') prev).
    rewrite (last_cons_default m' rest' prev m). now apply IH.
Qed.

Lemma decoder_levels_typed (n n_channels k : nat) :
  forall (mults : list nat) (cin : nat),
    channels_fit n cin ->
    Forall (fun m => channels_fit n (n_channels * m)) mults ->
    blocks_typed n (decoder_levels n_channels (S k) cin mults) cin
      (match mults with [] => cin | _ :: _ => n_channels * last mults 0 end).
Proof.
  induction mults as [|m rest IH]; intros cin Hc Hall; [constructor|].
  apply Forall_cons_iff in Hall as [Hm Hrest].
  cbn [decoder_levels level_out].
  apply blocks_typed_app with (n_channels * m);
    [now apply res_blocks_make_typed|].
  destruct rest as [|m' rest'].
  - cbn [app decoder_levels last]. constructor.
  - cbn [app]. eapply typed_cons; [constructor; apply Hm|].
    change (last (m :: m' :: rest') 0) with (last (m' :: rest') 0).
    exact (IH (n_channels * m) Hm Hrest).
Qed.

Lemma axis_blocks_app (a b : list Block) (d : nat) :
  axis_blocks (a ++ b) d
  = match axis_blocks a d with
    | Some d' => axis_blocks b d'
    | None => None
    end.
Proof.
  revert d. induction a as [|x a IH]; intros d; [reflexivity|].
  cbn [app axis_blocks]. destruct (axis_block x d); [apply IH|reflexivity].
Qed.

Lemma axis_res_blocks_make (k cin cout d : nat) :
  axis_blocks (res_blocks_make (S k) cin cout) d
  = if d =? 0 then None else Some d.
Proof.
  revert cin. induction k as [|k IH]; intros cin.
  - cbn [res_blocks_make axis_blocks axis_block].
    rewrite conv_out_same_spec. now destruct (d =? 0).
  - change (res_blocks_make (S (S k)) cin cout)
      with (BRes (ResBlock_make cin cout) :: res_blocks_make (S k) cout cout).
    cbn [axis_blocks axis_block]. rewrite conv_out_same_spec.
    destruct (d =? 0) eqn:E; [reflexivity|]. apply IH.
Qed.

Lemma pow2_pos (j : nat) : 0 < 2 ^ j.
Proof. apply Nat.neq_0_lt_0, Nat.pow_nonzero. discriminate. Qed.

Lemma axis_encoder_levels (n_channels k : nat) :
  forall (mults : list nat) (prev d : nat),
    mults <> [] ->
    axis_blocks (encoder_levels n_channels (S k) prev mults) d
    = if d <? 2 ^ (length mults - 1) then None
      else Some (d / 2 ^ (length mults - 1)).
Proof.
  induction mults as [|m rest IH]; intros prev d Hne; [contradiction|].
  cbn [encoder_levels level_out].
  rewrite axis_blocks_app, axis_res_blocks_make.
  destruct rest as [|m' rest'].
  - cbn [app encoder_levels axis_blocks length Nat.sub Nat.pow].
    rewrite Nat.div_1_r.
    destruct d as [|d]; reflexivity.
  - cbn [app].
    replace (length (m :: m' :: rest') - 1) with (S (length (m' :: rest') - 1))
      by (cbn [length]; lia).
    set (j := length (m' :: rest') - 1).
    pose proof (pow2_pos j) as Hq.
    rewrite Nat.pow_succ_r'. set (q := 2 ^ j) in *.
    destruct (d =? 0) eqn:E0.
    + apply Nat.eqb_eq in E0. subst d.
      replace (0 <? 2 * q) with true by (symmetry; apply Nat.ltb_lt; lia).
      reflexivity.
    + apply Nat.eqb_neq in E0. cbn [axis_blocks axis_block].
      rewrite conv_out_halve_floor.
      destruct (d <? 2) eqn:E2.
      * apply Nat.ltb_lt in E2.
        replace (d <? 2 * q) with true by (symmetry; apply Nat.ltb_lt; lia).
        reflexivity.
      * apply Nat.ltb_ge in E2. rewrite IH by discriminate. fold j. fold q.
        rewrite Nat.Div0.div_div.
        destruct (d / 2 <? q) eqn:E3.
        -- apply Nat.ltb_lt in E3.
           replace (d <? 2 * q) with true
             by (symmetry; apply Nat.ltb_lt; div_lia).
           reflexivity.
        -- apply Nat.ltb_ge in E3.
           replace (d <? 2 * q) with false
             by (symmetry; apply Nat.ltb_ge; div_lia).
           reflexivity.
Qed.

Lemma axis_decoder_levels (n_channels k : nat) :
  forall (mults : list nat) (cin d : nat),
    mults <> [] ->
    axis_blocks (decoder_levels n_channels (S k) cin mults) d
    = if d =? 0 then None else Some (d * 2 ^ (length mults - 1)).
Proof.
  induction mults as [|m rest IH]; intros cin d Hne; [contradiction|].
  cbn [decoder_levels level_out].
  rewrite axis_blocks_app, axis_res_blocks_make.
  destruct (d =? 0) eqn:E0; [reflexivity|].
  apply Nat.eqb_neq in E0.
  destruct rest as [|m' rest'].
  - cbn [app decoder_levels axis_blocks length Nat.sub Nat.pow].
    now rewrite Nat.mul_1_r.
  - cbn [app axis_blocks axis_block].
    rewrite conv_out_same by lia. rewrite IH by discriminate.
    replace (d * 2 =? 0) with false by (symmetry; apply Nat.eqb_neq; lia).
    replace (length (m :: m' :: rest') - 1) with (S (length (m' :: rest') - 1))
      by (cbn [length]; lia).
    rewrite Nat.pow_succ_r'. f_equal. ring.
Qed.

Lemma filter_is_down_res_blocks (j cin cout : nat) :
  filter is_down (res_blocks_make (TT := ShapeTorch) j cin cout) = [].
Proof.
  revert cin. induction j as [|j IH]; intros cin; [reflexivity|].
  cbn [res_blocks_make filter is_down]. apply IH.
Qed.

Lemma filter_is_up_res_blocks (j cin cout : nat) :
  filter is_up (res_blocks_make (TT := ShapeTorch) j cin cout) = [].
Proof.
  revert cin. induction j as [|j IH]; intros cin; [reflexivity|].
  cbn [res_blocks_make filter is_up]. apply IH.
Qed.

Lemma count_down_encoder_levels (n_channels j : nat) :
  forall (mults : list nat) (prev : nat),
    length (filter is_down
              (encoder_levels (TT := ShapeTorch) n_channels j prev mults))
    = length mults - 1.
Proof.
  induction mults as [|m rest IH]; intros prev; [reflexivity|].
  cbn [encoder_levels]. rewrite !filter_app, filter_is_down_res_blocks.
  cbn [app]. rewrite length_app, IH.
  destruct rest; cbn [filter is_down length]; lia.
Qed.

Lemma count_up_decoder_levels (n_channels j : nat) :
  forall (mults : list nat) (cin : nat),
    length (filter is_up
              (decoder_levels (TT := ShapeTorch) n_channels j cin mults))
    = length mults - 1.
Proof.
  induction mults as [|m rest IH]; intros cin; [reflexivity|].
  cbn [decoder_levels]. rewrite !filter_app, filter_is_up_res_blocks.
  cbn [app]. rewrite length_app, IH.
  destruct rest; cbn [filter is_up length]; lia.
Qed.

(** X6.  For every configuration with at least one residual block per
    level, a non-empty [ch_mult] of positive multipliers, positive channel
    counts and [n_channels] and every [n_channels * ch_mult[i]] a multiple
    of 32, [Encoder.__init__] succeeds and builds one [Downsample] less
    than there are levels.  On a batch of other than one array, or with
    more than 32 channels per level, where no [Normalize] can find a
    single value per channel, the encoder accepts an input exactly when it
    has [in_channels] channels and each spatial axis is at least
    2^(levels-1) long, and divides each axis by that power of two,
    rounding down. *)
Theorem Encoder_any_configuration
  (in_channels n_channels z_channels k : nat)
  (ch_mult resolution attn_resolutions : list nat) :
  ch_mult <> [] ->
  0 < in_channels -> 0 < n_channels -> 0 < z_channels ->
  n_channels mod 32 = 0 ->
  Forall (fun m => 0 < m /\ (n_channels * m) mod 32 = 0) ch_mult ->
  exists e : Encoder (TT := ShapeTorch),
    Encoder_init in_channels n_channels z_channels ch_mult (S k)
      resolution attn_resolutions = Ok e
    /\ length (filter is_down (enc_blocks e)) = length ch_mult - 1
    /\ forall b c d h w,
         b <> 1 \/ 32 < n_channels ->
         let p := 2 ^ (length ch_mult - 1) in
         Encoder_forward e (Some [b; c; d; h; w])
         = Ok (if (c =? in_channels) && (p <=? d) && (p <=? h) && (p <=? w)
               then Some [b; z_channels; d / p; h / p; w / p] else None).
Proof.
  intros Hne Hi Hn Hz Hn32 Hall.
  assert (Forall (fun m => (n_channels * m) mod 32 = 0) ch_mult) as Hall32.
  { eapply Forall_impl; [|exact Hall]. now intros m [_ H]. }
  destruct (Encoder_init_general (TT := ShapeTorch) in_channels n_channels
              z_channels k ch_mult resolution attn_resolutions Hne Hn32 Hall32)
    as (e & He & Hblocks).
  exists e. split; [exact He|].
  set (c_last := n_channels * last ch_mult 1) in *.
  split.
  { rewrite Hblocks. cbn [filter is_down].
    rewrite filter_app, length_app, count_down_encoder_levels.
    cbn [filter is_down length]. lia. }
  intros b c d h w Hb p. unfold Encoder_forward.
  assert (Forall (fun m => channels_fit b (n_channels * m)) ch_mult) as Hfit.
  { eapply Forall_impl; [|exact Hall].
    intros m [Hm Hmod]. now apply channels_fit_level. }
  assert (channels_fit b c_last) as Hlast
    by (now apply (Forall_last_holds
                     (fun m => channels_fit b (n_channels * m)))).
  assert (blocks_typed b (enc_blocks e) in_channels z_channels) as Htyped.
  { rewrite Hblocks. eapply typed_cons; [now constructor|].
    apply blocks_typed_app with c_last.
    - pose proof (encoder_levels_typed b n_channels k ch_mult 1) as H.
      rewrite Nat.mul_1_r in H. apply H; [|exact Hfit].
      rewrite <- (Nat.mul_1_r n_channels).
      apply channels_fit_level; [assumption|assumption|lia|].
      now rewrite Nat.mul_1_r.
    - destruct Hlast as (H1 & H2 & H3).
      eapply typed_cons; [now constructor|].
      eapply typed_cons; now constructor. }
  assert (forall a, axis_blocks (enc_blocks e) a
                    = if a <? p then None else Some (a / p)) as Haxis.
  { intros a. rewrite Hblocks.
    cbn [axis_blocks axis_block Conv3d_new conv_kernel_size conv_stride
         conv_padding].
    pose proof (pow2_pos (length ch_mult - 1)) as Hp. fold p in Hp.
    rewrite conv_out_same_spec.
    destruct (a =? 0) eqn:E0.
    { apply Nat.eqb_eq in E0. subst a.
      now replace (0 <? p) with true by (symmetry; apply Nat.ltb_lt; lia). }
    rewrite axis_blocks_app, axis_encoder_levels by assumption. fold p.
    destruct (a <? p) eqn:Ep; [reflexivity|].
    apply Nat.ltb_ge in Ep.
    cbn [axis_blocks axis_block Conv3d_new conv_kernel_size conv_stride
         conv_padding].
    rewrite conv_out_same; [reflexivity|].
    apply Nat.div_str_pos. lia. }
  destruct (c =? in_channels) eqn:Ec.
  - apply Nat.eqb_eq in Ec. subst c.
    rewrite (blocks_forward_axiswise b _ _ _ Htyped), !Haxis.
    cbn [andb]. rewrite !Nat.leb_antisym.
    destruct (d <? p), (h <? p), (w <? p); reflexivity.
  - apply Nat.eqb_neq in Ec. cbn [andb].
    rewrite Hblocks in Htyped |- *.
    now apply blocks_forward_wrong_channels with in_channels z_channels.
Qed.

(** [Encoder_any_configuration] at three levels of 32, 96 and 64 channels
    and a batch of two. *)
Lemma Encoder_any_configuration_witness :
  exists e : Encoder (TT := ShapeTorch),
    Encoder_init 2 32 4 [1; 3; 2] 1 [64] [] = Ok e
    /\ Encoder_forward e (Some [2; 2; 9; 4; 6]) = Ok (Some [2; 4; 2; 1; 1]).
Proof.
  destruct (Encoder_any_configuration 2 32 4 0 [1; 3; 2] [64] [])
    as (e & He & _ & Hfwd).
  - discriminate.
  - lia.
  - lia.
  - lia.
  - reflexivity.
  - repeat constructor; lia.
  - exists e. split; [exact He|]. apply (Hfwd 2 2 9 4 6). left. discriminate.
Defined.

(** X7.  For every such configuration [Decoder.__init__] succeeds and
    builds one [Upsample] less than there are levels.  On a batch of other
    than one array, or with more than 32 channels per level, the decoder
    accepts a latent exactly when it has [z_channels] channels and no
    empty spatial axis, and multiplies each axis by 2^(levels-1). *)
Theorem Decoder_any_configuration
  (n_channels z_channels out_channels k : nat)
  (ch_mult resolution attn_resolutions : list nat) :
  ch_mult <> [] ->
  0 < n_channels -> 0 < z_channels -> 0 < out_channels ->
  Forall (fun m => 0 < m /\ (n_channels * m) mod 32 = 0) ch_mult ->
  exists dc : Decoder (TT := ShapeTorch),
    Decoder_init n_channels z_channels out_channels ch_mult (S k)
      resolution attn_resolutions = Ok dc
    /\ length (filter is_up (dec_blocks dc)) = length ch_mult - 1
    /\ forall b c d h w,
         b <> 1 \/ 32 < n_channels ->
         let p := 2 ^ (length ch_mult - 1) in
         Decoder_forward dc (Some [b; c; d; h; w])
         = Ok (if (c =? z_channels) && negb (d =? 0) && negb (h =? 0)
                  && negb (w =? 0)
               then Some [b; out_channels; d * p; h * p; w * p] else None).
Proof.
  intros Hne Hn Hz Ho Hall.
  assert (Forall (fun m => (n_channels * m) mod 32 = 0) ch_mult) as Hall32.
  { eapply Forall_impl; [|exact Hall]. now intros m [_ H]. }
  destruct (Decoder_init_general (TT := ShapeTorch) n_channels z_channels
              out_channels k ch_mult resolution attn_resolutions Hne Hall32)
    as (dc & Hdc & Hblocks).
  exists dc. split; [exact Hdc|].
  set (c_first := n_channels * last ch_mult 0) in *.
  set (c_last := n_channels * hd 0 ch_mult) in *.
  assert (rev ch_mult <> []) as Hrev.
  { intros H. apply Hne. rewrite <- (rev_involutive ch_mult), H. reflexivity. }
  assert (match rev ch_mult with
          | [] => c_first
          | _ :: _ => n_channels * last (rev ch_mult) 0
          end = c_last) as Hout.
  { unfold c_last. destruct ch_mult as [|a rest]; [contradiction|].
    cbn [rev hd]. destruct (rev rest ++ [a]) eqn:E.
    - now apply app_eq_nil in E as [_ E].
    - rewrite <- E. now rewrite last_last. }
  split.
  { rewrite Hblocks. cbn [filter is_up].
    rewrite filter_app, length_app, count_up_decoder_levels, length_rev.
    cbn [filter is_up length]. lia. }
  intros b c d h w Hb p. unfold Decoder_forward.
  assert (Forall (fun m => channels_fit b (n_channels * m)) ch_mult) as Hfit.
  { eapply Forall_impl; [|exact Hall].
    intros m [Hm Hmod]. now apply channels_fit_level. }
  assert (channels_fit b c_first) as Hfirst
    by (now apply (Forall_last_holds
                     (fun m => channels_fit b (n_channels * m)))).
  assert (channels_fit b c_last) as Hlast.
  { unfold c_last. destruct ch_mult as [|a rest]; [contradiction|].
    now inversion Hfit. }
  assert (blocks_typed b (dec_blocks dc) z_channels out_channels) as Htyped.
  { rewrite Hblocks. destruct Hfirst as (F1 & F2 & F3).
    eapply typed_cons; [now constructor|].
    apply blocks_typed_app with c_last.
    - rewrite <- Hout. apply decoder_levels_typed; [now repeat split|].
      now apply Forall_rev.
    - destruct Hlast as (H1 & H2 & H3).
      eapply typed_cons; [now constructor|].
      eapply typed_cons; now constructor. }
  assert (forall a, axis_blocks (dec_blocks dc) a
                    = if a =? 0 then None else Some (a * p)) as Haxis.
  { intros a. rewrite Hblocks.
    cbn [axis_blocks axis_block Conv3d_new conv_kernel_size conv_stride
         conv_padding].
    pose proof (pow2_pos (length ch_mult - 1)) as Hp. fold p in Hp.
    rewrite conv_out_same_spec.
    destruct (a =? 0) eqn:E0; [reflexivity|].
    rewrite axis_blocks_app, axis_decoder_levels by assumption.
    rewrite E0. rewrite length_rev. fold p.
    apply Nat.eqb_neq in E0.
    cbn [axis_blocks axis_block Conv3d_new conv_kernel_size conv_stride
         conv_padding].
    rewrite conv_out_same; [reflexivity|]. nia. }
  destruct (c =? z_channels) eqn:Ec.
  - apply Nat.eqb_eq in Ec. subst c.
    rewrite (blocks_forward_axiswise b _ _ _ Htyped), !Haxis.
    cbn [andb].
    destruct (d =? 0), (h =? 0), (w =? 0); reflexivity.
  - apply Nat.eqb_neq in Ec. cbn [andb].
    rewrite Hblocks in Htyped |- *.
    now apply blocks_forward_wrong_channels with z_channels out_channels.
Qed.

(** [Decoder_any_configuration] at three levels of 64, 96 and 32 channels
    and a batch of two. *)
Lemma Decoder_any_configuration_witness :
  exists dc : Decoder (TT := ShapeTorch),
    Decoder_init 32 4 2 [1; 3; 2] 1 [64] [] = Ok dc
    /\ Decoder_forward dc (Some [2; 4; 2; 1; 3]) = Ok (Some [2; 2; 8; 4; 12]).
Proof.
  destruct (Decoder_any_configuration 32 4 2 0 [1; 3; 2] [64] [])
    as (dc & Hdc & _ & Hfwd).
  - discriminate.
  - lia.
  - lia.
  - lia.
  - repeat constructor; lia.
  - exists dc. split; [exact Hdc|]. apply (Hfwd 2 4 2 1 3). left. discriminate.
Defined.

(** Where [Normalize] finds a single value per channel: one array of one
    voxel and 32 channels. *)
Example single_value_per_channel :
  (exists e : Encoder (TT := ShapeTorch),
      Encoder_init 1 32 3 [1] 1 [] [] = Ok e
      /\ Encoder_forward e (Some [1; 1; 1; 1; 1]) = Ok None
      /\ Encoder_forward e (Some [2; 1; 1; 1; 1]) = Ok (Some [2; 3; 1; 1; 1]))
  /\ (exists dc : Decoder (TT := ShapeTorch),
         Decoder_init 32 4 2 [2; 1] 1 [] [] = Ok dc
         /\ Decoder_forward dc (Some [1; 4; 1; 1; 1]) = Ok None
         /\ Decoder_forward dc (Some [2; 4; 1; 1; 1])
            = Ok (Some [2; 2; 2; 2; 2])).
Proof. split; eexists; repeat split; reflexivity. Qed.

(** X8.  With an empty [ch_mult] neither module can be built: the encoder's
    constructor reads [block_in_ch] before any assignment (an
    [UnboundLocalError], which is a [NameError]) and the decoder's indexes
    [ch_mult[-1]] (an [IndexError]). *)
Theorem empty_ch_mult_raises `{TT : Torch}
  (in_channels n_channels z_channels out_channels num_res_blocks : nat)
  (resolution attn_resolutions : list nat) :
  Encoder_init in_channels n_channels z_channels [] num_res_blocks
    resolution attn_resolutions = Raise (NameError "block_in_ch")
  /\ exists msg,
       Decoder_init n_channels z_channels out_channels [] num_res_blocks
         resolution attn_resolutions = Raise (IndexError msg).
Proof. split; [reflexivity|eexists; reflexivity]. Qed.

(** ** The training driver *)

Section Driver.
Context `{TR : Trainer}.

Lemma frame_refl (st : TrainState) : frame st st.
Proof. repeat split. Qed.

Lemma frame_trans (a b c : TrainState) : frame a b -> frame b c -> frame a c.
Proof.
  unfold frame. intros (?&?&?&?&?&?) (?&?&?&?&?&?).
  repeat split; congruence.
Qed.

Lemma py_mod_ok (a b : Z) : b <> 0%Z -> py_mod a b = Ok (a mod b)%Z.
Proof.
  intros Hb. unfold py_mod. apply Z.eqb_neq in Hb. now rewrite Hb.
Qed.

Lemma py_mod_inv (a b r : Z) : py_mod a b = Ok r -> b <> 0%Z /\ r = (a mod b)%Z.
Proof.
  unfold py_mod. destruct (b =? 0)%Z eqn:E; [discriminate|].
  intros [= <-]. apply Z.eqb_neq in E. now split.
Qed.

Lemma reconstruction_total (grad : tensor) (m : AutoencoderKL) :
  AutoencoderKL_wf m = true -> exists t, reconstruction grad m = Ok t.
Proof.
  intros Hwf. unfold reconstruction.
  destruct (encode_total m grad Hwf) as (h & _ & ->). cbn [bind].
  destruct (decode_total m (Conv3d_forward (quant_conv_mu m) h) Hwf)
    as (y & _ & ->).
  cbn [bind tensor_arg]. now exists y.
Qed.

Lemma returned_inv (t t' : tensor) :
  returned t = Ok t' -> t' = t /\ rejected t = false.
Proof.
  unfold returned. destruct (rejected t); [discriminate|].
  intros [= <-]. now split.
Qed.

Lemma returned_ok (t : tensor) : rejected t = false -> returned t = Ok t.
Proof. intros H. unfold returned. now rewrite H. Qed.

Lemma returned_obj_inv (v v' : pyobj) : returned_obj v = Ok v' -> v' = v.
Proof.
  destruct v as [t|items]; cbn [returned_obj]; [|now intros [= <-]].
  destruct (returned t) as [t'|] eqn:E; cbn [bind]; [|discriminate].
  apply returned_inv in E as [-> _]. now intros [= <-].
Qed.

(** What lines 278 to 285 have computed when they go through. *)
Lemma forward_loss_inv (m : AutoencoderKL) (grad z_pred loss : tensor) :
  forward_loss m grad = Ok (z_pred, loss) ->
  reconstruction grad m = Ok z_pred
  /\ loss = mse_loss grad z_pred
  /\ rejected z_pred = false /\ rejected loss = false.
Proof.
  unfold forward_loss, reconstruction. intros H.
  destruct (encode m grad) as [z|]; cbn [bind] in H |- *; [|discriminate].
  destruct (returned_obj z) as [z'|] eqn:Ez; cbn [bind] in H; [|discriminate].
  apply returned_obj_inv in Ez as ->.
  destruct (decode m z) as [y|]; cbn [bind] in H |- *; [|discriminate].
  destruct (tensor_arg y) as [t|]; cbn [bind] in H |- *; [|discriminate].
  destruct (returned t) as [t'|] eqn:Et; cbn [bind] in H; [|discriminate].
  apply returned_inv in Et as [-> Ht].
  destruct (returned (mse_loss grad t)) as [l|] eqn:El; cbn [bind] in H;
    [|discriminate].
  apply returned_inv in El as [-> Hl].
  injection H as <- <-. repeat split; assumption.
Qed.

Lemma train_forward_inv (cfg : Config) (st : TrainState) (batch : tensor)
  (random_start : Z) (grad z_pred loss : tensor) :
  train_forward cfg st batch random_start = Ok (grad, z_pred, loss) ->
  distributed cfg = true
  /\ grad = crop_batch batch random_start
  /\ reconstruction grad (vae st) = Ok z_pred
  /\ loss = mse_loss grad z_pred
  /\ rejected grad = false /\ rejected z_pred = false
  /\ rejected loss = false.
Proof.
  unfold train_forward, vae_module. intros H.
  destruct (returned (rearrange batch)) as [g0|]; cbn [bind] in H;
    [|discriminate].
  destruct (returned (crop_batch batch random_start)) as [g|] eqn:Eg;
    cbn [bind] in H; [|discriminate].
  apply returned_inv in Eg as [-> Hg].
  destruct (distributed cfg); cbn [bind] in H; [|discriminate].
  destruct (forward_loss (vae st) (crop_batch batch random_start))
    as [[z l]|] eqn:Ef; cbn [bind] in H; [|discriminate].
  injection H as <- <- <-.
  apply forward_loss_inv in Ef as (Hr & Hl & Hz & Hrl).
  repeat split; assumption.
Qed.

Lemma val_forward_inv (cfg : Config) (st : TrainState) (val_grad : tensor)
  (val_gt z_pred loss : tensor) :
  val_forward cfg st val_grad = Ok (val_gt, z_pred, loss) ->
  distributed cfg = true
  /\ val_gt = crop_last (rearrange val_grad) 16 144
  /\ reconstruction val_gt (vae st) = Ok z_pred
  /\ loss = mse_loss val_gt z_pred
  /\ rejected val_gt = false /\ rejected z_pred = false
  /\ rejected loss = false.
Proof.
  unfold val_forward, vae_module. intros H.
  destruct (returned (rearrange val_grad)) as [g0|] eqn:E0; cbn [bind] in H;
    [|discriminate].
  apply returned_inv in E0 as [-> _].
  destruct (returned (crop_last (rearrange val_grad) 16 144)) as [g|] eqn:Eg;
    cbn [bind] in H; [|discriminate].
  apply returned_inv in Eg as [-> Hg].
  destruct (distributed cfg); cbn [bind] in H; [|discriminate].
  destruct (forward_loss (vae st) (crop_last (rearrange val_grad) 16 144))
    as [[z l]|] eqn:Ef; cbn [bind] in H; [|discriminate].
  injection H as <- <- <-.
  apply forward_loss_inv in Ef as (Hr & Hl & Hz & Hrl).
  repeat split; assumption.
Qed.

Lemma log_slices_frame (prefix : string) (images : list tensor) (st : TrainState) :
  frame st (log_slices prefix images st)
  /\ saved (log_slices prefix images st) = saved st.
Proof. repeat split. Qed.

Lemma log_loss_inv (cfg : Config) (st st' : TrainState) :
  log_loss cfg st = Ok st' -> frame st st' /\ saved st' = saved st.
Proof.
  unfold log_loss. destruct (py_mod _ _) as [r|]; cbn [bind]; [|discriminate].
  destruct (_ && _); [destruct (is_local_main_process cfg)|];
    intros [= <-]; repeat split.
Qed.

Lemma log_loss_ok (cfg : Config) (st : TrainState) :
  log_every cfg <> 0%Z -> exists st', log_loss cfg st = Ok st'.
Proof.
  intros H. unfold log_loss. rewrite py_mod_ok by assumption. cbn [bind].
  destruct (_ && _); eexists; reflexivity.
Qed.

Lemma save_checkpoint_inv (cfg : Config) (st st' : TrainState) :
  save_checkpoint cfg st = Ok st' ->
  frame st st' /\ step_loss st' = step_loss st /\ writer st' = writer st
  /\ vae_training st' = vae_training st
  /\ saved st' =
     if ckpt_due cfg st
     then (ckpt_path (ckpt_dir cfg) (global_step st), state_dict "module." (vae st))
          :: saved st
     else saved st.
Proof.
  unfold save_checkpoint, ckpt_due. intros H.
  destruct (py_mod _ _) as [r|] eqn:E; cbn [bind] in H; [|discriminate].
  apply py_mod_inv in E as [_ ->].
  destruct (_ && _); [destruct (is_local_main_process cfg)|];
    injection H as <-; repeat split.
Qed.

Lemma save_checkpoint_ok (cfg : Config) (st : TrainState) :
  ckpt_every cfg <> 0%Z -> exists st', save_checkpoint cfg st = Ok st'.
Proof.
  intros H. unfold save_checkpoint. rewrite py_mod_ok by assumption.
  cbn [bind]. destruct (_ && _); [destruct (is_local_main_process cfg)|];
    eexists; reflexivity.
Qed.

Lemma log_images_inv (cfg : Config) (grad z_pred : tensor) (st st' : TrainState) :
  log_images cfg grad z_pred st = Ok st' -> frame st st' /\ saved st' = saved st.
Proof.
  unfold log_images. destruct (py_mod _ _) as [r|]; cbn [bind]; [|discriminate].
  destruct (_ || _); [destruct (is_local_main_process cfg)|];
    intros [= <-]; repeat split.
Qed.

Lemma log_images_ok (cfg : Config) (grad z_pred : tensor) (st : TrainState) :
  image_every cfg <> 0%Z -> exists st', log_images cfg grad z_pred st = Ok st'.
Proof.
  intros H. unfold log_images. rewrite py_mod_ok by assumption. cbn [bind].
  destruct (_ || _); eexists; reflexivity.
Qed.

Lemma validate_batch_inv (cfg : Config) (st st' : TrainState)
  (l1 l2 l1' l2' : list scalar) (g : tensor) :
  validate_batch cfg (st, l1, l2) g = Ok (st', l1', l2') ->
  frame st st' /\ saved st' = saved st.
Proof.
  unfold validate_batch.
  destruct (val_forward cfg st g) as [[[val_gt z_pred] loss]|]; cbn [bind];
    [|discriminate].
  destruct (is_local_main_process cfg); intros [= <- _ _]; repeat split.
Qed.

Lemma validate_batch_ok (cfg : Config) (st : TrainState)
  (l1 l2 : list scalar) (g : tensor) :
  (exists x, val_forward cfg st g = Ok x) ->
  exists st' l1' l2', validate_batch cfg (st, l1, l2) g = Ok (st', l1', l2').
Proof.
  intros [[[val_gt z_pred] loss] E]. unfold validate_batch. rewrite E.
  cbn [bind]. do 3 eexists; reflexivity.
Qed.

Lemma validate_batches_inv (cfg : Config) (val_loader : list tensor) :
  forall st l1 l2 st' l1' l2',
    validate_batches cfg val_loader (st, l1, l2) = Ok (st', l1', l2') ->
    frame st st' /\ saved st' = saved st.
Proof.
  induction val_loader as [|g rest IH]; intros st l1 l2 st' l1' l2' H.
  - injection H as <- _ _. split; [apply frame_refl|reflexivity].
  - cbn [validate_batches] in H.
    destruct (validate_batch cfg (st, l1, l2) g) as [[[st1 a1] b1]|] eqn:E;
      cbn [bind] in H; [|discriminate].
    apply validate_batch_inv in E as [F1 S1].
    apply IH in H as [F2 S2]. split; [eapply frame_trans; eassumption|congruence].
Qed.

Lemma validate_batches_ok (good : AutoencoderKL -> Prop) (cfg : Config)
  (val_loader : list tensor) :
  (forall st g, good (vae st) -> In g val_loader ->
                exists x, val_forward cfg st g = Ok x) ->
  forall st l1 l2,
    good (vae st) ->
    exists st' l1' l2',
      validate_batches cfg val_loader (st, l1, l2) = Ok (st', l1', l2').
Proof.
  induction val_loader as [|g rest IH]; intros Hval st l1 l2 Hgood.
  - do 3 eexists; reflexivity.
  - cbn [validate_batches].
    destruct (validate_batch_ok cfg st l1 l2 g) as (st1 & a1 & b1 & E).
    { apply Hval; [assumption|now left]. }
    rewrite E. cbn [bind]. apply IH.
    + intros s v Hs Hv. apply Hval; [assumption|now right].
    + apply validate_batch_inv in E as [(-> & _) _]. exact Hgood.
Qed.

Lemma validate_inv (cfg : Config) (val_loader : list tensor) (st st' : TrainState) :
  validate cfg val_loader st = Ok st' -> frame st st' /\ saved st' = saved st.
Proof.
  unfold validate. destruct (py_mod _ _) as [r|]; cbn [bind]; [|discriminate].
  destruct (_ && _); [|intros [= <-]; repeat split].
  destruct (validate_batches _ _ _) as [[[st1 a1] b1]|] eqn:E; cbn [bind];
    [|discriminate].
  apply validate_batches_inv in E as [F S].
  destruct F as (?&?&?&?&?&?). cbn in *.
  destruct (is_local_main_process cfg); intros [= <-]; cbn;
    repeat split; assumption.
Qed.

Lemma validate_ok (good : AutoencoderKL -> Prop) (cfg : Config)
  (val_loader : list tensor) (st : TrainState) :
  val_every cfg <> 0%Z ->
  (forall st g, good (vae st) -> In g val_loader ->
                exists x, val_forward cfg st g = Ok x) ->
  good (vae st) ->
  exists st', validate cfg val_loader st = Ok st'.
Proof.
  intros H Hval Hgood. unfold validate. rewrite py_mod_ok by assumption.
  cbn [bind]. destruct (_ && _); [|eexists; reflexivity].
  destruct (validate_batches_ok good cfg val_loader Hval (set_training st false)
              [] [] Hgood) as (st1 & a1 & b1 & ->).
  cbn [bind]. eexists; reflexivity.
Qed.

End Driver.

Section Batch.
Context `{TR : Trainer}.

Lemma stepped_fields (st : TrainState) (grad loss : tensor) :
  let g := backward (loss_graph grad) (vae st) None in
  let mo := adamw_step (opt_vae st) (Some g) (vae st) in
  vae (stepped st grad loss) = fst mo
  /\ opt_vae (stepped st grad loss) = snd mo
  /\ vae_grad (stepped st grad loss) = Some g
  /\ global_step (stepped st grad loss) = (global_step st + 1)%Z
  /\ epoch (stepped st grad loss) = epoch st
  /\ epoch_loss (stepped st grad loss) = epoch_loss st ++ [item loss]
  /\ saved (stepped st grad loss) = saved st.
Proof.
  intros g mo. unfold stepped, count_step, opt_step, accelerator_backward, zero_grad.
  cbn [set_grad vae vae_grad opt_vae]. fold g. fold mo.
  destruct mo as [m o]. repeat split.
Qed.

Lemma train_batch_inv (cfg : Config) (val_loader : list tensor)
  (st st' : TrainState) (batch : tensor) (random_start : Z) :
  train_batch cfg val_loader st batch random_start = Ok st' ->
  let grad := crop_batch batch random_start in
  exists z_pred,
    reconstruction grad (vae st) = Ok z_pred
    /\ let s1 := stepped st grad (mse_loss grad z_pred) in
       frame s1 st'
       /\ saved st' =
          if ckpt_due cfg s1
          then (ckpt_path (ckpt_dir cfg) (global_step s1),
                state_dict "module." (vae s1)) :: saved st
          else saved st.
Proof.
  intros H grad. unfold train_batch in H.
  destruct (train_forward cfg st batch random_start) as [[[g z_pred] loss]|]
    eqn:Ef; cbn [bind] in H; [|discriminate].
  apply train_forward_inv in Ef as (_ & -> & Er & -> & _). fold grad in Er, H.
  exists z_pred. split; [exact Er|]. intros s1.
  change (count_step _ _) with s1 in H.
  destruct (log_loss cfg s1) as [s2|] eqn:E2; cbn [bind] in H; [|discriminate].
  destruct (save_checkpoint cfg s2) as [s3|] eqn:E3; cbn [bind] in H; [|discriminate].
  destruct (log_images cfg grad z_pred s3) as [s4|] eqn:E4; cbn [bind] in H;
    [|discriminate].
  apply log_loss_inv in E2 as [F2 S2].
  apply save_checkpoint_inv in E3 as (F3 & _ & _ & _ & S3).
  apply log_images_inv in E4 as [F4 S4].
  apply validate_inv in H as [F5 S5].
  split.
  - eapply frame_trans; [|exact F5]. eapply frame_trans; [|exact F4].
    eapply frame_trans; eassumption.
  - rewrite S5, S4, S3, S2.
    pose proof (stepped_fields st grad (mse_loss grad z_pred)) as Hs.
    cbv zeta in Hs. destruct Hs as (_ & _ & _ & _ & _ & _ & Hsv).
    fold s1 in Hsv. rewrite Hsv.
    destruct F2 as (Hv & _ & _ & Hg & _).
    unfold ckpt_due. rewrite Hv, Hg. reflexivity.
Qed.

(** A step goes through when its forward pass does, the intervals are not
    zero and the validation batches go through with the updated model. *)
Lemma train_batch_ok (good : AutoencoderKL -> Prop) (cfg : Config)
  (val_loader : list tensor) (st : TrainState) (batch : tensor)
  (random_start : Z) :
  log_every cfg <> 0%Z -> ckpt_every cfg <> 0%Z ->
  image_every cfg <> 0%Z -> val_every cfg <> 0%Z ->
  good (vae st) ->
  (forall o g m, good m -> good (fst (adamw_step o g m))) ->
  (forall st g, good (vae st) -> In g val_loader ->
                exists x, val_forward cfg st g = Ok x) ->
  (exists x, train_forward cfg st batch random_start = Ok x) ->
  exists st', train_batch cfg val_loader st batch random_start = Ok st'.
Proof.
  intros Hl Hc Hi Hv Hgood Hopt Hval [[[grad z_pred] loss] Ef].
  unfold train_batch. rewrite Ef. cbn [bind].
  change (count_step _ _) with (stepped st grad loss).
  set (s1 := stepped st grad loss).
  assert (good (vae s1)) as Hgood1.
  { pose proof (stepped_fields st grad loss) as Hs.
    cbv zeta in Hs. destruct Hs as (Hs & _). unfold s1. rewrite Hs.
    now apply Hopt. }
  destruct (log_loss_ok cfg s1 Hl) as [s2 E2]. rewrite E2. cbn [bind].
  destruct (save_checkpoint_ok cfg s2 Hc) as [s3 E3]. rewrite E3. cbn [bind].
  destruct (log_images_ok cfg grad z_pred s3 Hi) as [s4 E4]. rewrite E4.
  cbn [bind]. apply (validate_ok good); [assumption|assumption|].
  apply log_images_inv in E4 as [(-> & _) _].
  apply save_checkpoint_inv in E3 as ((-> & _) & _).
  apply log_loss_inv in E2 as [(-> & _) _].
  exact Hgood1.
Qed.

Lemma train_batch_checkpoint (cfg : Config) (val_loader : list tensor)
  (st st' : TrainState) (batch : tensor) (random_start : Z) :
  train_batch cfg val_loader st batch random_start = Ok st' ->
  (0 <= global_step st)%Z ->
  global_step st' = (global_step st + 1)%Z
  /\ saved st'
     = (if ((global_step st + 1) mod ckpt_every cfg =? 0)%Z
           && is_local_main_process cfg
        then [(ckpt_path (ckpt_dir cfg) (global_step st + 1),
               state_dict "module." (vae st'))]
        else []) ++ saved st.
Proof.
  intros H Hg. apply train_batch_inv in H as (x & _ & F & Hsv).
  set (grad := crop_batch batch random_start) in *.
  pose proof (stepped_fields st grad (mse_loss grad x)) as Hf.
  cbv zeta in Hf. destruct Hf as (_ & _ & _ & Hg1 & _).
  destruct F as (Fv & _ & _ & Fg & _).
  split; [congruence|].
  rewrite Hsv, Fv. unfold ckpt_due. rewrite Hg1.
  replace (global_step st + 1 >? 0)%Z with true by (symmetry; lia).
  rewrite andb_true_r. now destruct (_ && _).
Qed.

End Batch.

Section Run.
Context `{TR : Trainer}.

(** C2.  In every training step the autograd graph handed to
    [accelerator.backward] is the mean-squared error between the batch fed
    to the model and [decode(encode(batch))], with no further term; its
    gradient is the one the optimizer step consumes, and its value is the
    loss the step records. *)
Theorem training_loss_is_mse (cfg : Config) (val_loader : list tensor)
  (st st' : TrainState) (batch : tensor) (random_start : Z) :
  train_batch cfg val_loader st batch random_start = Ok st' ->
  let grad := crop_batch batch random_start in
  (forall m, loss_graph grad m
             = (z <- encode m grad ;;
                x_hat <- decode m z ;;
                x_hat <- tensor_arg x_hat ;;
                Ok (mse_loss grad x_hat)))
  /\ vae_grad st' = Some (backward (loss_graph grad) (vae st) None)
  /\ (vae st', opt_vae st') = adamw_step (opt_vae st) (vae_grad st') (vae st)
  /\ exists x_hat,
       reconstruction grad (vae st) = Ok x_hat
       /\ epoch_loss st' = epoch_loss st ++ [item (mse_loss grad x_hat)].
Proof.
  intros H grad.
  apply train_batch_inv in H as (x_hat & Hrec & F & _). fold grad in Hrec, F.
  pose proof (stepped_fields st grad (mse_loss grad x_hat)) as Hs.
  cbv zeta in Hs. destruct Hs as (Hv & Ho & Hg & _ & _ & Hl & _).
  destruct F as (Fv & Fg & Fo & _ & _ & Fl).
  split; [|split; [|split]].
  - intros m. unfold loss_graph, reconstruction.
    destruct (encode m grad) as [z|]; cbn [bind]; [|reflexivity].
    destruct (decode m z) as [y|]; cbn [bind]; reflexivity.
  - congruence.
  - rewrite Fv, Fo, Fg, Hv, Ho, Hg. now destruct (adamw_step _ _ _).
  - exists x_hat. split; [assumption|congruence].
Qed.

(** C8.  Of the phases of a training step, only [opt_vae.step()] changes
    the model: clearing and accumulating gradients, counting the step,
    logging the loss, saving the checkpoint, logging images, validating and
    closing an epoch all return a state with the model they were given; the
    forward passes and the loss are functions of the model and read it
    only.  So the model after a training step is the one the optimizer
    step produced. *)
Theorem only_optimizer_changes_model (cfg : Config) (val_loader : list tensor)
  (grad z_pred loss batch : tensor) (random_start : Z) (st : TrainState) :
  vae (zero_grad st) = vae st
  /\ vae (accelerator_backward grad st) = vae st
  /\ vae (opt_step st) = fst (adamw_step (opt_vae st) (vae_grad st) (vae st))
  /\ vae (count_step loss st) = vae st
  /\ (forall st', log_loss cfg st = Ok st' -> vae st' = vae st)
  /\ (forall st', save_checkpoint cfg st = Ok st' -> vae st' = vae st)
  /\ (forall st', log_images cfg grad z_pred st = Ok st' -> vae st' = vae st)
  /\ (forall st', validate cfg val_loader st = Ok st' -> vae st' = vae st)
  /\ vae (end_epoch cfg st) = vae st
  /\ (forall st', train_batch cfg val_loader st batch random_start = Ok st' ->
      vae st' = vae (opt_step (accelerator_backward
                                 (crop_batch batch random_start) (zero_grad st)))).
Proof.
  split; [reflexivity|]. split; [reflexivity|]. split.
  { unfold opt_step. now destruct (adamw_step _ _ _). }
  split; [reflexivity|]. split.
  { intros st' H. now apply log_loss_inv in H as [(-> & _) _]. }
  split.
  { intros st' H. now apply save_checkpoint_inv in H as ((-> & _) & _). }
  split.
  { intros st' H. now apply log_images_inv in H as [(-> & _) _]. }
  split.
  { intros st' H. now apply validate_inv in H as [(-> & _) _]. }
  split.
  { unfold end_epoch. now destruct (is_local_main_process cfg). }
  intros st' H. apply train_batch_inv in H as (x & _ & (-> & _) & _).
  reflexivity.
Qed.

(** C3 (amended).  When the checkpoint phase succeeds it changes nothing
    but the files on disk; when it is due (the step is a positive multiple
    of [ckpt_every], on the local main process) it writes one file, named
    after the global step, holding the model's state dict and nothing
    else; otherwise it writes none. *)
Theorem checkpoint_is_model_state_dict (cfg : Config) (st st' : TrainState) :
  save_checkpoint cfg st = Ok st' ->
  saved st' =
    (if ckpt_due cfg st
     then [(ckpt_path (ckpt_dir cfg) (global_step st),
            state_dict "module." (vae st))]
     else []) ++ saved st
  /\ vae st' = vae st /\ opt_vae st' = opt_vae st
  /\ global_step st' = global_step st
  /\ step_loss st' = step_loss st /\ epoch_loss st' = epoch_loss st.
Proof.
  intros H. apply save_checkpoint_inv in H as (F & Hl & _ & _ & Hs).
  destruct F as (?&?&?&?&?&?).
  split; [|repeat split; assumption].
  rewrite Hs. now destruct (ckpt_due cfg st).
Qed.

End Run.

Section Schedule.
Context `{TR : Trainer}.
Variable cfg : Config.
Variable val_loader : list tensor.
Variable loader : nat -> list (tensor * Z).

Variable good : AutoencoderKL -> Prop.

Hypothesis regular : regular_run_with good cfg val_loader loader.

Lemma expected_paths_succ (g : Z) :
  (0 <= g)%Z ->
  expected_paths cfg (Z.to_nat (g + 1))
  = (if ((g + 1) mod ckpt_every cfg =? 0)%Z && is_local_main_process cfg
     then [ckpt_path (ckpt_dir cfg) (g + 1)] else [])
    ++ expected_paths cfg (Z.to_nat g).
Proof.
  intros Hg. unfold expected_paths.
  replace (Z.to_nat (g + 1)) with (S (Z.to_nat g)) by lia.
  cbn [due_steps]. replace (Z.of_nat (S (Z.to_nat g))) with (g + 1)%Z by lia.
  destruct (is_local_main_process cfg), ((g + 1) mod ckpt_every cfg =? 0)%Z;
    reflexivity.
Qed.

Lemma train_batch_step (st : TrainState) (batch : tensor) (random_start : Z) :
  run_invariant good cfg st ->
  (exists x, train_forward cfg st batch random_start = Ok x) ->
  exists st',
    train_batch cfg val_loader st batch random_start = Ok st'
    /\ global_step st' = (global_step st + 1)%Z
    /\ run_invariant good cfg st'.
Proof.
  intros (Hg & Hgood & Hs) Hfwd.
  destruct regular as (Hl & Hc & Hi & Hv & _ & _ & Hopt & _ & Hval).
  destruct (train_batch_ok good cfg val_loader st batch random_start
              Hl Hc Hi Hv Hgood Hopt Hval Hfwd) as [st' E].
  exists st'. split; [exact E|].
  apply train_batch_inv in E as (x & _ & F & Hsv).
  set (grad := crop_batch batch random_start) in *.
  pose proof (stepped_fields st grad (mse_loss grad x)) as Hf.
  cbv zeta in Hf. destruct Hf as (Hv1 & _ & _ & Hg1 & _).
  destruct F as (Fv & _ & _ & Fg & _).
  assert (global_step st' = (global_step st + 1)%Z) as Hg' by congruence.
  split; [exact Hg'|]. split; [lia|]. split.
  - rewrite Fv, Hv1. now apply Hopt.
  - rewrite Hsv, Hg', expected_paths_succ by assumption.
    unfold ckpt_due. rewrite Hg1.
    replace (global_step st + 1 >? 0)%Z with true by (symmetry; lia).
    rewrite andb_true_r.
    destruct (_ && _); cbn [map fst app]; now rewrite Hs.
Qed.

Lemma train_epoch_steps (batches : list (tensor * Z)) :
  (forall st batch r,
      good (vae st) -> In (batch, r) batches ->
      exists x, train_forward cfg st batch r = Ok x) ->
  forall st,
    run_invariant good cfg st -> (global_step st < train_steps cfg)%Z ->
    exists st',
      train_epoch cfg val_loader batches st = Ok st'
      /\ run_invariant good cfg st'
      /\ global_step st'
         = Z.min (train_steps cfg) (global_step st + Z.of_nat (length batches)).
Proof.
  induction batches as [|[batch r] rest IH]; intros Hfwd st Hinv Hlt.
  - exists st. split; [reflexivity|]. split; [assumption|]. cbn [length]. lia.
  - destruct (train_batch_step st batch r Hinv) as (s1 & E & Hg & Hinv1).
    { apply Hfwd; [apply Hinv|now left]. }
    cbn [train_epoch]. rewrite E. cbn [bind].
    destruct (global_step s1 =? train_steps cfg)%Z eqn:Ecmp.
    + apply Z.eqb_eq in Ecmp. exists s1. split; [reflexivity|].
      split; [assumption|]. cbn [length]. lia.
    + apply Z.eqb_neq in Ecmp.
      destruct (IH (fun s b q Hs Hin => Hfwd s b q Hs (or_intror Hin)) s1 Hinv1)
        as (s2 & E2 & Hinv2 & Hg2); [lia|].
      exists s2. split; [assumption|]. split; [assumption|].
      cbn [length]. lia.
Qed.

Lemma end_epoch_invariant (st : TrainState) :
  run_invariant good cfg st ->
  run_invariant good cfg (end_epoch cfg st)
  /\ global_step (end_epoch cfg st) = global_step st.
Proof.
  unfold run_invariant, end_epoch.
  destruct (is_local_main_process cfg); cbn; intros (?&?&?); repeat split;
    assumption.
Qed.

Lemma train_loop_runs (fuel : nat) :
  forall pass st,
    run_invariant good cfg st ->
    (train_steps cfg - global_step st <= Z.of_nat fuel)%Z ->
    exists st',
      train_loop fuel cfg val_loader loader pass st = Some (Ok st')
      /\ run_invariant good cfg st'
      /\ global_step st' = Z.max (global_step st) (train_steps cfg).
Proof.
  destruct regular as (_ & _ & _ & _ & loader_nonempty & _ & _ & Htrain & _).
  induction fuel as [|fuel IH]; intros pass st Hinv Hfuel.
  - cbn [train_loop].
    replace (global_step st <? train_steps cfg)%Z with false by (symmetry; lia).
    exists st. split; [reflexivity|]. split; [assumption|]. lia.
  - cbn [train_loop].
    destruct (global_step st <? train_steps cfg)%Z eqn:Elt.
    + apply Z.ltb_lt in Elt.
      destruct (train_epoch_steps (loader pass)
                  (fun s b q Hs Hin => Htrain s pass b q Hs Hin) st Hinv Elt)
        as (s1 & -> & Hinv1 & Hg1).
      destruct (end_epoch_invariant s1 Hinv1) as [Hinv2 Hg2].
      assert (0 < length (loader pass)) as Hlen.
      { pose proof (loader_nonempty pass). destruct (loader pass);
          [contradiction|cbn; lia]. }
      destruct (IH (S pass) (end_epoch cfg s1) Hinv2) as (s3 & E3 & Hinv3 & Hg3);
        [lia|].
      exists s3. split; [assumption|]. split; [assumption|]. lia.
    + apply Z.ltb_ge in Elt. exists st. split; [reflexivity|].
      split; [assumption|]. lia.
Qed.

Lemma due_steps_spec (every : Z) (n : nat) (g : Z) :
  In g (due_steps every n)
  <-> (0 < g <= Z.of_nat n)%Z /\ (g mod every = 0)%Z.
Proof.
  induction n as [|k IH].
  - cbn [due_steps In]. lia.
  - cbn [due_steps].
    destruct (Z.of_nat (S k) mod every =? 0)%Z eqn:E.
    + apply Z.eqb_eq in E. cbn [In]. rewrite IH. split.
      * intros [<-|[H1 H2]]; split; try assumption; lia.
      * intros [H1 H2].
        destruct (Z.eq_dec g (Z.of_nat (S k))) as [->|Hne]; [now left|].
        right. split; [lia|assumption].
    + apply Z.eqb_neq in E. rewrite IH. split.
      * intros [H1 H2]. split; [lia|assumption].
      * intros [H1 H2]. split; [|assumption].
        destruct (Z.eq_dec g (Z.of_nat (S k))) as [->|Hne]; [contradiction|lia].
Qed.

End Schedule.

Lemma initial_state_inv `{TR : Trainer} (cfg : Config) (st : TrainState) :
  initial_state cfg = Ok st ->
  exists m0, AutoencoderKL_init 3 = Ok m0
             /\ load_state_dict m0 = Ok (vae st)
             /\ global_step st = 0%Z /\ saved st = [].
Proof.
  unfold initial_state. intros H.
  destruct (AutoencoderKL_init 3) as [m0|]; cbn [bind] in H; [|discriminate].
  destruct (load_state_dict m0) as [m|] eqn:El; cbn [bind] in H; [|discriminate].
  injection H as <-. exists m0. repeat split. exact El.
Qed.

(** A regular run goes through: it starts, makes [train_steps] steps and
    ends, and its checkpoint files are those of the schedule. *)
Lemma main_runs `{TR : Trainer} (good : AutoencoderKL -> Prop) (cfg : Config)
  (val_loader : list tensor) (loader : nat -> list (tensor * Z)) (fuel : nat) :
  regular_run_with good cfg val_loader loader ->
  (train_steps cfg <= Z.of_nat fuel)%Z ->
  exists st0 st',
    initial_state cfg = Ok st0
    /\ good (vae st0)
    /\ train_loop fuel cfg val_loader loader 0 st0 = Some (Ok st')
    /\ main fuel cfg val_loader loader = Some (Ok st')
    /\ run_invariant good cfg st'
    /\ global_step st' = Z.max 0 (train_steps cfg).
Proof.
  intros Hreg Hfuel.
  destruct (AutoencoderKL_init_ok 3) as [m0 E0].
  pose proof Hreg as (_ & _ & _ & _ & _ & Hload & _).
  destruct (Hload m0 E0) as (m1 & E1 & Hgood1).
  assert (exists st0, initial_state cfg = Ok st0
                      /\ vae st0 = m1 /\ global_step st0 = 0%Z
                      /\ saved st0 = []) as (st0 & Hst0 & Hv0 & Hg0 & Hs0).
  { unfold initial_state. rewrite E0. cbn [bind]. rewrite E1. cbn [bind].
    eexists. repeat split. }
  assert (run_invariant good cfg st0) as Hinv.
  { unfold run_invariant, expected_paths. rewrite Hv0, Hg0, Hs0. cbn.
    split; [lia|]. split; [assumption|].
    now destruct (is_local_main_process cfg). }
  destruct (train_loop_runs cfg val_loader loader good Hreg fuel 0 st0 Hinv)
    as (st' & E & Hinv' & Hg).
  { rewrite Hg0. lia. }
  exists st0, st'. split; [exact Hst0|]. split; [now rewrite Hv0|].
  split; [exact E|]. split.
  - unfold main. now rewrite Hst0.
  - split; [exact Hinv'|]. now rewrite Hg, Hg0.
Qed.

(** C9.  In a regular run, one with non-zero logging, checkpoint, image and
    validation intervals, a loader that yields at least one batch per pass,
    a state dict that loads, and batches whose forward pass and loss the
    framework computes, the run ends after [train_steps] steps, and the
    checkpoint files the local main process has written are, latest first,
    exactly those named after the steps [g] of the run with [0 < g] and
    [g % ckpt_every == 0]; at no other step is a checkpoint written, and a
    process that is not the local main process writes none.  Step by step,
    in any run: a training step that goes through and makes the counter [g]
    writes the state dict of the model it has just updated when
    [g % ckpt_every == 0], and nothing otherwise. *)
Theorem checkpoints_at_multiples_of_ckpt_every `{TR : Trainer}
  (cfg : Config) (val_loader : list tensor) (loader : nat -> list (tensor * Z))
  (fuel : nat) :
  regular_run cfg val_loader loader ->
  (train_steps cfg <= Z.of_nat fuel)%Z ->
  exists st',
    main fuel cfg val_loader loader = Some (Ok st')
    /\ global_step st' = Z.max 0 (train_steps cfg)
    /\ map fst (saved st')
       = (if is_local_main_process cfg
          then map (ckpt_path (ckpt_dir cfg))
                 (due_steps (ckpt_every cfg) (Z.to_nat (train_steps cfg)))
          else [])
    /\ (forall g,
          In g (due_steps (ckpt_every cfg) (Z.to_nat (train_steps cfg)))
          <-> (0 < g <= train_steps cfg)%Z /\ (g mod ckpt_every cfg = 0)%Z)
    /\ (forall st batch random_start st1,
          (0 <= global_step st)%Z ->
          train_batch cfg val_loader st batch random_start = Ok st1 ->
          global_step st1 = (global_step st + 1)%Z
          /\ saved st1
             = (if (global_step st1 mod ckpt_every cfg =? 0)%Z
                   && is_local_main_process cfg
                then [(ckpt_path (ckpt_dir cfg) (global_step st1),
                       state_dict "module." (vae st1))]
                else []) ++ saved st).
Proof.
  intros [good Hreg] Hfuel.
  destruct (main_runs good cfg val_loader loader fuel Hreg Hfuel)
    as (st0 & st' & _ & _ & _ & E & (_ & _ & Hs) & Hg).
  exists st'. split; [exact E|]. split; [exact Hg|]. split.
  - rewrite Hs, Hg. unfold expected_paths.
    destruct (is_local_main_process cfg); [|reflexivity].
    destruct (Z.max_spec 0 (train_steps cfg)) as [[_ ->]|[Hle ->]];
      [reflexivity|].
    replace (Z.to_nat (train_steps cfg)) with (Z.to_nat 0) by lia. reflexivity.
  - split; [intros g; rewrite due_steps_spec; lia|].
    intros st batch random_start st1 Hg0 H1.
    destruct (train_batch_checkpoint cfg val_loader st st1 batch random_start
                H1 Hg0) as [Hstep Hsaved].
    split; [exact Hstep|]. rewrite Hstep. exact Hsaved.
Qed.

(** ** The demonstration run in the shape interpretation *)

Lemma forward_loss_shape (m : AutoencoderKL (TT := ShapeTorch))
  (n d h w : nat) :
  AutoencoderKL_init 3 = Ok m ->
  8 <= d -> d mod 8 = 0 -> 8 <= h -> h mod 8 = 0 -> 8 <= w -> w mod 8 = 0 ->
  forward_loss (TT := ShapeTorch) m (Some [n; 1; d; h; w])
  = Ok (Some [n; 1; d; h; w], Some []).
Proof.
  intros Hm Hd Hd8 Hh Hh8 Hw Hw8. unfold forward_loss.
  rewrite (encode_shape m n 1 d h w Hm).
  replace (8 <=? d) with true by (symmetry; apply Nat.leb_le; lia).
  replace (8 <=? h) with true by (symmetry; apply Nat.leb_le; lia).
  replace (8 <=? w) with true by (symmetry; apply Nat.leb_le; lia).
  cbn [Nat.eqb andb bind returned_obj returned rejected ShapeTorch].
  rewrite (decode_shape m n 3 (d / 8) (h / 8) (w / 8) Hm).
  replace (d / 8 =? 0) with false by (symmetry; apply Nat.eqb_neq; div_lia).
  replace (h / 8 =? 0) with false by (symmetry; apply Nat.eqb_neq; div_lia).
  replace (w / 8 =? 0) with false by (symmetry; apply Nat.eqb_neq; div_lia).
  cbn [Nat.eqb andb negb bind tensor_arg returned rejected ShapeTorch].
  replace (8 * (d / 8)) with d by div_lia.
  replace (8 * (h / 8)) with h by div_lia.
  replace (8 * (w / 8)) with w by div_lia.
  cbn [mse_loss ShapeTorch]. unfold shape_mse_loss.
  rewrite shape_broadcast_refl. reflexivity.
Qed.

(** Lines 273 to 285 go through for a batch [b h w z 1] with [h] and [w]
    positive multiples of 8 and a crop that lies inside the [z] axis. *)
Lemma train_forward_shape (cfg : Config (TR := ShapeTrainer))
  (st : TrainState (TR := ShapeTrainer)) (b h w z : nat) (r : Z) :
  AutoencoderKL_init 3 = Ok (vae st) -> distributed cfg = true ->
  (0 <= r)%Z -> (r + 128 <= Z.of_nat z)%Z ->
  8 <= h -> h mod 8 = 0 -> 8 <= w -> w mod 8 = 0 ->
  train_forward cfg st (Some [b; h; w; z; 1]) r
  = Ok (Some [b; 1; h; w; 128], Some [b; 1; h; w; 128], Some []).
Proof.
  intros Hm Hdist Hr Hz Hh Hh8 Hw Hw8. unfold train_forward, vae_module.
  rewrite Hdist.
  assert (crop_batch (TR := ShapeTrainer) (Some [b; h; w; z; 1]) r
          = Some [b; 1; h; w; 128]) as ->.
  { unfold crop_batch. cbn [rearrange crop_last ShapeTrainer shape_rearrange
                             shape_crop_last].
    unfold slice_len.
    replace (r + 128 <? 0)%Z with false by (symmetry; lia).
    replace (r <? 0)%Z with false by (symmetry; lia).
    do 6 f_equal. lia. }
  cbn [rearrange ShapeTrainer shape_rearrange returned rejected ShapeTorch bind].
  rewrite (forward_loss_shape (vae st) b h w 128 Hm) by (assumption || lia || reflexivity).
  reflexivity.
Qed.

Lemma val_forward_shape (cfg : Config (TR := ShapeTrainer))
  (st : TrainState (TR := ShapeTrainer)) (b h w z : nat) :
  AutoencoderKL_init 3 = Ok (vae st) -> distributed cfg = true ->
  144 <= z ->
  8 <= h -> h mod 8 = 0 -> 8 <= w -> w mod 8 = 0 ->
  val_forward cfg st (Some [b; h; w; z; 1])
  = Ok (Some [b; 1; h; w; 128], Some [b; 1; h; w; 128], Some []).
Proof.
  intros Hm Hdist Hz Hh Hh8 Hw Hw8. unfold val_forward, vae_module.
  rewrite Hdist.
  cbn [rearrange crop_last ShapeTrainer shape_rearrange shape_crop_last
       returned rejected ShapeTorch bind].
  replace (slice_len 16 144 z) with 128
    by (unfold slice_len; change (144 <? 0)%Z with false;
        change (16 <? 0)%Z with false; cbv beta iota zeta; lia).
  rewrite (forward_loss_shape (vae st) b h w 128 Hm) by (assumption || lia || reflexivity).
  reflexivity.
Qed.

(** A run in the shape interpretation is regular when its intervals are
    not zero, no pass is empty, and every batch has [h] and [w] positive
    multiples of 8 and a [z] axis that holds the crop. *)
Lemma shape_run_regular (cfg : Config (TR := ShapeTrainer))
  (val_loader : list (tensor (Torch := ShapeTorch)))
  (loader : nat -> list (tensor (Torch := ShapeTorch) * Z)) :
  log_every cfg <> 0%Z -> ckpt_every cfg <> 0%Z ->
  image_every cfg <> 0%Z -> val_every cfg <> 0%Z ->
  distributed cfg = true ->
  (forall pass, loader pass <> []) ->
  (forall pass batch r, In (batch, r) (loader pass) ->
     exists b h w z,
       batch = Some [b; h; w; z; 1]
       /\ (0 <= r)%Z /\ (r + 128 <= Z.of_nat z)%Z
       /\ 8 <= h /\ h mod 8 = 0 /\ 8 <= w /\ w mod 8 = 0) ->
  (forall v, In v val_loader ->
     exists b h w z,
       v = Some [b; h; w; z; 1]
       /\ 144 <= z /\ 8 <= h /\ h mod 8 = 0 /\ 8 <= w /\ w mod 8 = 0) ->
  regular_run cfg val_loader loader.
Proof.
  intros Hl Hc Hi Hv Hdist Hne Htrain Hval.
  exists (fun m => AutoencoderKL_init 3 = Ok m).
  repeat split; try assumption.
  - intros m0 E. exists m0. now split.
  - intros o g m H. exact H.
  - intros st pass batch r Hgood Hin.
    destruct (Htrain pass batch r Hin)
      as (b & h & w & z & -> & Hr & Hz & Hh & Hh8 & Hw & Hw8).
    eexists. now apply train_forward_shape.
  - intros st v Hgood Hin.
    destruct (Hval v Hin) as (b & h & w & z & -> & Hz & Hh & Hh8 & Hw & Hw8).
    eexists. now apply val_forward_shape.
Qed.

Lemma demo_loader_fits (pass : nat) (batch : tensor (Torch := ShapeTorch))
  (r : Z) :
  In (batch, r) (demo_loader pass) ->
  exists b h w z,
    batch = Some [b; h; w; z; 1]
    /\ (0 <= r)%Z /\ (r + 128 <= Z.of_nat z)%Z
    /\ 8 <= h /\ h mod 8 = 0 /\ 8 <= w /\ w mod 8 = 0.
Proof.
  unfold demo_loader, demo_batch. cbn [In].
  intros [H|[H|[H|[]]]]; injection H as <- <-; exists 1, 8, 16, 160;
    repeat split; lia.
Qed.

Lemma demo_val_loader_fits (v : tensor (Torch := ShapeTorch)) :
  In v [demo_batch] ->
  exists b h w z,
    v = Some [b; h; w; z; 1]
    /\ 144 <= z /\ 8 <= h /\ h mod 8 = 0 /\ 8 <= w /\ w mod 8 = 0.
Proof.
  intros [<-|[]]. exists 1, 8, 16, 160. repeat split; lia.
Qed.

(** The run [demo_cfg] is regular. *)
Lemma demo_run_regular : regular_run demo_cfg [demo_batch] demo_loader.
Proof.
  apply shape_run_regular; try discriminate; try reflexivity.
  - exact demo_loader_fits.
  - exact demo_val_loader_fits.
Qed.

Lemma demo_other_run_regular :
  regular_run demo_cfg_other [demo_batch] demo_loader.
Proof.
  apply shape_run_regular; try discriminate; try reflexivity.
  - exact demo_loader_fits.
  - exact demo_val_loader_fits.
Qed.

(** [checkpoints_at_multiples_of_ckpt_every] at the run [demo_cfg]: four
    steps, checkpoints at steps 2 and 4. *)
Lemma checkpoints_at_multiples_of_ckpt_every_witness :
  exists st',
    main 4 demo_cfg [demo_batch] demo_loader = Some (Ok st')
    /\ global_step st' = 4%Z
    /\ map fst (saved st')
       = [ "exp/checkpoints/0000004_gradvae.pt";
           "exp/checkpoints/0000002_gradvae.pt" ].
Proof.
  destruct (checkpoints_at_multiples_of_ckpt_every demo_cfg [demo_batch]
              demo_loader 4) as (st' & E & Hg & Hs & _).
  - exact demo_run_regular.
  - cbn. lia.
  - exists st'. split; [exact E|]. split; [exact Hg|exact Hs].
Defined.

(** A batch that the framework rejects ends the run at its step: the crop
    of a [z] axis of 100 at offset 23 is 77 deep, its reconstruction 72,
    and [mse_loss] raises; no checkpoint is written. *)
Example rejected_batch_ends_the_run :
  main 4 demo_cfg [demo_batch] (fun _ => [(Some [1; 8; 16; 100; 1], 23%Z)])
  = Some (Raise TorchError).
Proof. vm_compute. reflexivity. Qed.

(** A run of one process ends at [vae.module] in its first step. *)
Example bare_model_has_no_module :
  main 4
    {| learning_rate := tt; train_steps := 4; log_every := 1; ckpt_every := 2;
       image_every := 3; val_every := 2; is_local_main_process := true;
       distributed := false; ckpt_dir := "exp/checkpoints" |}
    [demo_batch] demo_loader
  = Some (Raise (AttributeError "module")).
Proof. vm_compute. reflexivity. Qed.

(** [training_loss_is_mse] at the first batch of the run [demo_cfg]. *)
Lemma training_loss_is_mse_witness :
  exists st st' : TrainState (TR := ShapeTrainer),
    initial_state demo_cfg = Ok st
    /\ train_batch demo_cfg [demo_batch] st demo_batch 5 = Ok st'
    /\ vae_grad st'
       = Some (backward (loss_graph (crop_batch demo_batch 5)) (vae st) None).
Proof.
  destruct (initial_state demo_cfg) as [st|] eqn:E0; [|discriminate E0].
  exists st.
  assert (AutoencoderKL_init 3 = Ok (vae st)) as Hm.
  { apply initial_state_inv in E0 as (m0 & Hm0 & Hload & _).
    injection Hload as <-. exact Hm0. }
  destruct (train_batch_ok (fun m => AutoencoderKL_init 3 = Ok m)
              demo_cfg [demo_batch] st demo_batch 5) as [st' E].
  - discriminate.
  - discriminate.
  - discriminate.
  - discriminate.
  - exact Hm.
  - intros o g m H. exact H.
  - intros s v Hs Hv.
    destruct (demo_val_loader_fits v Hv)
      as (b & h & w & z & -> & Hz & Hh & Hh8 & Hw & Hw8).
    eexists. now apply val_forward_shape.
  - eexists. apply train_forward_shape; try (reflexivity || lia). exact Hm.
  - exists st'. split; [reflexivity|]. split; [exact E|].
    exact (proj1 (proj2 (training_loss_is_mse _ _ _ _ _ _ E))).
Defined.

(** C3 (as stated, refuted).  Two training states at step 2 that hold the
    same model and differ in the optimizer state and in both loss buffers
    write the same checkpoint file, name and content: the file holds none
    of the three. *)
Lemma checkpoint_omits_optimizer_and_buffers :
  exists m : AutoencoderKL (TT := ShapeTorch),
    AutoencoderKL_init 3 = Ok m
    /\ exists st1' st2',
         save_checkpoint demo_cfg (demo_state m 2 [tt] [tt; tt]) = Ok st1'
         /\ save_checkpoint demo_cfg (demo_state m 7 [] [tt]) = Ok st2'
         /\ saved st1' = saved st2'
         /\ map fst (saved st1') = ["exp/checkpoints/0000002_gradvae.pt"]
         /\ opt_vae (demo_state m 2 [tt] [tt; tt]) <> opt_vae (demo_state m 7 [] [tt])
         /\ step_loss (demo_state m 2 [tt] [tt; tt]) <> step_loss (demo_state m 7 [] [tt])
         /\ epoch_loss (demo_state m 2 [tt] [tt; tt])
            <> epoch_loss (demo_state m 7 [] [tt]).
Proof.
  destruct (AutoencoderKL_init (TT := ShapeTorch) 3) as [m|] eqn:E0;
    [|discriminate E0].
  exists m. split; [reflexivity|]. do 2 eexists.
  split; [reflexivity|]. split; [reflexivity|]. split; [reflexivity|].
  split; [reflexivity|]. repeat split; discriminate.
Qed.

(** [checkpoint_is_model_state_dict] at a state of step 2 of [demo_cfg]. *)
Lemma checkpoint_is_model_state_dict_witness :
  exists (m : AutoencoderKL (TT := ShapeTorch)) (st' : TrainState (TR := ShapeTrainer)),
    AutoencoderKL_init 3 = Ok m
    /\ save_checkpoint demo_cfg (demo_state m 2 [tt] [tt; tt]) = Ok st'
    /\ saved st'
       = [("exp/checkpoints/0000002_gradvae.pt", state_dict "module." m)].
Proof.
  destruct (AutoencoderKL_init (TT := ShapeTorch) 3) as [m|] eqn:E0;
    [|discriminate E0].
  exists m.
  destruct (save_checkpoint demo_cfg (demo_state m 2 [tt] [tt; tt])) as [st'|] eqn:E;
    [|discriminate E].
  exists st'. split; [reflexivity|]. split; [reflexivity|].
  exact (proj1 (checkpoint_is_model_state_dict demo_cfg _ st' E)).
Defined.

(** ** State dicts and the key renaming of lines 216 to 222 *)

Lemma append_assoc (a b c : string) :
  String.append (String.append a b) c = String.append a (String.append b c).
Proof. induction a as [|x a IH]; cbn [String.append]; [reflexivity|now rewrite IH]. Qed.

Lemma append_nil_r (a : string) : String.append a "" = a.
Proof. induction a as [|x a IH]; cbn [String.append]; [reflexivity|now rewrite IH]. Qed.

Lemma append_inj_l (p a b : string) :
  String.append p a = String.append p b -> a = b.
Proof.
  induction p as [|x p IH]; cbn [String.append]; intros H; [exact H|].
  injection H as H. now apply IH.
Qed.

Lemma substring_0_length (s : string) : String.substring 0 (String.length s) s = s.
Proof. induction s as [|x s IH]; cbn [String.substring String.length]; [reflexivity|now rewrite IH]. Qed.

Lemma new_key_vae (s : string) : new_key (String.append "vae." s) = s.
Proof.
  unfold new_key. cbn [String.append String.prefix String.length].
  repeat (destruct (ascii_dec _ _) as [_|Hne]; [|now contradiction Hne]).
  replace (String.prefix "" s) with true by (now destruct s).
  cbn [Nat.sub String.substring]. rewrite Nat.sub_0_r.
  apply substring_0_length.
Qed.

Section StateDictFacts.
Context `{TT : Torch}.

Lemma Conv3d_state_dict_prefix (p q : string) (c : Conv3d) :
  Conv3d_state_dict (String.append p q) c
  = map (add_prefix p) (Conv3d_state_dict q c).
Proof.
  unfold Conv3d_state_dict, add_prefix. cbn [map fst snd].
  now rewrite !append_assoc.
Qed.

Lemma GroupNorm_state_dict_prefix (p q : string) (g : GroupNorm) :
  GroupNorm_state_dict (String.append p q) g
  = map (add_prefix p) (GroupNorm_state_dict q g).
Proof.
  unfold GroupNorm_state_dict, add_prefix. cbn [map fst snd].
  now rewrite !append_assoc.
Qed.

Lemma Block_state_dict_prefix (p q : string) (b : Block) :
  Block_state_dict (String.append p q) b
  = map (add_prefix p) (Block_state_dict q b).
Proof.
  destruct b as [c|rb|d|u|g]; cbn [Block_state_dict].
  - apply Conv3d_state_dict_prefix.
  - unfold ResBlock_state_dict. rewrite !map_app, !append_assoc.
    rewrite !GroupNorm_state_dict_prefix, !Conv3d_state_dict_prefix.
    destruct (nin_shortcut rb); [|reflexivity].
    now rewrite Conv3d_state_dict_prefix.
  - rewrite append_assoc. apply Conv3d_state_dict_prefix.
  - rewrite append_assoc. apply Conv3d_state_dict_prefix.
  - apply GroupNorm_state_dict_prefix.
Qed.

Lemma blocks_state_dict_prefix (p q : string) (blocks : list Block) :
  forall i,
    blocks_state_dict (String.append p q) i blocks
    = map (add_prefix p) (blocks_state_dict q i blocks).
Proof.
  induction blocks as [|b rest IH]; intros i; [reflexivity|].
  cbn [blocks_state_dict]. rewrite map_app, append_assoc.
  now rewrite Block_state_dict_prefix, IH.
Qed.

Lemma state_dict_prefix (p : string) (m : AutoencoderKL) :
  state_dict p m = map (add_prefix p) (state_dict "" m).
Proof.
  rewrite <- (append_nil_r p) at 1. unfold state_dict.
  rewrite !map_app, !append_assoc.
  now rewrite !blocks_state_dict_prefix, !Conv3d_state_dict_prefix.
Qed.

Lemma state_dict_keys (e : nat) (m : AutoencoderKL) :
  AutoencoderKL_init e = Ok m -> map fst (state_dict "" m) = model_keys.
Proof.
  intros H. apply AutoencoderKL_init_layout in H as (He & Hd & Hmu & Hls & Hpq).
  unfold state_dict. rewrite He, Hd, Hmu, Hls, Hpq.
  vm_compute. reflexivity.
Qed.

End StateDictFacts.

Lemma model_keys_NoDup : NoDup model_keys.
Proof.
  assert (nodup string_dec model_keys = model_keys) as <-
    by (vm_compute; reflexivity).
  apply NoDup_nodup.
Qed.

Section Renaming.
Context {V : Type}.

Lemma dict_set_fresh (d : list (string * V)) (k : string) (v : V) :
  ~ In k (map fst d) -> dict_set d k v = d ++ [(k, v)].
Proof.
  induction d as [|[k' v'] rest IH]; intros Hk; [reflexivity|].
  cbn [dict_set app map fst In] in *.
  destruct (String.eqb_spec k' k) as [->|Hne]; [exfalso; apply Hk; now left|].
  rewrite IH; [reflexivity|]. intros H. apply Hk. now right.
Qed.

Lemma dict_set_length (d : list (string * V)) (k : string) (v : V) :
  length (dict_set d k v) <= S (length d)
  /\ length d <= length (dict_set d k v).
Proof.
  induction d as [|[k' v'] rest IH]; cbn [dict_set length]; [lia|].
  destruct (String.eqb k' k); cbn [length]; lia.
Qed.

Lemma dict_set_keys (d : list (string * V)) (k : string) (v : V) (x : string) :
  In x (map fst (dict_set d k v)) <-> In x (map fst d) \/ x = k.
Proof.
  induction d as [|[k' v'] rest IH]; cbn [dict_set map fst In].
  - split; [intros [H|[]]; now right|intros [[]|H]; now left].
  - destruct (String.eqb_spec k' k) as [->|Hne]; cbn [map fst In].
    + split; [intros [H|H]; [left; now left|left; now right]|].
      intros [[H|H]|H]; [now left|now right|left; now symmetry].
    + rewrite IH. tauto.
Qed.

Lemma strip_vae_prefix_fold (d : list (string * V)) :
  strip_vae_prefix d = fold_left rename_step d [].
Proof.
  unfold strip_vae_prefix. generalize (@nil (string * V)) as acc.
  induction d as [|[k v] rest IH]; intros acc; [reflexivity|].
  cbn [fold_left]. rewrite IH. f_equal.
  unfold rename_step, new_key. cbn [fst snd].
  now destruct (String.prefix "vae." k).
Qed.

Lemma fold_rename_fresh (d : list (string * V)) :
  forall acc,
    NoDup (map fst acc ++ map (fun kv => new_key (fst kv)) d) ->
    fold_left rename_step d acc
    = acc ++ map (fun kv => (new_key (fst kv), snd kv)) d.
Proof.
  induction d as [|[k v] rest IH]; intros acc Hnd.
  - cbn [fold_left map]. now rewrite app_nil_r.
  - cbn [fold_left map fst snd] in *. unfold rename_step at 2. cbn [fst snd].
    pose proof (NoDup_remove_2 _ _ _ Hnd) as Hfresh.
    rewrite dict_set_fresh
      by (intros H; apply Hfresh, in_or_app; now left).
    rewrite IH.
    + now rewrite <- app_assoc.
    + rewrite map_app, <- app_assoc. exact Hnd.
Qed.

Lemma fold_rename_length (d : list (string * V)) :
  forall acc, length (fold_left rename_step d acc) <= length acc + length d.
Proof.
  induction d as [|kv rest IH]; intros acc; cbn [fold_left length]; [lia|].
  specialize (IH (rename_step acc kv)).
  pose proof (dict_set_length acc (new_key (fst kv)) (snd kv)) as [H _].
  unfold rename_step in *. lia.
Qed.

Lemma fold_rename_keys (d : list (string * V)) :
  forall acc x,
    In x (map fst (fold_left rename_step d acc))
    <-> In x (map fst acc) \/ In x (map (fun kv => new_key (fst kv)) d).
Proof.
  induction d as [|kv rest IH]; intros acc x; cbn [fold_left map In].
  - tauto.
  - rewrite IH. unfold rename_step. rewrite dict_set_keys.
    split; [intros [[H|H]|H]|intros [H|[H|H]]]; auto.
Qed.

End Renaming.

(** X9.  The renaming loop of lines 216 to 222 strips one leading [vae.]
    from every key and keeps the other keys.  Its result has exactly the
    renamed keys, is never longer than its input, and when the renamed
    keys are pairwise different it is the input with every key renamed,
    in order.  A key [vae.s] and a later key [s] collapse into one entry,
    which keeps the later value. *)
Theorem strip_vae_prefix_spec {V : Type} (d : list (string * V)) :
  (forall x, In x (map fst (strip_vae_prefix d))
             <-> In x (map (fun kv => new_key (fst kv)) d))
  /\ length (strip_vae_prefix d) <= length d
  /\ (NoDup (map (fun kv => new_key (fst kv)) d) ->
      strip_vae_prefix d = map (fun kv => (new_key (fst kv), snd kv)) d)
  /\ (forall (s : string) (v1 v2 : V),
         new_key (String.append "vae." s) = s
         /\ (String.prefix "vae." s = false ->
             strip_vae_prefix [(String.append "vae." s, v1); (s, v2)]
             = [(s, v2)])).
Proof.
  rewrite strip_vae_prefix_fold. split; [|split; [|split]].
  - intros x. rewrite fold_rename_keys. cbn [map In]. tauto.
  - apply (fold_rename_length d []).
  - intros Hnd. now rewrite fold_rename_fresh.
  - intros s v1 v2. split; [apply new_key_vae|]. intros Hs.
    rewrite strip_vae_prefix_fold. cbn [fold_left]. unfold rename_step.
    cbn [fst snd]. rewrite new_key_vae. cbn [dict_set].
    unfold new_key. rewrite Hs, String.eqb_refl. reflexivity.
Qed.

Lemma strip_vae_prefix_spec_witness :
  strip_vae_prefix [("vae.encoder.weight", 1); ("decoder.bias", 2)]
  = [("encoder.weight", 1); ("decoder.bias", 2)]
  /\ strip_vae_prefix [("vae.a", 1); ("a", 2)] = [("a", 2)].
Proof.
  split.
  - apply (proj1 (proj2 (proj2 (strip_vae_prefix_spec
             [("vae.encoder.weight", 1); ("decoder.bias", 2)])))).
    repeat constructor; cbn; intuition discriminate.
  - reflexivity.
Defined.

Lemma new_key_module (s : string) :
  new_key (String.append "module." s) = String.append "module." s.
Proof. reflexivity. Qed.

Lemma model_keys_not_prefixed :
  forall k, In k model_keys -> new_key k = k.
Proof.
  assert (forallb (fun k => String.eqb (new_key k) k) model_keys = true) as H
    by (vm_compute; reflexivity).
  intros k Hk. rewrite forallb_forall in H. now apply String.eqb_eq, H.
Qed.

Lemma module_keys_NoDup : NoDup (map (String.append "module.") model_keys).
Proof.
  assert (nodup string_dec (map (String.append "module.") model_keys)
          = map (String.append "module.") model_keys) as <-
    by (vm_compute; reflexivity).
  apply NoDup_nodup.
Qed.

Lemma module_keys_disjoint :
  forall k, In k (map (String.append "module.") model_keys) -> ~ In k model_keys.
Proof.
  assert (forallb (fun k => negb (existsb (String.eqb k) model_keys))
            (map (String.append "module.") model_keys) = true) as H
    by (vm_compute; reflexivity).
  intros k Hk Hin. rewrite forallb_forall in H. specialize (H k Hk).
  apply negb_true_iff in H.
  assert (existsb (String.eqb k) model_keys = true) as E.
  { apply existsb_exists. exists k. split; [assumption|apply String.eqb_refl]. }
  congruence.
Qed.

Lemma map_fst_add_prefix {V : Type} (p : string) (d : list (string * V)) :
  map fst (map (add_prefix p) d) = map (String.append p) (map fst d).
Proof. rewrite !map_map. reflexivity. Qed.

(** X10.  For the model [AutoencoderKL(embed_dim)] the state dict has 162
    pairwise different parameter names, among them those of the log-sigma
    head that [encode] never uses.  The renaming loop turns a state dict
    whose names are under [vae.] into the model's own, and leaves the
    model's own as it is.  It also leaves a checkpoint written by the
    training loop as it is: all its names are under [module.], and none of
    them is a name of the model, so that loading it back with
    [strict=True] finds every key unexpected and every parameter
    missing. *)
Theorem state_dict_renaming `{TT : Torch} (e : nat) (m : AutoencoderKL) :
  AutoencoderKL_init e = Ok m ->
  length (state_dict "" m) = 162
  /\ NoDup (map fst (state_dict "" m))
  /\ In "quant_conv_log_sigma.weight" (map fst (state_dict "" m))
  /\ strip_vae_prefix (state_dict "vae." m) = state_dict "" m
  /\ strip_vae_prefix (state_dict "" m) = state_dict "" m
  /\ strip_vae_prefix (state_dict "module." m) = state_dict "module." m
  /\ (forall k, In k (map fst (state_dict "module." m)) ->
                ~ In k (map fst (state_dict "" m))).
Proof.
  intros Hm. pose proof (state_dict_keys e m Hm) as Hkeys.
  assert (forall (p : string) (f : string -> string),
             (forall k, In k model_keys -> new_key (String.append p k) = f k) ->
             NoDup (map f model_keys) ->
             strip_vae_prefix (state_dict p m)
             = map (fun kv => (f (fst kv), snd kv)) (state_dict "" m)) as Hstrip.
  { intros p f Hf Hnd.
    rewrite strip_vae_prefix_fold, fold_rename_fresh; cbn [map app].
    - rewrite (state_dict_prefix p m), map_map. apply map_ext_in.
      intros [k v] Hin. cbn [add_prefix fst snd]. f_equal. apply Hf.
      rewrite <- Hkeys. change k with (fst (k, v)). now apply in_map.
    - rewrite (state_dict_prefix p m), map_map.
      replace (map (fun x => new_key (fst (add_prefix p x))) (state_dict "" m))
        with (map f (map fst (state_dict "" m))).
      + now rewrite Hkeys.
      + rewrite map_map. apply map_ext_in. intros [k v] Hin.
        cbn [add_prefix fst snd]. symmetry. apply Hf.
        rewrite <- Hkeys. change k with (fst (k, v)). now apply in_map. }
  assert (forall d : list (string * tensor),
             map (fun kv => (fst kv, snd kv)) d = d) as Hid.
  { intros d. rewrite <- (map_id d) at 2. apply map_ext. now intros [k v]. }
  split.
  { rewrite <- (length_map fst), Hkeys. reflexivity. }
  split; [rewrite Hkeys; apply model_keys_NoDup|].
  split.
  { rewrite Hkeys. vm_compute. tauto. }
  split.
  { rewrite (Hstrip "vae." (fun k => k)).
    - apply Hid.
    - intros k _. apply new_key_vae.
    - rewrite map_id. apply model_keys_NoDup. }
  split.
  { rewrite (Hstrip "" (fun k => k)).
    - apply Hid.
    - intros k Hk. now apply model_keys_not_prefixed.
    - rewrite map_id. apply model_keys_NoDup. }
  split.
  { rewrite (Hstrip "module." (String.append "module.")).
    - rewrite (state_dict_prefix "module." m). reflexivity.
    - intros k _. apply new_key_module.
    - apply module_keys_NoDup. }
  intros k Hk. rewrite Hkeys.
  rewrite (state_dict_prefix "module." m), map_fst_add_prefix, Hkeys in Hk.
  now apply module_keys_disjoint.
Qed.

Lemma state_dict_renaming_witness :
  exists m : AutoencoderKL (TT := ShapeTorch),
    AutoencoderKL_init 3 = Ok m
    /\ strip_vae_prefix (state_dict "vae." m) = state_dict "" m.
Proof.
  destruct (AutoencoderKL_init (TT := ShapeTorch) 3) as [m|] eqn:E;
    [|discriminate E].
  exists m. split; [reflexivity|].
  exact (proj1 (proj2 (proj2 (proj2 (state_dict_renaming 3 m E))))).
Defined.

(** ** The training loop as a whole *)

Section LoopFacts.
Context `{TR : Trainer}.

Lemma log_loss_fields (cfg : Config) (st st' : TrainState) :
  log_loss cfg st = Ok st' ->
  vae_training st' = vae_training st
  /\ step_loss st'
     = (if (global_step st mod log_every cfg =? 0)%Z && (global_step st >? 0)%Z
        then [] else step_loss st)
  /\ (is_local_main_process cfg = false -> writer st' = writer st).
Proof.
  unfold log_loss. intros H.
  destruct (py_mod _ _) as [r|] eqn:E; cbn [bind] in H; [|discriminate].
  apply py_mod_inv in E as [_ ->].
  destruct (_ && _); [destruct (is_local_main_process cfg)|];
    injection H as <-; repeat split; intros; discriminate.
Qed.

Lemma log_images_fields (cfg : Config) (grad z_pred : tensor)
  (st st' : TrainState) :
  log_images cfg grad z_pred st = Ok st' ->
  step_loss st' = step_loss st
  /\ (vae_training st = true -> vae_training st' = true)
  /\ (is_local_main_process cfg = false -> writer st' = writer st).
Proof.
  unfold log_images. intros H.
  destruct (py_mod _ _) as [r|]; cbn [bind] in H; [|discriminate].
  destruct (_ || _); [destruct (is_local_main_process cfg)|];
    injection H as <-; repeat split; intros; (discriminate || assumption).
Qed.

Lemma validate_batches_fields (cfg : Config) (val_loader : list tensor) :
  forall st l1 l2 st' l1' l2',
    validate_batches cfg val_loader (st, l1, l2) = Ok (st', l1', l2') ->
    step_loss st' = step_loss st
    /\ (is_local_main_process cfg = false -> writer st' = writer st).
Proof.
  induction val_loader as [|g rest IH]; intros st l1 l2 st' l1' l2' H.
  - injection H as <- _ _. now split.
  - cbn [validate_batches] in H.
    destruct (validate_batch cfg (st, l1, l2) g) as [[[st1 a1] b1]|] eqn:E;
      cbn [bind] in H; [|discriminate].
    apply IH in H as [H1 H2].
    unfold validate_batch in E.
    destruct (val_forward cfg st g) as [[[val_gt z_pred] loss]|];
      cbn [bind] in E; [|discriminate].
    destruct (is_local_main_process cfg) eqn:Em; injection E as <- _ _.
    + split; [exact H1|intros; discriminate].
    + split; [exact H1|]. intros _. now rewrite H2.
Qed.

Lemma validate_fields (cfg : Config) (val_loader : list tensor)
  (st st' : TrainState) :
  validate cfg val_loader st = Ok st' ->
  step_loss st' = step_loss st
  /\ (vae_training st = true -> vae_training st' = true)
  /\ (is_local_main_process cfg = false -> writer st' = writer st).
Proof.
  unfold validate. intros H.
  destruct (py_mod _ _) as [r|]; cbn [bind] in H; [|discriminate].
  destruct (_ && _); [|injection H as <-; repeat split; intros; assumption].
  destruct (validate_batches _ _ _) as [[[st1 a1] b1]|] eqn:E; cbn [bind] in H;
    [|discriminate].
  apply validate_batches_fields in E as [H1 H2]. cbn in H1, H2.
  destruct (is_local_main_process cfg) eqn:Em; injection H as <-; cbn.
  - repeat split; [assumption|intros; discriminate].
  - repeat split; [assumption|]. intros _. now apply H2.
Qed.

(** A property kept by every training step and by the end of every pass
    holds when the loop ends. *)
Lemma train_epoch_invariant (P : TrainState -> Prop) (cfg : Config)
  (val_loader : list tensor) :
  (forall st batch r st',
      P st -> train_batch cfg val_loader st batch r = Ok st' -> P st') ->
  forall batches st st',
    P st -> train_epoch cfg val_loader batches st = Ok st' -> P st'.
Proof.
  intros Hstep. induction batches as [|[batch r] rest IH]; intros st st' HP H.
  - injection H as <-. exact HP.
  - cbn [train_epoch] in H.
    destruct (train_batch cfg val_loader st batch r) as [s1|] eqn:E;
      cbn [bind] in H; [|discriminate].
    pose proof (Hstep _ _ _ _ HP E) as HP1.
    destruct (global_step s1 =? train_steps cfg)%Z.
    + injection H as <-. exact HP1.
    + now apply (IH s1 st').
Qed.

Lemma train_loop_invariant (P : TrainState -> Prop) (cfg : Config)
  (val_loader : list tensor) (loader : nat -> list (tensor * Z)) :
  (forall st batch r st',
      P st -> train_batch cfg val_loader st batch r = Ok st' -> P st') ->
  (forall st, P st -> P (end_epoch cfg st)) ->
  forall fuel pass st st',
    P st -> train_loop fuel cfg val_loader loader pass st = Some (Ok st') ->
    P st'.
Proof.
  intros Hstep Hend. induction fuel as [|fuel IH]; intros pass st st' HP H.
  - cbn [train_loop] in H.
    destruct (global_step st <? train_steps cfg)%Z; [discriminate|].
    injection H as <-. exact HP.
  - cbn [train_loop] in H.
    destruct (global_step st <? train_steps cfg)%Z;
      [|injection H as <-; exact HP].
    destruct (train_epoch cfg val_loader (loader pass) st) as [s1|] eqn:E;
      [|discriminate].
    apply (IH (S pass) (end_epoch cfg s1) st'); [|exact H].
    apply Hend.
    exact (train_epoch_invariant P cfg val_loader Hstep (loader pass) st s1 HP E).
Qed.

End LoopFacts.

Section RunLevel.
Context `{TR : Trainer}.

Lemma train_batch_fields (cfg : Config) (val_loader : list tensor)
  (st st' : TrainState) (batch : tensor) (random_start : Z) :
  train_batch cfg val_loader st batch random_start = Ok st' ->
  (0 <= global_step st)%Z ->
  global_step st' = (global_step st + 1)%Z
  /\ length (step_loss st')
     = (if ((global_step st + 1) mod log_every cfg =? 0)%Z then 0
        else S (length (step_loss st)))
  /\ (vae_training st = true -> vae_training st' = true)
  /\ (is_local_main_process cfg = false ->
      writer st' = writer st /\ saved st' = saved st).
Proof.
  intros H Hg. pose proof H as Hinv.
  apply train_batch_inv in Hinv as (x & Hrec & F & Hsaved).
  unfold train_batch in H.
  destruct (train_forward cfg st batch random_start) as [[[g z] l]|] eqn:Ef;
    cbn [bind] in H; [|discriminate].
  apply train_forward_inv in Ef as (_ & -> & Hrec' & -> & _).
  rewrite Hrec in Hrec'. injection Hrec' as <-.
  set (grad := crop_batch batch random_start) in *.
  change (count_step _ _) with (stepped st grad (mse_loss grad x)) in H.
  set (s1 := stepped st grad (mse_loss grad x)) in *.
  pose proof (stepped_fields st grad (mse_loss grad x)) as Hf.
  cbv zeta in Hf. fold s1 in Hf. destruct Hf as (_ & _ & _ & Hg1 & _ & _ & _).
  assert (step_loss s1 = step_loss st ++ [item (mse_loss grad x)]
          /\ vae_training s1 = vae_training st /\ writer s1 = writer st)
    as (Hl1 & Ht1 & Hw1).
  { unfold s1, stepped, count_step, opt_step, accelerator_backward, zero_grad.
    cbn [set_grad vae vae_grad opt_vae]. destruct (adamw_step _ _ _).
    repeat split. }
  destruct (log_loss cfg s1) as [s2|] eqn:E2; cbn [bind] in H; [|discriminate].
  destruct (save_checkpoint cfg s2) as [s3|] eqn:E3; cbn [bind] in H;
    [|discriminate].
  destruct (log_images cfg grad x s3) as [s4|] eqn:E4; cbn [bind] in H;
    [|discriminate].
  apply log_loss_fields in E2 as (Ht2 & Hl2 & Hw2).
  apply save_checkpoint_inv in E3 as (_ & Hl3 & Hw3 & Ht3 & _).
  apply log_images_fields in E4 as (Hl4 & Ht4 & Hw4).
  apply validate_fields in H as (Hl5 & Ht5 & Hw5).
  destruct F as (_ & _ & _ & Fg & _).
  split; [congruence|]. split.
  { rewrite Hl5, Hl4, Hl3, Hl2, Hg1.
    replace (global_step st + 1 >? 0)%Z with true by (symmetry; lia).
    rewrite andb_true_r.
    destruct ((global_step st + 1) mod log_every cfg =? 0)%Z; [reflexivity|].
    rewrite Hl1, length_app. cbn [length]. lia. }
  split.
  { intros Ht. apply Ht5, Ht4. congruence. }
  intros Hmain. split.
  - rewrite (Hw5 Hmain), (Hw4 Hmain), Hw3, (Hw2 Hmain). exact Hw1.
  - rewrite Hsaved. unfold ckpt_due. rewrite Hmain, andb_false_r. reflexivity.
Qed.

Lemma initial_state_fields (cfg : Config) (st : TrainState) :
  initial_state cfg = Ok st ->
  global_step st = 0%Z /\ epoch st = 0%Z /\ step_loss st = []
  /\ epoch_loss st = [] /\ writer st = [] /\ saved st = []
  /\ vae_training st = true /\ vae_grad st = None.
Proof.
  unfold initial_state. intros H.
  destruct (AutoencoderKL_init 3) as [m0|]; cbn [bind] in H; [|discriminate].
  destruct (load_state_dict m0) as [m|]; cbn [bind] in H; [|discriminate].
  injection H as <-. repeat split.
Qed.

Lemma train_loop_ends (cfg : Config) (val_loader : list tensor)
  (loader : nat -> list (tensor * Z)) :
  forall fuel pass st st',
    train_loop fuel cfg val_loader loader pass st = Some (Ok st') ->
    st' = st \/ exists s, st' = end_epoch cfg s.
Proof.
  induction fuel as [|fuel IH]; intros pass st st' H; cbn [train_loop] in H.
  - destruct (_ <? _)%Z; [discriminate|]. injection H as <-. now left.
  - destruct (_ <? _)%Z; [|injection H as <-; now left].
    destruct (train_epoch _ _ _ _) as [s1|]; [|discriminate].
    apply IH in H as [->|H]; [right; now exists s1|now right].
Qed.

(** X11.  In a regular run, a process that is not the local main process
    never writes: when the run ends it has sent nothing to the summary
    writer and saved no file. *)
Theorem other_processes_write_nothing (cfg : Config) (val_loader : list tensor)
  (loader : nat -> list (tensor * Z)) (fuel : nat) :
  is_local_main_process cfg = false ->
  regular_run cfg val_loader loader ->
  (train_steps cfg <= Z.of_nat fuel)%Z ->
  exists st',
    main fuel cfg val_loader loader = Some (Ok st')
    /\ writer st' = [] /\ saved st' = [].
Proof.
  intros Hmain [good Hreg] Hfuel.
  destruct (main_runs good cfg val_loader loader fuel Hreg Hfuel)
    as (st0 & st' & Hst0 & _ & Hloop & Hrun & _ & _).
  exists st'. split; [exact Hrun|].
  apply (train_loop_invariant
           (fun st => (0 <= global_step st)%Z /\ writer st = [] /\ saved st = [])
           cfg val_loader loader) with (st := st0) in Hloop.
  - tauto.
  - intros st batch r s1 (Hg & Hw & Hs) E.
    apply train_batch_fields in E as (Hg1 & _ & _ & Hq); [|assumption].
    destruct (Hq Hmain) as [-> ->]. repeat split; [lia|assumption..].
  - intros st (Hg & Hw & Hs). unfold end_epoch. rewrite Hmain. cbn.
    repeat split; assumption.
  - apply initial_state_fields in Hst0 as (-> & _ & _ & _ & Hw & Hs & _).
    split; [lia|]. now split.
Qed.

Lemma mod_succ_no_wrap (g l : Z) :
  (0 < l)%Z -> ((g + 1) mod l <> 0)%Z -> (Z.succ (g mod l) = (g + 1) mod l)%Z.
Proof.
  intros Hl Hne. pose proof (Z.mod_pos_bound g l Hl) as Hb.
  assert ((g + 1) mod l = (g mod l + 1) mod l)%Z as E1.
  { symmetry. apply Z.add_mod_idemp_l. lia. }
  rewrite E1 in *.
  destruct (Z.eq_dec (g mod l + 1) l) as [E|E].
  - exfalso. apply Hne. rewrite E. apply Z.mod_same. lia.
  - rewrite (Z.mod_small (g mod l + 1) l) by lia. lia.
Qed.

(** X12.  A regular run with a positive logging interval ends with the
    model in training mode, with an empty epoch-loss buffer, and with the
    losses of the steps since the last logging step in the step-loss
    buffer: [train_steps % log_every] of them. *)
Theorem buffers_at_the_end (cfg : Config) (val_loader : list tensor)
  (loader : nat -> list (tensor * Z)) (fuel : nat) :
  (0 < log_every cfg)%Z ->
  regular_run cfg val_loader loader ->
  (train_steps cfg <= Z.of_nat fuel)%Z ->
  exists st',
    main fuel cfg val_loader loader = Some (Ok st')
    /\ vae_training st' = true
    /\ epoch_loss st' = []
    /\ Z.of_nat (length (step_loss st'))
       = (Z.max 0 (train_steps cfg) mod log_every cfg)%Z.
Proof.
  intros Hl [good Hreg] Hfuel.
  destruct (main_runs good cfg val_loader loader fuel Hreg Hfuel)
    as (st0 & st' & Hst0 & _ & Hloop & Hrun & _ & Hg).
  exists st'. split; [exact Hrun|].
  apply initial_state_fields in Hst0 as (Hg0 & _ & Hs0 & He0 & _ & _ & Ht0 & _).
  split; [|split].
  - apply (train_loop_invariant
             (fun st => (0 <= global_step st)%Z /\ vae_training st = true)
             cfg val_loader loader) with (st := st0) in Hloop.
    + tauto.
    + intros st batch r s1 (Hgs & Ht) E.
      apply train_batch_fields in E as (Hg1 & _ & Ht1 & _); [|assumption].
      split; [lia|now apply Ht1].
    + intros st (Hgs & Ht). unfold end_epoch.
      destruct (is_local_main_process cfg); cbn; now split.
    + split; [lia|assumption].
  - apply train_loop_ends in Hloop as [->|[s ->]]; [assumption|].
    unfold end_epoch. now destruct (is_local_main_process cfg).
  - rewrite <- Hg.
    apply (train_loop_invariant
             (fun st => (0 <= global_step st)%Z
                        /\ Z.of_nat (length (step_loss st))
                           = (global_step st mod log_every cfg)%Z)
             cfg val_loader loader) with (st := st0) in Hloop.
    + tauto.
    + intros st batch r s1 (Hgs & Hlen) E.
      apply train_batch_fields in E as (Hg1 & Hl1 & _); [|assumption].
      split; [lia|]. rewrite Hl1, Hg1.
      destruct ((global_step st + 1) mod log_every cfg =? 0)%Z eqn:Em.
      * apply Z.eqb_eq in Em. now rewrite Em.
      * apply Z.eqb_neq in Em. rewrite Nat2Z.inj_succ, Hlen.
        now apply mod_succ_no_wrap.
    + intros st (Hgs & Hlen). unfold end_epoch.
      destruct (is_local_main_process cfg); cbn; now split.
    + rewrite Hg0, Hs0. split; [lia|]. cbn [length]. now rewrite Z.mod_0_l by lia.
Qed.

End RunLevel.

(** [buffers_at_the_end] at the run [demo_cfg_other]: four steps, logging
    every third. *)
Lemma buffers_at_the_end_witness :
  exists st',
    main 4 demo_cfg_other [demo_batch] demo_loader = Some (Ok st')
    /\ vae_training st' = true
    /\ epoch_loss st' = []
    /\ length (step_loss st') = 1.
Proof.
  destruct (buffers_at_the_end demo_cfg_other [demo_batch] demo_loader 4)
    as (st' & E & Ht & He & Hs).
  - reflexivity.
  - exact demo_other_run_regular.
  - cbn. lia.
  - exists st'. split; [exact E|]. split; [exact Ht|]. split; [exact He|].
    change (Z.of_nat (length (step_loss st')) = 1%Z) in Hs. lia.
Defined.

(** [other_processes_write_nothing] at the run [demo_cfg_other]. *)
Lemma other_processes_write_nothing_witness :
  exists st',
    main 4 demo_cfg_other [demo_batch] demo_loader = Some (Ok st')
    /\ writer st' = [] /\ saved st' = [].
Proof.
  apply (other_processes_write_nothing demo_cfg_other [demo_batch] demo_loader 4).
  - reflexivity.
  - exact demo_other_run_regular.
  - cbn. lia.
Defined.

(** ** Checkpoint names *)

Lemma string_length_append (a b : string) :
  String.length (String.append a b) = String.length a + String.length b.
Proof. induction a as [|x a IH]; cbn [String.append String.length]; [reflexivity|now rewrite IH]. Qed.

Lemma append_inj_r (a b s : string) :
  String.append a s = String.append b s -> a = b.
Proof.
  revert b. induction a as [|x a IH]; intros [|y b] H.
  - reflexivity.
  - exfalso. apply (f_equal String.length) in H.
    rewrite !string_length_append in H. cbn [String.length] in H. lia.
  - exfalso. apply (f_equal String.length) in H.
    rewrite !string_length_append in H. cbn [String.length] in H. lia.
  - cbn [String.append] in H. injection H as -> H. f_equal. now apply IH.
Qed.

(** The number a zero-padded decimal numeral stands for. *)
Lemma uint_of_string_zeros (k : nat) (s : string) (d : uint) :
  NilEmpty.uint_of_string s = Some d ->
  exists d',
    NilEmpty.uint_of_string
      (String.append (string_of_list_ascii (repeat "0"%char k)) s) = Some d'
    /\ N.of_uint d' = N.of_uint d.
Proof.
  intros H. induction k as [|k (d' & Hd' & Hn)].
  - exists d. now split.
  - exists (D0 d'). cbn [repeat string_of_list_ascii String.append].
    cbn [NilEmpty.uint_of_string]. rewrite Hd'. split; [reflexivity|exact Hn].
Qed.

Lemma format_07d_value (n : Z) :
  (0 <= n)%Z ->
  exists d,
    NilEmpty.uint_of_string (format_07d n) = Some d /\ N.of_uint d = Z.to_N n.
Proof.
  intros Hn. unfold format_07d.
  replace (n <? 0)%Z with false by (symmetry; lia).
  cbn [String.append String.length Nat.add].
  destruct (uint_of_string_zeros
              (7 - String.length
                     (NilEmpty.string_of_uint (N.to_uint (Z.abs_N n))))
              (NilEmpty.string_of_uint (N.to_uint (Z.abs_N n)))
              (N.to_uint (Z.abs_N n)) (NilEmpty.usu _)) as (d & Hd & Hv).
  exists d. split; [exact Hd|].
  rewrite Hv, DecimalN.Unsigned.of_to. lia.
Qed.

Lemma format_07d_inj (a b : Z) :
  (0 <= a)%Z -> (0 <= b)%Z -> format_07d a = format_07d b -> a = b.
Proof.
  intros Ha Hb E.
  destruct (format_07d_value a Ha) as (da & Hda & Hva).
  destruct (format_07d_value b Hb) as (db & Hdb & Hvb).
  rewrite E, Hdb in Hda. injection Hda as <-. lia.
Qed.

Lemma ckpt_path_inj (dir : string) (a b : Z) :
  (0 <= a)%Z -> (0 <= b)%Z -> ckpt_path dir a = ckpt_path dir b -> a = b.
Proof.
  intros Ha Hb E. unfold ckpt_path in E.
  apply append_inj_l, append_inj_l, append_inj_r in E.
  now apply format_07d_inj.
Qed.

Lemma due_steps_bounds (every : Z) (n : nat) (g : Z) :
  In g (due_steps every n) -> (0 < g <= Z.of_nat n)%Z.
Proof.
  induction n as [|k IH]; cbn [due_steps]; [contradiction|].
  destruct (_ =? 0)%Z; cbn [In]; intros H.
  - destruct H as [<-|H]; [lia|]. specialize (IH H). lia.
  - specialize (IH H). lia.
Qed.

Lemma due_steps_NoDup (every : Z) (n : nat) : NoDup (due_steps every n).
Proof.
  induction n as [|k IH]; cbn [due_steps]; [constructor|].
  destruct (_ =? 0)%Z; [|exact IH].
  constructor; [|exact IH].
  intros H. apply due_steps_bounds in H. lia.
Qed.

Lemma due_steps_length (every : Z) (n : nat) :
  every <> 0%Z ->
  Z.of_nat (length (due_steps every n)) = (Z.of_nat n / Z.abs every)%Z.
Proof.
  intros He. induction n as [|k IH]; [reflexivity|].
  cbn [due_steps].
  assert (0 < Z.abs every)%Z as Ha by lia.
  assert ((Z.of_nat (S k) mod every =? 0)%Z
          = (Z.of_nat (S k) mod Z.abs every =? 0)%Z) as ->.
  { destruct (Z.abs_eq_or_opp every) as [->| E]; [reflexivity|].
    rewrite E.
    destruct (Z.eqb_spec (Z.of_nat (S k) mod every) 0) as [H|H];
      destruct (Z.eqb_spec (Z.of_nat (S k) mod - every) 0) as [H'|H'];
      try reflexivity; exfalso.
    - apply H'. apply Z.mod_divide in H; [|assumption].
      apply Z.mod_divide; [lia|]. now apply Z.divide_opp_l.
    - apply H. apply Z.mod_divide in H'; [|lia].
      apply Z.mod_divide; [assumption|]. apply Z.divide_opp_l. exact H'. }
  set (a := Z.abs every) in *.
  replace (Z.of_nat (S k)) with (Z.of_nat k + 1)%Z by lia.
  pose proof (Z.div_mod (Z.of_nat k) a ltac:(lia)) as Hk.
  pose proof (Z.mod_pos_bound (Z.of_nat k) a Ha) as Hb.
  pose proof (Z.div_mod (Z.of_nat k + 1) a ltac:(lia)) as Hk1.
  pose proof (Z.mod_pos_bound (Z.of_nat k + 1) a Ha) as Hb1.
  destruct (Z.eqb_spec ((Z.of_nat k + 1) mod a) 0) as [E|E].
  - cbn [length]. rewrite Nat2Z.inj_succ, IH. nia.
  - rewrite IH. nia.
Qed.

Lemma NoDup_map_inj_on {A B : Type} (f : A -> B) (l : list A) :
  (forall x y, In x l -> In y l -> f x = f y -> x = y) ->
  NoDup l -> NoDup (map f l).
Proof.
  intros Hinj Hnd. induction Hnd as [|x l Hx Hnd IH]; [constructor|].
  cbn [map]. constructor.
  - intros Hin. apply in_map_iff in Hin as (y & Hy & Hiny).
    apply Hx. replace x with y; [assumption|].
    apply Hinj; [now right|now left|assumption].
  - apply IH. intros a b Ha Hb. apply Hinj; now right.
Qed.

Section Checkpoints.
Context `{TR : Trainer}.

(** X13.  On the local main process a regular run never writes two
    checkpoints under one name, so no checkpoint file is overwritten, and
    it writes [train_steps // |ckpt_every|] of them. *)
Theorem checkpoint_files_are_distinct (cfg : Config) (val_loader : list tensor)
  (loader : nat -> list (tensor * Z)) (fuel : nat) :
  is_local_main_process cfg = true ->
  regular_run cfg val_loader loader ->
  (train_steps cfg <= Z.of_nat fuel)%Z ->
  exists st',
    main fuel cfg val_loader loader = Some (Ok st')
    /\ NoDup (map fst (saved st'))
    /\ Z.of_nat (length (saved st'))
       = (Z.max 0 (train_steps cfg) / Z.abs (ckpt_every cfg))%Z.
Proof.
  intros Hmain [good Hreg] Hfuel.
  destruct (main_runs good cfg val_loader loader fuel Hreg Hfuel)
    as (st0 & st' & _ & _ & _ & Hrun & (_ & _ & Hs) & Hg).
  destruct Hreg as (_ & Hc & _).
  exists st'. split; [exact Hrun|].
  unfold expected_paths in Hs. rewrite Hmain, Hg in Hs. split.
  - rewrite Hs. apply NoDup_map_inj_on; [|apply due_steps_NoDup].
    intros a b Ha Hb. apply due_steps_bounds in Ha, Hb.
    apply ckpt_path_inj; lia.
  - rewrite <- (length_map fst), Hs, length_map.
    rewrite due_steps_length by assumption. f_equal. lia.
Qed.

(** X14.  An interval of zero in the configuration ends the run at its
    first step with [ZeroDivisionError], when the forward pass and loss of
    the first batch go through: each of the four intervals is the right
    operand of a [%] that the first step then reaches. *)
Theorem zero_interval_raises (cfg : Config) (val_loader : list tensor)
  (loader : nat -> list (tensor * Z)) (fuel : nat) (st0 : TrainState)
  (batch : tensor) (random_start : Z) (rest : list (tensor * Z))
  (x : tensor * tensor * tensor) :
  log_every cfg = 0%Z \/ ckpt_every cfg = 0%Z
  \/ image_every cfg = 0%Z \/ val_every cfg = 0%Z ->
  (0 < train_steps cfg)%Z ->
  initial_state cfg = Ok st0 ->
  loader 0 = (batch, random_start) :: rest ->
  train_forward cfg st0 batch random_start = Ok x ->
  main (S fuel) cfg val_loader loader = Some (Raise ZeroDivisionError).
Proof.
  intros Hzero Hsteps Hst0 Hfirst Hfwd.
  unfold main. rewrite Hst0.
  apply initial_state_fields in Hst0 as (Hg0 & _).
  cbn [train_loop]. rewrite Hg0.
  replace (0 <? train_steps cfg)%Z with true by (symmetry; lia).
  rewrite Hfirst. cbn [train_epoch].
  assert (train_batch cfg val_loader st0 batch random_start
          = Raise ZeroDivisionError) as ->; [|reflexivity].
  unfold train_batch. rewrite Hfwd. destruct x as [[grad z_pred] loss].
  cbn [bind].
  change (count_step _ _) with (stepped st0 grad loss).
  set (s1 := stepped st0 grad loss).
  destruct (Z.eq_dec (log_every cfg) 0) as [Zl|Nl].
  { unfold log_loss, py_mod. rewrite Zl. reflexivity. }
  destruct (log_loss_ok cfg s1 Nl) as [s2 E2]. rewrite E2. cbn [bind].
  destruct (Z.eq_dec (ckpt_every cfg) 0) as [Zc|Nc].
  { unfold save_checkpoint, py_mod. rewrite Zc. reflexivity. }
  destruct (save_checkpoint_ok cfg s2 Nc) as [s3 E3]. rewrite E3. cbn [bind].
  destruct (Z.eq_dec (image_every cfg) 0) as [Zi|Ni].
  { unfold log_images, py_mod. rewrite Zi. reflexivity. }
  destruct (log_images_ok cfg grad z_pred s3 Ni) as [s4 E4]. rewrite E4.
  cbn [bind].
  destruct (Z.eq_dec (val_every cfg) 0) as [Zv|Nv].
  { unfold validate, py_mod. rewrite Zv. reflexivity. }
  exfalso. tauto.
Qed.

(** X15.  A training loader without batches never ends the run: each pass
    of [while global_step < max_steps] leaves the step counter where it
    was, so no number of passes reaches a positive [train_steps]. *)
Theorem empty_loader_never_ends (cfg : Config) (val_loader : list tensor)
  (loader : nat -> list (tensor * Z)) (fuel : nat) :
  (forall pass, loader pass = []) ->
  (0 < train_steps cfg)%Z ->
  (forall m, AutoencoderKL_wf m = true ->
             exists m', load_state_dict m = Ok m' /\ AutoencoderKL_wf m' = true) ->
  main fuel cfg val_loader loader = None.
Proof.
  intros Hempty Hsteps Hload.
  destruct (AutoencoderKL_init_ok 3) as [m0 E0].
  destruct (Hload m0 (AutoencoderKL_init_wf 3 m0 E0)) as (m1 & E1 & _).
  unfold main, initial_state. rewrite E0. cbn [bind]. rewrite E1. cbn [bind].
  match goal with
  | |- train_loop _ _ _ _ _ ?s = _ =>
      assert (global_step s = 0%Z) as Hg by reflexivity; generalize dependent s
  end.
  generalize 0 as pass.
  induction fuel as [|fuel IH]; intros pass st Hg; cbn [train_loop];
    rewrite Hg; replace (0 <? train_steps cfg)%Z with true by (symmetry; lia).
  - reflexivity.
  - rewrite Hempty. cbn [train_epoch]. apply IH.
    unfold end_epoch. now destruct (is_local_main_process cfg).
Qed.

End Checkpoints.

Section Epochs.
Context `{TR : Trainer}.

Lemma train_batch_epoch (cfg : Config) (val_loader : list tensor)
  (st st' : TrainState) (batch : tensor) (r : Z) :
  train_batch cfg val_loader st batch r = Ok st' -> epoch st' = epoch st.
Proof.
  intros H. apply train_batch_inv in H as (x & _ & F & _).
  set (grad := crop_batch batch r) in *.
  pose proof (stepped_fields st grad (mse_loss grad x)) as Hf.
  cbv zeta in Hf. destruct Hf as (_ & _ & _ & _ & He & _).
  destruct F as (_ & _ & _ & _ & He' & _). now rewrite He', He.
Qed.

Lemma end_epoch_fields (cfg : Config) (st : TrainState) :
  global_step (end_epoch cfg st) = global_step st
  /\ epoch (end_epoch cfg st) = (epoch st + 1)%Z
  /\ vae (end_epoch cfg st) = vae st
  /\ saved (end_epoch cfg st) = saved st.
Proof. unfold end_epoch. now destruct (is_local_main_process cfg). Qed.

Lemma ceil_div_step (T L e : Z) :
  (0 < L)%Z -> (e * L < T)%Z -> (T <= e * L + L)%Z ->
  ((T + L - 1) / L = e + 1)%Z.
Proof.
  intros HL H1 H2. symmetry.
  apply Z.div_unique with (r := (T + L - 1 - L * (e + 1))%Z); lia.
Qed.

Lemma train_loop_epochs (good : AutoencoderKL -> Prop) (cfg : Config)
  (val_loader : list tensor) (loader : nat -> list (tensor * Z)) (L : nat) :
  regular_run_with good cfg val_loader loader ->
  0 < L -> (forall pass, length (loader pass) = L) ->
  forall fuel pass st st',
    run_invariant good cfg st ->
    global_step st = (epoch st * Z.of_nat L)%Z ->
    (global_step st < train_steps cfg)%Z ->
    train_loop fuel cfg val_loader loader pass st = Some (Ok st') ->
    epoch st' = ((train_steps cfg + Z.of_nat L - 1) / Z.of_nat L)%Z.
Proof.
  intros Hreg HL Hlen.
  pose proof Hreg as (_ & _ & _ & _ & _ & _ & _ & Htrain & _).
  induction fuel as [|fuel IH]; intros pass st st' Hinv Hhead Hlt H;
    cbn [train_loop] in H;
    replace (global_step st <? train_steps cfg)%Z with true in H
      by (symmetry; lia); [discriminate|].
  destruct (train_epoch_steps cfg val_loader loader good Hreg (loader pass)
              (fun s b q Hs Hin => Htrain s pass b q Hs Hin) st Hinv Hlt)
    as (s1 & E & Hinv1 & Hg1).
  rewrite Hlen in Hg1.
  assert (epoch s1 = epoch st) as He1.
  { apply (train_epoch_invariant (fun s => epoch s = epoch st) cfg val_loader)
      with (batches := loader pass) (st := st); [|reflexivity|exact E].
    intros s b r s' Hs Hb. apply train_batch_epoch in Hb. congruence. }
  rewrite E in H.
  destruct (end_epoch_fields cfg s1) as (Hg2 & He2 & Hv2 & Hs2).
  assert (run_invariant good cfg (end_epoch cfg s1)) as Hinv2.
  { destruct Hinv1 as (A & B & C). unfold run_invariant.
    rewrite Hg2, Hv2, Hs2. now repeat split. }
  destruct (Z_lt_le_dec (global_step st + Z.of_nat L) (train_steps cfg))
    as [Hmore|Hlast].
  - apply IH in H; [exact H|exact Hinv2| |]; rewrite Hg2, ?He2, Hg1; lia.
  - assert (global_step (end_epoch cfg s1) = train_steps cfg) as Hend
      by (rewrite Hg2, Hg1; lia).
    assert (st' = end_epoch cfg s1) as ->.
    { destruct fuel; cbn [train_loop] in H; rewrite Hend, Z.ltb_irrefl in H;
        now injection H as <-. }
    rewrite He2, He1. symmetry. apply ceil_div_step; lia.
Qed.

(** X16.  With a training loader of [L] batches per pass, a regular run
    of [train_steps] steps makes [ceil(train_steps / L)] passes: that is
    the value of [epoch] when the loop ends. *)
Theorem epochs_of_a_run (cfg : Config) (val_loader : list tensor)
  (loader : nat -> list (tensor * Z)) (L fuel : nat) :
  regular_run cfg val_loader loader ->
  (forall pass, length (loader pass) = L) ->
  (train_steps cfg <= Z.of_nat fuel)%Z ->
  exists st',
    main fuel cfg val_loader loader = Some (Ok st')
    /\ epoch st'
       = ((Z.max 0 (train_steps cfg) + Z.of_nat L - 1) / Z.of_nat L)%Z.
Proof.
  intros [good Hreg] Hlen Hfuel.
  assert (0 < L) as HL.
  { destruct Hreg as (_ & _ & _ & _ & Hne & _). specialize (Hne 0).
    specialize (Hlen 0). destruct (loader 0); [contradiction|].
    cbn [length] in Hlen. lia. }
  destruct (main_runs good cfg val_loader loader fuel Hreg Hfuel)
    as (st0 & st' & Hst0 & Hgood0 & Hloop & Hrun & _ & _).
  exists st'. split; [exact Hrun|].
  apply initial_state_fields in Hst0 as (Hg0 & He0 & _ & _ & _ & Hs0 & _).
  destruct (Z_lt_le_dec 0 (train_steps cfg)) as [Hpos|Hnone].
  - rewrite Z.max_r by lia.
    apply (train_loop_epochs good cfg val_loader loader L Hreg HL Hlen
             fuel 0 st0 st'); [|rewrite Hg0, He0; lia|lia|exact Hloop].
    unfold run_invariant, expected_paths. rewrite Hg0, Hs0.
    split; [lia|]. split; [exact Hgood0|]. cbn.
    now destruct (is_local_main_process cfg).
  - rewrite Z.max_l by lia.
    assert (st' = st0) as ->.
    { destruct fuel; cbn [train_loop] in Hloop;
        replace (global_step st0 <? train_steps cfg)%Z with false in Hloop
          by (symmetry; lia); now injection Hloop as <-. }
    rewrite He0. symmetry. apply Z.div_small. lia.
Qed.

End Epochs.

(** X17.  The training crop of lines 273 to 277 in the shape
    interpretation: a batch [b h w z 1] becomes [b 1 h w k], where [k] is
    what the slice [r : r + 128] keeps of the [z] axis, 128 when [z] is at
    least [r + 128].  The reconstruction loss of the crop is a scalar
    exactly when [h], [w] and [k] are positive multiples of 8. *)
Theorem training_crop_loss (m : AutoencoderKL (TT := ShapeTorch))
  (b h w z : nat) (r : Z) :
  AutoencoderKL_init 3 = Ok m -> (0 <= r)%Z ->
  let k := Z.to_nat (Z.min (r + 128) (Z.of_nat z) - Z.min r (Z.of_nat z)) in
  crop_batch (TR := ShapeTrainer) (Some [b; h; w; z; 1]) r = Some [b; 1; h; w; k]
  /\ ((r + 128 <= Z.of_nat z)%Z -> k = 128)
  /\ loss_graph (TT := ShapeTorch)
       (crop_batch (TR := ShapeTrainer) (Some [b; h; w; z; 1]) r) m
     = Ok (if (8 <=? h) && (h mod 8 =? 0) && (8 <=? w) && (w mod 8 =? 0)
              && (8 <=? k) && (k mod 8 =? 0)
           then Some [] else None).
Proof.
  intros Hm Hr k.
  assert (crop_batch (TR := ShapeTrainer) (Some [b; h; w; z; 1]) r
          = Some [b; 1; h; w; k]) as Hcrop.
  { unfold crop_batch. cbn [rearrange crop_last ShapeTrainer shape_rearrange
                             shape_crop_last].
    unfold slice_len.
    replace (r + 128 <? 0)%Z with false by (symmetry; lia).
    replace (r <? 0)%Z with false by (symmetry; lia).
    reflexivity. }
  split; [exact Hcrop|]. split; [subst k; lia|].
  rewrite Hcrop. apply loss_graph_shape. exact Hm.
Qed.

(** X18.  An [OnlyDecoder] decodes like the autoencoder whose
    [post_quant_conv] and [decoder] it has been given, on every latent the
    convolution accepts.  As its constructor leaves it, without a
    [post_quant_conv], it raises [TypeError] on every input; with a
    [post_quant_conv] and without a [decoder] it raises what the
    convolution raises, and [TypeError] when the convolution goes
    through. *)
Theorem OnlyDecoder_decode_spec `{TT : Torch} (z : pyobj) :
  (forall (m : AutoencoderKL) (t : tensor),
      z = PyTensor t ->
      rejected (Conv3d_forward (post_quant_conv m) t) = false ->
      OnlyDecoder_decode
        {| od_decoder := Some (decoder m);
           od_post_quant_conv := Some (post_quant_conv m) |} z
      = decode m z)
  /\ (forall d, exists msg,
         OnlyDecoder_decode
           {| od_decoder := d; od_post_quant_conv := None |} z
         = Raise (TypeError msg))
  /\ (exists msg, OnlyDecoder_decode OnlyDecoder_init z = Raise (TypeError msg))
  /\ (forall (c : Conv3d) (t : tensor),
         z = PyTensor t ->
         OnlyDecoder_decode
           {| od_decoder := None; od_post_quant_conv := Some c |} z
         = if rejected (Conv3d_forward c t) then Raise TorchError
           else Raise (TypeError "'NoneType' object is not callable")).
Proof.
  split; [|split; [|split]].
  - intros m t -> Hok. unfold OnlyDecoder_decode, decode, returned.
    cbn [od_decoder od_post_quant_conv call_attr Conv3d_call bind].
    rewrite Hok. reflexivity.
  - intros d. eexists. reflexivity.
  - eexists. reflexivity.
  - intros c t ->. unfold OnlyDecoder_decode, returned.
    cbn [od_decoder od_post_quant_conv call_attr Conv3d_call bind].
    destruct (rejected (Conv3d_forward c t)); reflexivity.
Qed.

(** [OnlyDecoder_decode_spec] in the shape interpretation: a latent of
    three channels is decoded, one of four channels is rejected by
    [post_quant_conv], with and without a decoder. *)
Lemma OnlyDecoder_decode_spec_witness :
  exists m : AutoencoderKL (TT := ShapeTorch),
    AutoencoderKL_init 3 = Ok m
    /\ OnlyDecoder_decode
         {| od_decoder := Some (decoder m);
            od_post_quant_conv := Some (post_quant_conv m) |}
         (PyTensor (Some [1; 3; 2; 2; 2]))
       = decode m (PyTensor (Some [1; 3; 2; 2; 2]))
    /\ OnlyDecoder_decode
         {| od_decoder := None;
            od_post_quant_conv := Some (post_quant_conv m) |}
         (PyTensor (Some [1; 4; 2; 2; 2]))
       = Raise TorchError.
Proof.
  destruct (AutoencoderKL_init (TT := ShapeTorch) 3) as [m|] eqn:E;
    [|discriminate E].
  exists m. split; [reflexivity|].
  apply AutoencoderKL_init_layout in E as (_ & _ & _ & _ & Hpost).
  split.
  - apply (proj1 (OnlyDecoder_decode_spec (TT := ShapeTorch)
                    (@PyTensor ShapeTorch (Some [1; 3; 2; 2; 2])))
             m (Some [1; 3; 2; 2; 2])); [reflexivity|].
    rewrite Hpost. reflexivity.
  - rewrite (proj2 (proj2 (proj2
               (OnlyDecoder_decode_spec (TT := ShapeTorch)
                  (@PyTensor ShapeTorch (Some [1; 4; 2; 2; 2])))))
               (post_quant_conv m) (Some [1; 4; 2; 2; 2]) eq_refl).
    rewrite Hpost. reflexivity.
Defined.

(** [checkpoint_files_are_distinct] at the run [demo_cfg]: two files. *)
Lemma checkpoint_files_are_distinct_witness :
  exists st',
    main 4 demo_cfg [demo_batch] demo_loader = Some (Ok st')
    /\ NoDup (map fst (saved st'))
    /\ length (saved st') = 2.
Proof.
  destruct (checkpoint_files_are_distinct demo_cfg [demo_batch] demo_loader 4)
    as (st' & E & Hnd & Hlen).
  - reflexivity.
  - exact demo_run_regular.
  - cbn. lia.
  - exists st'. split; [exact E|]. split; [exact Hnd|].
    change (Z.of_nat (length (saved st')) = 2%Z) in Hlen. lia.
Defined.

(** [zero_interval_raises] at the run [demo_cfg_zero]. *)
Lemma zero_interval_raises_witness :
  main 1 demo_cfg_zero [demo_batch] demo_loader = Some (Raise ZeroDivisionError).
Proof.
  destruct (initial_state demo_cfg_zero) as [st0|] eqn:E0; [|discriminate E0].
  assert (AutoencoderKL_init 3 = Ok (vae st0)) as Hm.
  { apply initial_state_inv in E0 as (m0 & Hm0 & Hload & _).
    injection Hload as <-. exact Hm0. }
  apply (zero_interval_raises demo_cfg_zero [demo_batch] demo_loader 0 st0
           demo_batch 5 [(demo_batch, 31%Z); (demo_batch, 0%Z)]
           (Some [1; 1; 8; 16; 128], Some [1; 1; 8; 16; 128], Some [])).
  - right. left. reflexivity.
  - reflexivity.
  - exact E0.
  - reflexivity.
  - apply train_forward_shape; try (reflexivity || lia). exact Hm.
Defined.

(** [empty_loader_never_ends] at [demo_cfg], after a thousand passes. *)
Lemma empty_loader_never_ends_witness :
  main 1000 demo_cfg [demo_batch] empty_loader = None.
Proof.
  apply (empty_loader_never_ends demo_cfg [demo_batch] empty_loader 1000).
  - reflexivity.
  - reflexivity.
  - intros m H. exists m. split; [reflexivity|exact H].
Defined.

(** [epochs_of_a_run] at the run [demo_cfg]: four steps over passes of
    three batches are two passes. *)
Lemma epochs_of_a_run_witness :
  exists st',
    main 4 demo_cfg [demo_batch] demo_loader = Some (Ok st')
    /\ epoch st' = 2%Z.
Proof.
  apply (epochs_of_a_run demo_cfg [demo_batch] demo_loader 3 4).
  - exact demo_run_regular.
  - reflexivity.
  - cbn. lia.
Defined.

(** [training_crop_loss] at a batch 160 deep and the last offset
    [randint(0, 32)] can draw. *)
Lemma training_crop_loss_witness :
  exists m : AutoencoderKL (TT := ShapeTorch),
    AutoencoderKL_init 3 = Ok m
    /\ crop_batch (TR := ShapeTrainer) (Some [2; 16; 24; 160; 1]) 31
       = Some [2; 1; 16; 24; 128]
    /\ loss_graph (TT := ShapeTorch)
         (crop_batch (TR := ShapeTrainer) (Some [2; 16; 24; 160; 1]) 31) m
       = Ok (Some []).
Proof.
  destruct (AutoencoderKL_init (TT := ShapeTorch) 3) as [m|] eqn:E;
    [|discriminate E].
  exists m. split; [reflexivity|].
  destruct (training_crop_loss m 2 16 24 160 31 E) as (Hc & _ & Hl); [lia|].
  split; [exact Hc|exact Hl].
Defined.

(** ** Caption lines *)

Lemma substring_nil (a m : nat) : String.substring a m "" = "".
Proof. destruct a, m; reflexivity. Qed.

Lemma substring_none (s : string) : forall a, String.substring a 0 s = "".
Proof.
  induction s as [|c s IH]; intros [|a]; try reflexivity.
  cbn [String.substring]. apply IH.
Qed.

Lemma substring_split (s : string) :
  forall a m1 m2,
    String.substring a (m1 + m2) s
    = String.append (String.substring a m1 s) (String.substring (a + m1) m2 s).
Proof.
  induction s as [|c s IH]; intros a m1 m2.
  - now rewrite !substring_nil.
  - destruct a as [|a].
    + destruct m1 as [|m1]; [reflexivity|].
      cbn [Nat.add String.substring String.append]. f_equal. apply (IH 0).
    + cbn [Nat.add String.substring]. apply IH.
Qed.

Lemma substring_length (s : string) :
  forall a m,
    String.length (String.substring a m s) = Nat.min m (String.length s - a).
Proof.
  induction s as [|c s IH]; intros a m.
  - rewrite substring_nil. cbn. now rewrite Nat.min_0_r.
  - destruct a as [|a].
    + destruct m as [|m]; [reflexivity|].
      cbn [String.substring String.length Nat.sub]. rewrite (IH 0).
      rewrite Nat.sub_0_r. reflexivity.
    + cbn [String.substring String.length Nat.sub]. apply IH.
Qed.

Lemma substring_all (s : string) (m : nat) :
  String.length s <= m -> String.substring 0 m s = s.
Proof.
  revert m. induction s as [|c s IH]; intros m H.
  - apply substring_nil.
  - destruct m as [|m]; cbn [String.length] in H; [lia|].
    cbn [String.substring]. f_equal. apply IH. lia.
Qed.

Lemma concat_empty_fold (ls : list string) :
  String.concat "" ls = fold_right String.append "" ls.
Proof.
  induction ls as [|x [|y ls] IH]; [reflexivity| |].
  - cbn. now rewrite append_nil_r.
  - change (String.concat "" (x :: y :: ls))
      with (String.append x (String.append "" (String.concat "" (y :: ls)))).
    rewrite IH. reflexivity.
Qed.

Lemma chunks_join (s : string) (nc k : nat) :
  forall a,
    fold_right String.append ""
      (map (fun start => String.substring (a + start) nc s)
         (map (fun i => i * nc) (seq 0 k)))
    = String.substring a (k * nc) s.
Proof.
  induction k as [|k IH]; intros a.
  - cbn. symmetry. apply substring_none.
  - cbn [seq map fold_right]. rewrite <- seq_shift, !map_map.
    cbn [Nat.mul Nat.add]. rewrite Nat.add_0_r, substring_split. f_equal.
    rewrite <- (IH (a + nc)). rewrite map_map. f_equal.
    apply map_ext. intros i. f_equal. lia.
Qed.

Lemma ceil_div_bounds (n nc : nat) :
  0 < nc ->
  n <= ((n + nc - 1) / nc) * nc /\ ((n + nc - 1) / nc) * nc < n + nc.
Proof. intros H. div_lia. Qed.

(** X19.  The lines [log_txt_as_img] draws for a caption: for an image
    less than 7 pixels wide [nc] is zero and [range] raises [ValueError];
    otherwise the caption is cut into [ceil(len / nc)] pieces of at least
    one and at most [nc] characters, joined by newlines, and the pieces one
    after the other spell the caption. *)
Theorem log_txt_as_img_lines_spec (width : nat) (caption : string) :
  let nc := (40 * width) / 256 in
  (width < 7 -> exists msg,
      log_txt_as_img_lines width caption = Raise (ValueError msg))
  /\ (7 <= width -> exists pieces,
         log_txt_as_img_lines width caption
         = Ok (String.concat newline pieces)
         /\ String.concat "" pieces = caption
         /\ Forall (fun p => 1 <= String.length p <= nc) pieces
         /\ length pieces = (String.length caption + nc - 1) / nc).
Proof.
  intros nc. unfold log_txt_as_img_lines, py_range_step. fold nc. split.
  - intros Hw. replace nc with 0 by (subst nc; div_lia).
    cbn [Nat.eqb bind]. eexists. reflexivity.
  - intros Hw. assert (0 < nc) as Hnc by (subst nc; div_lia).
    replace (nc =? 0) with false by (symmetry; apply Nat.eqb_neq; lia).
    cbn [bind]. eexists. split; [reflexivity|].
    set (n := String.length caption).
    destruct (ceil_div_bounds n nc Hnc) as [Hlo Hhi].
    split; [|split].
    + rewrite concat_empty_fold.
      etransitivity; [exact (chunks_join caption nc ((n + nc - 1) / nc) 0)|].
      apply substring_all. exact Hlo.
    + apply Forall_forall. intros p Hp.
      apply in_map_iff in Hp as (start & <- & Hs).
      apply in_map_iff in Hs as (i & <- & Hi). apply in_seq in Hi.
      rewrite substring_length. fold n.
      assert (i * nc + nc <= ((n + nc - 1) / nc) * nc) by nia.
      lia.
    + now rewrite !length_map, length_seq.
Qed.

(** [log_txt_as_img_lines_spec] at widths 6 and 64 (ten characters a
    line). *)
Lemma log_txt_as_img_lines_spec_witness :
  (exists msg,
      log_txt_as_img_lines 6 "a photograph of a brain"
      = Raise (ValueError msg))
  /\ exists pieces,
       log_txt_as_img_lines 64 "a photograph of a brain"
       = Ok (String.concat newline pieces)
       /\ String.concat "" pieces = "a photograph of a brain"
       /\ Forall (fun p => 1 <= String.length p <= 10) pieces
       /\ length pieces = 3.
Proof.
  split.
  - apply (proj1 (log_txt_as_img_lines_spec 6 "a photograph of a brain")). lia.
  - apply (proj2 (log_txt_as_img_lines_spec 64 "a photograph of a brain")). lia.
Defined.

